(** * planefinder-kml: the ingestion pipeline, embedded and verified

    The development follows the Python sources:
    - [firehose_client.py]: [DLEProtocol.extract_frames] (the escape framed
      codec) and [FirehoseClient._process_buffer] (per frame decoding);
    - [data_processor.py]: [DataProcessor] (filters, statistics, callbacks);
    - [kmz_generator.py]: [OptimizedKMZGenerator] (the aircraft cache). *)

From Stdlib Require Import Strings.Byte ZArith QArith Qpower Lia Lqa.
From Stdlib Require SpecFloat.
From stdpp Require Import base option list strings pretty gmap.

Set Default Proof Using "Type".
Open Scope Z_scope.
Open Scope nat_scope.

(** ** 1. The DLE framing codec ([firehose_client.py], class [DLEProtocol]) *)

Module DLEProtocol.

Definition DLE : byte := x10.
Definition STX : byte := x02.
Definition ETX : byte := x03.

(** [buffer[j]]. Every read of the source is guarded by the loop
    condition [j < len(buffer) - 1], so the default is never returned. *)
Definition at_index (buffer : list byte) (j : nat) : byte :=
  nth j buffer x00.

(** [unstuff_data]: the source returns [bytes(data)] unchanged. *)
Definition unstuff_data (data : list byte) : list byte := data.

(** One iteration of the inner [while] of [extract_frames], entered with
    [j < len(buffer) - 1]. *)
Inductive inner_step :=
| FrameEnd (i' : nat) (frame_data : list byte)   (* append frame, i = j + 2, break *)
| Next (j' : nat) (frame_data : list byte).      (* go round the loop again *)

Definition inner_body (buffer : list byte) (j : nat) (frame_data : list byte)
  : inner_step :=
  if Byte.eqb (at_index buffer j) DLE then
    if Byte.eqb (at_index buffer (j + 1)) ETX then
      FrameEnd (j + 2) frame_data
    else if Byte.eqb (at_index buffer (j + 1)) DLE then
      Next (j + 2) (frame_data ++ [DLE])
    else
      Next (j + 1) (frame_data ++ [at_index buffer j])
  else
    Next (j + 1) (frame_data ++ [at_index buffer j]).

(** Outcome of the inner [while ... else]. *)
Inductive inner_result :=
| Break (i' : nat) (frame_data : list byte)  (* left by [break] *)
| Exhausted                                  (* condition false: the [else] clause *)
| InnerOutOfFuel.

(** The loop condition [j < len(buffer) - 1] is written on [nat]: for an
    empty buffer Python compares with [-1] and the truncated subtraction
    with [0]; both are false for every [j >= 0]. *)
Fixpoint inner_loop (fuel : nat) (buffer : list byte) (j : nat)
         (frame_data : list byte) : inner_result :=
  match fuel with
  | O => InnerOutOfFuel
  | S fuel' =>
      if j <? length buffer - 1 then
        match inner_body buffer j frame_data with
        | FrameEnd i' fd => Break i' fd
        | Next j' fd => inner_loop fuel' buffer j' fd
        end
      else Exhausted
  end.

(** The outer [while] of [extract_frames]; [None] only when the fuel runs
    out (never with the fuel [extract_frames] gives, see
    [extract_frames_total]). The result is [(frames, remaining_buffer)]. *)
Fixpoint outer_loop (fuel : nat) (buffer : list byte) (i : nat)
         (frames : list (list byte)) : option (list (list byte) * list byte) :=
  match fuel with
  | O => None
  | S fuel' =>
      if i <? length buffer - 1 then
        if Byte.eqb (at_index buffer i) DLE && Byte.eqb (at_index buffer (i + 1)) STX then
          match inner_loop (S (length buffer)) buffer (i + 2) [] with
          | Break i' fd => outer_loop fuel' buffer i' (frames ++ [unstuff_data fd])
          | Exhausted => Some (frames, drop i buffer)
          | InnerOutOfFuel => None
          end
        else outer_loop fuel' buffer (i + 1) frames
      else Some (frames, [])
  end.

Definition extract_frames_fuel (buffer : list byte)
  : option (list (list byte) * list byte) :=
  outer_loop (S (length buffer)) buffer 0 [].

(** [extract_frames] as a total function. *)
Definition extract_frames (buffer : list byte) : list (list byte) * list byte :=
  default ([], []) (extract_frames_fuel buffer).

(** The sender's side is not part of the repository. From the wire format
    of the specification (section 6): a frame is [DLE STX], the payload with
    every [DLE] in it doubled, [DLE ETX]. *)
Fixpoint stuff (payload : list byte) : list byte :=
  match payload with
  | [] => []
  | b :: rest =>
      if Byte.eqb b DLE then DLE :: DLE :: stuff rest else b :: stuff rest
  end.

Definition encode_frame (payload : list byte) : list byte :=
  DLE :: STX :: stuff payload ++ [DLE; ETX].

(** A valid stream: the encoded frames [ps], one after the other. *)
Definition stream (ps : list (list byte)) : list byte :=
  concat (map encode_frame ps).

(** A stream [s] that arrives in two reads, [s[0..k)] and [s[k..)], as the
    read loop of [FirehoseClient] handles it: [self.buffer.extend(data)],
    then [frames, self.buffer = extract_frames(self.buffer)]. The result is
    the frames of both calls, in order, and the last remainder. *)
Definition extract_two_reads (s : list byte) (k : nat)
  : list (list byte) * list byte :=
  let '(frames1, remaining1) := extract_frames (take k s) in
  let '(frames2, remaining2) := extract_frames (remaining1 ++ drop k s) in
  (frames1 ++ frames2, remaining2).

(** Whether [l] holds a start marker, [DLE] directly followed by [STX]. *)
Fixpoint has_start_marker (l : list byte) : bool :=
  match l with
  | [] => false
  | a :: tl =>
      match tl with
      | [] => false
      | b :: _ => (Byte.eqb a DLE && Byte.eqb b STX) || has_start_marker tl
      end
  end.

(** Frames on a noisy line: each item is the bytes that precede a frame and
    the payload of the frame. *)
Definition noisy_stream (items : list (list byte * list byte)) : list byte :=
  concat (map (λ item, item.1 ++ encode_frame item.2) items).

(** The least number of bytes that frames take on the wire: each payload
    byte at least once, and the two markers. *)
Definition wire_size (frames : list (list byte)) : nat :=
  foldr (λ frame n, length frame + 4 + n) 0 frames.

End DLEProtocol.

(** ** 2. Python values, records and exceptions

    A record of the feed is a Python [dict] from field names to JSON values.
    The fields the pipeline reads hold JSON scalars: [null], booleans,
    numbers and strings. Numbers (Python [int] and finite [float]) are
    modelled by their exact rational value: the pipeline only compares
    them, and Python compares [int] and [float] exactly. [json.loads] also
    reads the tokens [NaN], [Infinity] and [-Infinity] (and numerals beyond
    the range of a [float]) as the floats [nan], [inf] and [-inf]; these
    are values of their own. Lists and objects as field values are outside
    the model, as are batches whose values are not records (the source
    annotates a batch as [Dict[str, Dict]]). *)

Inductive pyval :=
| PNone
| PBool (b : bool)
| PNum (q : Q)
| PNaN
| PInf (negative : bool)
| PStr (s : string).

Inductive exception :=
| TypeError
| AttributeError
| DecodeError                        (* gzip, UTF-8 or JSON decoding failed *)
| OtherException (msg : string).

Inductive result (A : Type) :=
| Ok (a : A)
| Raise (e : exception).
Arguments Ok {A} a.
Arguments Raise {A} e.

(** The call returned [True]. *)
Definition returned_true (r : result bool) : bool :=
  match r with Ok true => true | _ => false end.

(** [aircraft: Dict]. *)
Abbreviation aircraft := (gmap string pyval).

Module Py.

(** [d.get(k)] and [d.get(k, dflt)]. *)
Definition get (d : aircraft) (k : string) : pyval := default PNone (d !! k).
Definition get_default (d : aircraft) (k : string) (dflt : pyval) : pyval :=
  default dflt (d !! k).

(** [v is None]. *)
Definition is_None (v : pyval) : bool :=
  match v with PNone => true | _ => false end.

(** Truth value of [v], as in [if v:] and [if not v:]. *)
Definition truthy (v : pyval) : bool :=
  match v with
  | PNone => false
  | PBool b => b
  | PNum q => negb (Qeq_bool q 0)
  | PNaN | PInf _ => true
  | PStr s => negb (String.eqb s "")
  end.

(** The rational a finite number compares as ([bool] is a subclass of
    [int]). *)
Definition as_number (v : pyval) : option Q :=
  match v with
  | PBool b => Some (inject_Z (Z.b2z b))
  | PNum q => Some q
  | PNone | PNaN | PInf _ | PStr _ => None
  end.

(** [v < n], [v > n], [v >= n] and [v <= n] against an [int]. Every
    comparison with [nan] is false; [inf] lies above and [-inf] below every
    [int]; ordering [None] or a [str] against an [int] raises
    [TypeError]. *)
Definition lt (v : pyval) (n : Z) : result bool :=
  match v with
  | PNaN => Ok false
  | PInf negative => Ok negative
  | _ =>
      match as_number v with
      | Some q => Ok (negb (Qle_bool (inject_Z n) q))
      | None => Raise TypeError
      end
  end.

Definition gt (v : pyval) (n : Z) : result bool :=
  match v with
  | PNaN => Ok false
  | PInf negative => Ok (negb negative)
  | _ =>
      match as_number v with
      | Some q => Ok (negb (Qle_bool q (inject_Z n)))
      | None => Raise TypeError
      end
  end.

Definition ge (v : pyval) (n : Z) : result bool :=
  match v with
  | PNaN => Ok false
  | PInf negative => Ok (negb negative)
  | _ =>
      match as_number v with
      | Some q => Ok (Qle_bool (inject_Z n) q)
      | None => Raise TypeError
      end
  end.

Definition le (v : pyval) (n : Z) : result bool :=
  match v with
  | PNaN => Ok false
  | PInf negative => Ok negative
  | _ =>
      match as_number v with
      | Some q => Ok (Qle_bool q (inject_Z n))
      | None => Raise TypeError
      end
  end.

(** The equality under which a [dict] identifies its keys: the same object,
    or [a == b], that is numbers by value ([True == 1 == 1.0]) and strings
    by content. [nan == nan] is false, but every [NaN] token is read by
    [json.loads] as the one object [json.decoder.NaN], which a [dict]
    finds again by identity. *)
Definition eqb (a b : pyval) : bool :=
  match as_number a, as_number b with
  | Some x, Some y => Qeq_bool x y
  | None, None =>
      match a, b with
      | PNone, PNone => true
      | PNaN, PNaN => true
      | PInf s, PInf t => Bool.eqb s t
      | PStr s, PStr t => String.eqb s t
      | _, _ => false
      end
  | _, _ => false
  end.

(** A Python [dict] keyed by values, in insertion order. *)
Section Dict.
Context {V : Type}.

Fixpoint dict_get (d : list (pyval * V)) (k : pyval) : option V :=
  match d with
  | [] => None
  | (k', v) :: d' => if eqb k' k then Some v else dict_get d' k
  end.

(** [d[k] = v]: an existing key keeps its place (and its key object),
    a new key goes last. *)
Fixpoint dict_set (d : list (pyval * V)) (k : pyval) (v : V)
  : list (pyval * V) :=
  match d with
  | [] => [(k, v)]
  | (k', v') :: d' =>
      if eqb k' k then (k', v) :: d' else (k', v') :: dict_set d' k v
  end.

(** [del d[k]]. *)
Fixpoint dict_del (d : list (pyval * V)) (k : pyval) : list (pyval * V) :=
  match d with
  | [] => []
  | (k', v') :: d' =>
      if eqb k' k then d' else (k', v') :: dict_del d' k
  end.

(** Keys pairwise different, as in every Python [dict]. *)
Fixpoint dict_wf (d : list (pyval * V)) : Prop :=
  match d with
  | [] => True
  | (k, _) :: d' => dict_get d' k = None ∧ dict_wf d'
  end.
End Dict.

End Py.

(** The one float valued expression of the pipeline, as an interface: the
    statistics are kept in terms of it, [binary64] below gives its value. *)
Class PyFloat := {
  pyfloat : Type;
  (** the literal [0.0] *)
  float_zero : pyfloat;
  (** [round((filtered / total) * 100, 1)] *)
  pass_rate : Z → Z → pyfloat
}.

(** [num / den] rounded to the nearest integer, ties to the even one. *)
Definition round_half_even (num den : Z) : Z :=
  let q := (num / den)%Z in
  match (2 * (num mod den) ?= den)%Z with
  | Lt => q
  | Gt => (q + 1)%Z
  | Eq => if Z.even q then q else (q + 1)%Z
  end.

(** Python's [float] is IEEE 754 binary64. A finite float is modelled by
    its exact value, a rational; an operation returns the binary64 number
    nearest to its exact result, ties to the even significand (53 bits,
    gradual underflow at [2 ^ -1074]). Results from [2 ^ 1024] on, where
    Python raises [OverflowError] or yields [inf], are outside the model:
    the pipeline computes one float expression, a percentage. *)
Module Binary64.

Definition round_to_integer (y : Q) : Z :=
  round_half_even (Qnum y) (Zpos (Qden y)).

(** For [0 < x]: the [k] with [2 ^ k <= x < 2 ^ (k + 1)]. *)
Definition floor_log2 (x : Q) : Z :=
  let l := (Z.log2 (Qnum x) - Z.log2 (Zpos (Qden x)))%Z in
  if Qle_bool (2 ^ l) x then l else (l - 1)%Z.

(** The exponent of the unit in the last place of [x]. *)
Definition exponent (x : Q) : Z := Z.max (floor_log2 x - 52) (-1074).

Definition nearest_pos (x : Q) : Q :=
  let e := exponent x in
  inject_Z (round_to_integer (x * 2 ^ (- e))) * 2 ^ e.

(** The binary64 number nearest to [x]. *)
Definition nearest (x : Q) : Q :=
  match Qnum x with
  | Z0 => 0
  | Zpos _ => nearest_pos x
  | Zneg _ => - nearest_pos (- x)
  end.

(** [a / b] on two [int]: the quotient, correctly rounded. *)
Definition int_truediv (a b : Z) : Q := nearest (inject_Z a / inject_Z b).

(** [x * y] on a [float] and an [int] that a [float] holds exactly. *)
Definition float_mul (x y : Q) : Q := nearest (x * y).

(** [round(x, 1)]: the decimal with one digit nearest to [x], ties to the
    even digit, and then the [float] nearest to that decimal. *)
Definition round1 (x : Q) : Q :=
  nearest (round_to_integer (x * 10) # 10).

(** [round((filtered / total) * 100, 1)]. *)
Definition pass_rate (filtered total : Z) : Q :=
  round1 (float_mul (int_truediv filtered total) 100).

(** The same expression computed with the operations of the Standard
    Library's specification of binary64 ([SpecFloat], on significands and
    exponents), to compare with: the division and the multiplication are
    the library's, and so is the division by which [round] comes back from
    its decimal to a float. *)
Definition SF_of_Z (n : Z) : SpecFloat.spec_float :=
  SpecFloat.binary_normalize 53 1024 n 0 false.

Definition SF_value (x : SpecFloat.spec_float) : Q :=
  match x with
  | SpecFloat.S754_finite s m e =>
      (if s then -1 else 1) * (inject_Z (Zpos m) * 2 ^ e)
  | _ => 0
  end.

Definition library_pass_rate (filtered total : Z) : SpecFloat.spec_float :=
  let product :=
    SpecFloat.SFmul 53 1024
      (SpecFloat.SFdiv 53 1024 (SF_of_Z filtered) (SF_of_Z total))
      (SF_of_Z 100) in
  SpecFloat.SFdiv 53 1024
    (SF_of_Z (round_to_integer (SF_value product * 10))) (SF_of_Z 10).

End Binary64.

Definition binary64 : PyFloat :=
  {| pyfloat := Q; float_zero := 0%Q; pass_rate := Binary64.pass_rate |}.

(** ** 3. The filter engine ([data_processor.py], class [DataProcessor]) *)

Module DataProcessor.

(** [self.filters]: the keys ["max_altitude"] and ["min_altitude"], each
    present or not, holding altitudes in feet. *)
Record filters := {
  max_altitude : option Z;
  min_altitude : option Z
}.

Definition default_filters : filters :=
  {| max_altitude := Some 10000%Z; min_altitude := Some 100%Z |}.

Section WithFloat.
Context `{PyFloat}.

(** [self.stats]. *)
Record stats := {
  total_aircraft : Z;
  filtered_aircraft : Z;
  ground_filtered : Z;
  low_altitude_filtered : Z;
  payloads_processed : Z;
  filter_pass_rate : pyfloat;
  current_filters : filters
}.

Definition incr_ground (st : stats) : stats :=
  {| total_aircraft := total_aircraft st;
     filtered_aircraft := filtered_aircraft st;
     ground_filtered := (ground_filtered st + 1)%Z;
     low_altitude_filtered := low_altitude_filtered st;
     payloads_processed := payloads_processed st;
     filter_pass_rate := filter_pass_rate st;
     current_filters := current_filters st |}.

Definition incr_low_altitude (st : stats) : stats :=
  {| total_aircraft := total_aircraft st;
     filtered_aircraft := filtered_aircraft st;
     ground_filtered := ground_filtered st;
     low_altitude_filtered := (low_altitude_filtered st + 1)%Z;
     payloads_processed := payloads_processed st;
     filter_pass_rate := filter_pass_rate st;
     current_filters := current_filters st |}.

Definition incr_payloads (st : stats) : stats :=
  {| total_aircraft := total_aircraft st;
     filtered_aircraft := filtered_aircraft st;
     ground_filtered := ground_filtered st;
     low_altitude_filtered := low_altitude_filtered st;
     payloads_processed := (payloads_processed st + 1)%Z;
     filter_pass_rate := filter_pass_rate st;
     current_filters := current_filters st |}.

Definition add_total (n : Z) (st : stats) : stats :=
  {| total_aircraft := (total_aircraft st + n)%Z;
     filtered_aircraft := filtered_aircraft st;
     ground_filtered := ground_filtered st;
     low_altitude_filtered := low_altitude_filtered st;
     payloads_processed := payloads_processed st;
     filter_pass_rate := filter_pass_rate st;
     current_filters := current_filters st |}.

Definition add_filtered (n : Z) (st : stats) : stats :=
  {| total_aircraft := total_aircraft st;
     filtered_aircraft := (filtered_aircraft st + n)%Z;
     ground_filtered := ground_filtered st;
     low_altitude_filtered := low_altitude_filtered st;
     payloads_processed := payloads_processed st;
     filter_pass_rate := filter_pass_rate st;
     current_filters := current_filters st |}.

Definition set_pass_rate (r : pyfloat) (st : stats) : stats :=
  {| total_aircraft := total_aircraft st;
     filtered_aircraft := filtered_aircraft st;
     ground_filtered := ground_filtered st;
     low_altitude_filtered := low_altitude_filtered st;
     payloads_processed := payloads_processed st;
     filter_pass_rate := r;
     current_filters := current_filters st |}.

Definition set_current_filters (f : filters) (st : stats) : stats :=
  {| total_aircraft := total_aircraft st;
     filtered_aircraft := filtered_aircraft st;
     ground_filtered := ground_filtered st;
     low_altitude_filtered := low_altitude_filtered st;
     payloads_processed := payloads_processed st;
     filter_pass_rate := filter_pass_rate st;
     current_filters := f |}.

(** [if total_aircraft > 0: filter_pass_rate = round(...)]. *)
Definition recompute_pass_rate (st : stats) : stats :=
  if (0 <? total_aircraft st)%Z
  then set_pass_rate (pass_rate (filtered_aircraft st) (total_aircraft st)) st
  else st.

(** ["min_altitude" in self.filters and altitude < self.filters["min_altitude"]]:
    [and] does not evaluate the comparison when the key is missing. *)
Definition below_min (flt : filters) (altitude : pyval) : result bool :=
  match min_altitude flt with
  | Some m => Py.lt altitude m
  | None => Ok false
  end.

Definition above_max (flt : filters) (altitude : pyval) : result bool :=
  match max_altitude flt with
  | Some m => Py.gt altitude m
  | None => Ok false
  end.

(** [_passes_filters]: the statistics after the call and its outcome. *)
Definition _passes_filters (flt : filters) (st : stats) (a : aircraft)
  : stats * result bool :=
  if Py.is_None (Py.get a "lat") || Py.is_None (Py.get a "lon") then
    (st, Ok false)
  else if Py.truthy (Py.get_default a "is_on_ground" (PBool false)) then
    (incr_ground st, Ok false)
  else
    let altitude := Py.get a "altitude" in
    if Py.is_None altitude then (st, Ok false)
    else
      match below_min flt altitude with
      | Raise e => (st, Raise e)
      | Ok true => (incr_low_altitude st, Ok false)
      | Ok false =>
          match above_max flt altitude with
          | Raise e => (st, Raise e)
          | Ok true => (st, Ok false)
          | Ok false => (st, Ok true)
          end
      end.

(** The [for aircraft in all_aircraft] loop of [process_aircraft_data]. *)
Fixpoint filter_loop (flt : filters) (st : stats) (all_aircraft : list aircraft)
         (filtered_aircraft : list aircraft) : stats * result (list aircraft) :=
  match all_aircraft with
  | [] => (st, Ok filtered_aircraft)
  | a :: rest =>
      match _passes_filters flt st a with
      | (st', Raise e) => (st', Raise e)
      | (st', Ok true) => filter_loop flt st' rest (filtered_aircraft ++ [a])
      | (st', Ok false) => filter_loop flt st' rest filtered_aircraft
      end
  end.
End WithFloat.

(** Downstream consumers. A consumer is Python code of its own: it acts on
    a state [W] outside the processor (the cache, for the consumer that
    [main.py] registers) and either returns or raises. The accepted list it
    is handed is read, not changed. *)
Section WithConsumers.
Context `{PyFloat} {W : Type}.

Definition callback := list aircraft → W → W * option exception.

(** The object [self]. *)
Record processor := {
  proc_filters : filters;
  proc_stats : stats;
  callbacks : list callback
}.

(** [__init__]: [filters or {...}] takes the default when the argument is
    [None] or an empty mapping, for both of which [flt = None] stands; a
    mapping that is not empty is taken as it is, with or without the two
    keys. *)
Definition init (flt : option filters) : processor :=
  let f := default default_filters flt in
  {| proc_filters := f;
     proc_stats :=
       {| total_aircraft := 0; filtered_aircraft := 0; ground_filtered := 0;
          low_altitude_filtered := 0; payloads_processed := 0;
          filter_pass_rate := float_zero; current_filters := f |};
     callbacks := [] |}.

Definition add_callback (self : processor) (cb : callback) : processor :=
  {| proc_filters := proc_filters self;
     proc_stats := proc_stats self;
     callbacks := callbacks self ++ [cb] |}.

(** [update_filters]: [dict.update] overwrites the keys that [new_filters]
    holds and keeps the others. *)
Definition update_filters (self : processor) (new_filters : filters) : processor :=
  let f :=
    {| max_altitude :=
         match max_altitude new_filters with
         | Some m => Some m
         | None => max_altitude (proc_filters self)
         end;
       min_altitude :=
         match min_altitude new_filters with
         | Some m => Some m
         | None => min_altitude (proc_filters self)
         end |} in
  {| proc_filters := f;
     proc_stats := set_current_filters f (proc_stats self);
     callbacks := callbacks self |}.

Definition with_stats (self : processor) (st : stats) : processor :=
  {| proc_filters := proc_filters self;
     proc_stats := st;
     callbacks := callbacks self |}.

(** One consumer invocation, as the notification loop makes it: which
    consumer (its position in [self.callbacks]), the argument it was given
    and the exception it raised, if any. *)
Record call_event := {
  callee : nat;
  argument : list aircraft;
  raised : option exception
}.

(** [for callback in self.callbacks: try: callback(filtered_aircraft)
    except Exception: print(...)]; [idx] is the position of the first
    consumer of [cbs]. *)
Fixpoint notify (cbs : list callback) (idx : nat) (filtered : list aircraft)
         (w : W) : W * list call_event :=
  match cbs with
  | [] => (w, [])
  | cb :: rest =>
      let '(w1, exn) := cb filtered w in
      let '(w2, events) := notify rest (S idx) filtered w1 in
      (w2, {| callee := idx; argument := filtered; raised := exn |} :: events)
  end.

(** What [json.loads] can hand to [process_aircraft_data]: a mapping from
    aircraft ids to records, or a value that is no mapping (a list, a
    number, a string), of which only the truth value matters. *)
Inductive payload :=
| Mapping (items : list (string * aircraft))
| NotMapping (truth : bool).

(** [process_aircraft_data]: the processor and the outer state after the
    call, the consumer invocations made, and the value returned or the
    exception raised. *)
Definition process_aircraft_data (self : processor) (aircraft_dict : payload) (w : W)
  : processor * W * list call_event * result (list aircraft) :=
  let st1 := incr_payloads (proc_stats self) in
  match aircraft_dict with
  | NotMapping _ =>
      (* [aircraft_dict.values()] raises *)
      (with_stats self st1, w, [], Raise AttributeError)
  | Mapping items =>
      let all_aircraft := map snd items in
      let st2 := add_total (Z.of_nat (length all_aircraft)) st1 in
      match filter_loop (proc_filters self) st2 all_aircraft [] with
      | (st3, Raise e) => (with_stats self st3, w, [], Raise e)
      | (st3, Ok filtered) =>
          let st4 := add_filtered (Z.of_nat (length filtered)) st3 in
          let st5 := recompute_pass_rate st4 in
          let self' := with_stats self st5 in
          match filtered, callbacks self with
          | _ :: _, _ :: _ =>
              let '(w', events) := notify (callbacks self) 0 filtered w in
              (self', w', events, Ok filtered)
          | _, _ => (self', w, [], Ok filtered)
          end
      end
  end.

(** [get_stats]: a copy of the statistics. *)
Definition get_stats (self : processor) : stats := proc_stats self.

(** What a client of the processor can do with it, and a sequence of such
    uses run one after the other. *)
Inductive operation :=
| ProcessBatch (aircraft_dict : payload)
| UpdateFilters (new_filters : filters)
| AddCallback (cb : callback).

Definition run_operation (st : processor * W) (op : operation) : processor * W :=
  let '(self, w) := st in
  match op with
  | ProcessBatch aircraft_dict =>
      let '(self', w', _, _) := process_aircraft_data self aircraft_dict w in
      (self', w')
  | UpdateFilters new_filters => (update_filters self new_filters, w)
  | AddCallback cb => (add_callback self cb, w)
  end.

Definition run_operations (st : processor * W) (ops : list operation)
  : processor * W :=
  fold_left run_operation ops st.

End WithConsumers.

(** *** The admission rules in the words of the specification

    Section 4.4 of the specification lists five checks, evaluated in this
    order, the first failing one rejecting the record. The definitions
    below follow that text; they are compared with [_passes_filters]. *)

Inductive check :=
| CoordinatesPresent      (* (1) both coordinates must be present *)
| NotOnGround             (* (2) the on-ground flag must be false *)
| AltitudePresent         (* (3) altitude must be present *)
| AltitudeAtLeastMinimum  (* (4) altitude >= the configured minimum *)
| AltitudeAtMostMaximum.  (* (5) altitude <= the configured maximum *)

(** The altitude of the data model: an optional number; [spec_altitude]
    is its value when it is finite. *)
Definition spec_altitude (a : aircraft) : option Q :=
  Py.as_number (Py.get a "altitude").

Definition spec_altitude_present (a : aircraft) : bool :=
  match Py.get a "altitude" with
  | PNone | PStr _ => false
  | PBool _ | PNum _ | PNaN | PInf _ => true
  end.

(** Checks (4) and (5) read [>=] and [<=] as Python does ([Py.ge],
    [Py.le]): no order relation holds for [nan]. They ask nothing where no
    threshold is configured or the altitude is no number. *)
Definition spec_check_holds (flt : filters) (a : aircraft) (c : check) : bool :=
  match c with
  | CoordinatesPresent =>
      negb (Py.is_None (Py.get a "lat")) && negb (Py.is_None (Py.get a "lon"))
  | NotOnGround =>
      negb (Py.truthy (Py.get_default a "is_on_ground" (PBool false)))
  | AltitudePresent => spec_altitude_present a
  | AltitudeAtLeastMinimum =>
      match min_altitude flt with
      | Some m =>
          match Py.ge (Py.get a "altitude") m with
          | Ok holds => holds
          | Raise _ => true
          end
      | None => true
      end
  | AltitudeAtMostMaximum =>
      match max_altitude flt with
      | Some m =>
          match Py.le (Py.get a "altitude") m with
          | Ok holds => holds
          | Raise _ => true
          end
      | None => true
      end
  end.

(** The first check of the list that fails, [None] when all five hold. *)
Definition spec_first_failing_check (flt : filters) (a : aircraft) : option check :=
  List.find (λ c, negb (spec_check_holds flt a c))
            [CoordinatesPresent; NotOnGround; AltitudePresent;
             AltitudeAtLeastMinimum; AltitudeAtMostMaximum].

Definition spec_passes_all_checks (flt : filters) (a : aircraft) : bool :=
  match spec_first_failing_check flt a with None => true | Some _ => false end.

(** The counter a rejection increments: check (2) the ground-filtered
    counter, check (4) the low-altitude counter, the others none. *)
Definition spec_count_rejection `{PyFloat} (c : option check) (st : stats) : stats :=
  match c with
  | Some NotOnGround => incr_ground st
  | Some AltitudeAtLeastMinimum => incr_low_altitude st
  | _ => st
  end.

Section SpecStats.
Context `{PyFloat}.

(** The statistics after the filter loop over [l], by the specification. *)
Definition spec_count_rejections (flt : filters) (l : list aircraft) (st : stats)
  : stats :=
  fold_left (λ st a, spec_count_rejection (spec_first_failing_check flt a) st) l st.

(** The five counters of [st] are at most those of [st']. *)
Definition counters_le (st st' : stats) : Prop :=
  (payloads_processed st ≤ payloads_processed st')%Z
  ∧ (total_aircraft st ≤ total_aircraft st')%Z
  ∧ (filtered_aircraft st ≤ filtered_aircraft st')%Z
  ∧ (ground_filtered st ≤ ground_filtered st')%Z
  ∧ (low_altitude_filtered st ≤ low_altitude_filtered st')%Z.

(** The filter touches the two rejection counters only, and only upwards;
    this holds also when a comparison raises. *)
Definition rejections_only (st st' : stats) : Prop :=
  payloads_processed st' = payloads_processed st
  ∧ total_aircraft st' = total_aircraft st
  ∧ filtered_aircraft st' = filtered_aircraft st
  ∧ filter_pass_rate st' = filter_pass_rate st
  ∧ current_filters st' = current_filters st
  ∧ (ground_filtered st ≤ ground_filtered st')%Z
  ∧ (low_altitude_filtered st ≤ low_altitude_filtered st')%Z.

(** The pass rate agrees with the counters: it is the float expression of
    the two counters once records have been seen, and [0.0] before. *)
Definition rate_consistent (st : stats) : Prop :=
  filter_pass_rate st
  = if (0 <? total_aircraft st)%Z
    then pass_rate (filtered_aircraft st) (total_aircraft st)
    else float_zero.

(** The pass rate is the float expression of the records passed and of
    [seen], the count of records seen as it stood when the rate was last
    computed, and [0.0] when that count is zero. *)
Definition rate_as_of (seen : Z) (st : stats) : Prop :=
  filter_pass_rate st
  = if (0 <? seen)%Z
    then pass_rate (filtered_aircraft st) seen
    else float_zero.

(** No record seen, no rate computed: the count of records seen is not
    negative, and the pass rate is [0.0] while it is zero. *)
Definition zero_rate (st : stats) : Prop :=
  (0 ≤ total_aircraft st)%Z
  ∧ (total_aircraft st = 0%Z → filter_pass_rate st = float_zero).

End SpecStats.

(** The altitude of a record is, as in the data model, absent, [null] or a
    number (not a string, which Python refuses to order against an
    [int]). *)
Definition altitude_numeric (a : aircraft) : Prop :=
  ∀ s, Py.get a "altitude" ≠ PStr s.

(** The altitude of a record is not [nan], the one number that is neither
    below, nor equal to, nor above a threshold. *)
Definition altitude_ordered (a : aircraft) : Prop :=
  Py.get a "altitude" ≠ PNaN.

Definition altitudes_numeric (aircraft_dict : payload) : Prop :=
  match aircraft_dict with
  | Mapping items => Forall altitude_numeric (map snd items)
  | NotMapping _ => True
  end.

Definition operation_altitudes_numeric {W : Type} (op : @operation W) : Prop :=
  match op with
  | ProcessBatch aircraft_dict => altitudes_numeric aircraft_dict
  | _ => True
  end.

(** The counters add up: none is negative, and the records passed and the
    records counted as rejected are among the records seen. *)
Definition accounted `{PyFloat} (st : stats) : Prop :=
  (0 ≤ payloads_processed st)%Z
  ∧ (0 ≤ filtered_aircraft st)%Z
  ∧ (0 ≤ ground_filtered st)%Z
  ∧ (0 ≤ low_altitude_filtered st)%Z
  ∧ (filtered_aircraft st + ground_filtered st + low_altitude_filtered st
     ≤ total_aircraft st)%Z.

(** The calls of [process_aircraft_data] among [ops]. *)
Definition count_batches {W : Type} (ops : list (@operation W)) : nat :=
  length (List.filter (λ op, match op with ProcessBatch _ => true | _ => false end)
                      ops).

End DataProcessor.

(** ** 4. The aircraft cache ([kmz_generator.py], class [OptimizedKMZGenerator])

    Clock readings ([time.time()]) and the persistence window are numbers
    of one unit, modelled in [Z]: the cache only subtracts two readings and
    compares the difference with the window.

    The cache stores one [dict] object per aircraft and hands references to
    these objects out ([get_current_aircraft]); the sweep writes into them.
    The objects therefore live in a store, and the cache and every list it
    returns hold locations of that store. *)

Module KMZ.

(** [minimal_aircraft]: the dict the cache builds for an accepted record. *)
Record entry := {
  adshex : pyval;
  lat : pyval;
  lon : pyval;
  altitude : pyval;
  vert_rate : pyval;
  heading : pyval;
  speed : pyval;
  last_seen_timestamp : Z;
  age_seconds : Z
}.

Definition set_age (age : Z) (e : entry) : entry :=
  {| adshex := adshex e; lat := lat e; lon := lon e; altitude := altitude e;
     vert_rate := vert_rate e; heading := heading e; speed := speed e;
     last_seen_timestamp := last_seen_timestamp e;
     age_seconds := age |}.

(** A location of the store: the position of an object in it. *)
Abbreviation loc := nat.

(** The object [self] together with the store of the entry objects it has
    created. [last_update_time] (a [datetime] that nothing in the pipeline
    reads) and the lock are left out: the operations below are the bodies
    run under [with self._lock], one at a time. *)
Record generator := {
  refresh_interval : Z;
  persistence_time : Z;
  aircraft_database : list (pyval * loc);
  store : list entry
}.

(** [__init__], with its defaults [refresh_interval = 1] and
    [persistence_time = 15]. *)
Definition init (refresh persistence : Z) : generator :=
  {| refresh_interval := refresh; persistence_time := persistence;
     aircraft_database := []; store := [] |}.

Definition init_default : generator := init 1 15.

(** The dict built from [aircraft] at [current_time]. *)
Definition minimal_aircraft (aircraft_id : pyval) (a : aircraft) (current_time : Z)
  : entry :=
  {| adshex := aircraft_id;
     lat := Py.get a "lat";
     lon := Py.get a "lon";
     altitude := Py.get_default a "altitude" (PNum 0);
     vert_rate := Py.get_default a "vert_rate" (PNum 0);
     heading := Py.get a "heading";
     speed := Py.get a "speed";
     last_seen_timestamp := current_time;
     age_seconds := 0 |}.

(** Body of the first loop of [update_aircraft_data]: a record without a
    truthy ["adshex"] is skipped ([continue]); otherwise a new dict object
    is allocated and stored under the id. *)
Definition upsert (current_time : Z) (st : list (pyval * loc) * list entry)
           (a : aircraft) : list (pyval * loc) * list entry :=
  let '(db, objs) := st in
  let aircraft_id := Py.get a "adshex" in
  if negb (Py.truthy aircraft_id) then (db, objs)
  else
    (Py.dict_set db aircraft_id (length objs),
     objs ++ [minimal_aircraft aircraft_id a current_time]).

(** Body of the second loop: the age is written into the stored object,
    and the id is noted when the age exceeds the persistence window. *)
Definition sweep_item (current_time persistence : Z)
           (st : list entry * list pyval) (item : pyval * loc)
  : list entry * list pyval :=
  let '(objs, expired_aircraft) := st in
  let '(aircraft_id, l) := item in
  match objs !! l with
  | Some aircraft_data =>
      let age := (current_time - last_seen_timestamp aircraft_data)%Z in
      (<[l := set_age age aircraft_data]> objs,
       if (age >? persistence)%Z
       then expired_aircraft ++ [aircraft_id] else expired_aircraft)
  | None => (objs, expired_aircraft)   (* no dangling reference exists *)
  end.

(** [update_aircraft_data], run at clock reading [current_time]. *)
Definition update_aircraft_data (self : generator) (aircraft_list : list aircraft)
           (current_time : Z) : generator :=
  let '(db1, objs1) :=
    fold_left (upsert current_time) aircraft_list
              (aircraft_database self, store self) in
  let '(objs2, expired_aircraft) :=
    fold_left (sweep_item current_time (persistence_time self)) db1 (objs1, []) in
  let db2 := fold_left Py.dict_del expired_aircraft db1 in
  {| refresh_interval := refresh_interval self;
     persistence_time := persistence_time self;
     aircraft_database := db2;
     store := objs2 |}.

(** [get_current_aircraft]: [list(self.aircraft_database.values())], a new
    list of references to the stored objects. *)
Definition get_current_aircraft (self : generator) : list loc :=
  map snd (aircraft_database self).

(** What a holder of the list [refs] reads through it when the store is
    [objs]. *)
Definition view (objs : list entry) (refs : list loc) : list entry :=
  omap (λ l, objs !! l) refs.

(** What the sweep at [current_time] leaves of an entry object it visits,
    and whether it then notes the entry as expired. *)
Definition sweep_entry (current_time : Z) (e : entry) : entry :=
  set_age (current_time - last_seen_timestamp e) e.

Definition expired_item (current_time persistence : Z) (objs : list entry)
           (item : pyval * loc) : bool :=
  match objs !! item.2 with
  | Some e => (current_time - last_seen_timestamp e >? persistence)%Z
  | None => false
  end.

(** Every reference of the cache points into the store. *)
Definition valid (db : list (pyval * loc)) (objs : list entry) : Prop :=
  Forall (λ item, item.2 < length objs) db.

(** The invariant of the cache: its keys are pairwise different, its
    references are valid, and every entry object ever built carries a
    truthy id. *)
Definition inv (self : generator) : Prop :=
  Py.dict_wf (aircraft_database self)
  ∧ valid (aircraft_database self) (store self)
  ∧ Forall (λ e, Py.truthy (adshex e) = true) (store self).

(** [objs'] holds the objects of [objs], changed at most in [age_seconds]
    (and possibly more objects behind them). *)
Definition ages_only (objs objs' : list entry) : Prop :=
  ∀ l e, objs !! l = Some e →
         ∃ e', objs' !! l = Some e' ∧ set_age 0 e' = set_age 0 e.

(** A run of later updates, each with its batch and clock reading. *)
Definition updates (self : generator) (later : list (list aircraft * Z))
  : generator :=
  fold_left (λ g u, update_aircraft_data g u.1 u.2) later self.

(** The states the cache can be in: built by [__init__], then changed by
    [update_aircraft_data] only. *)
Inductive reachable : generator → Prop :=
| reachable_init refresh persistence :
    reachable (init refresh persistence)
| reachable_update self aircraft_list current_time :
    reachable self →
    reachable (update_aircraft_data self aircraft_list current_time).

End KMZ.

(** ** 5. Per frame decoding ([firehose_client.py], [FirehoseClient._process_buffer])

    [gzip.decompress] and [json.loads] are library code: they are taken as
    functions that return a value or raise. [json_loads] stands for
    [json.loads(data.decode())]. *)

Module FirehoseClient.

Import DataProcessor.

Section WithDecoders.
Context `{PyFloat} {W : Type}.
Context (gzip_decompress : list byte → option (list byte)).
Context (json_loads : list byte → option payload).

(** The part of [self] that [_process_buffer] reads and writes. *)
Record client := {
  buffer : list byte;
  data_processor : option (@processor _ W)
}.

(** [len(frame) >= 2 and frame[0] == 0x1f and frame[1] == 0x8b]. *)
Definition is_gzipped (frame : list byte) : bool :=
  match frame with
  | b0 :: b1 :: _ => Byte.eqb b0 x1f && Byte.eqb b1 x8b
  | _ => false
  end.

(** [aircraft_data and aircraft_data != {}]. *)
Definition payload_truthy (aircraft_data : payload) : bool :=
  match aircraft_data with
  | Mapping [] => false
  | Mapping (_ :: _) => true
  | NotMapping truth => truth
  end.

(** [aircraft_data = json.loads(...)] followed by the guarded call of
    [self.data_processor.process_aircraft_data]: the statements both
    branches of the frame loop share. The last component is the exception
    that leaves these statements, if any. *)
Definition parse_and_process (dp : option processor) (w : W) (data : list byte)
  : option processor * W * list call_event * option exception :=
  match json_loads data with
  | None => (dp, w, [], Some DecodeError)
  | Some aircraft_data =>
      if payload_truthy aircraft_data then
        match dp with
        | Some p =>
            match process_aircraft_data p aircraft_data w with
            | (p', w', events, Ok _) => (Some p', w', events, None)
            | (p', w', events, Raise e) => (Some p', w', events, Some e)
            end
        | None => (dp, w, [], None)
        end
      else (dp, w, [], None)
  end.

(** [try: body except Exception: ...] with a handler that returns normally:
    the effects of [body] up to the exception stay, the exception goes. *)
Definition try_except {S : Type} (body : S * option exception)
  : S * option exception :=
  (fst body, None).

(** The body of the outer [try] of the frame loop. In the gzip branch the
    inner [try ... except Exception: pass] encloses decompression, parsing
    and processing. *)
Definition frame_body (dp : option processor) (w : W) (frame : list byte)
  : option processor * W * list call_event * option exception :=
  if is_gzipped frame then
    try_except
      match gzip_decompress frame with
      | None => (dp, w, [], Some DecodeError)
      | Some decompressed => parse_and_process dp w decompressed
      end
  else parse_and_process dp w frame.

(** One round of [for frame in frames]: the outer
    [try ... except Exception as e: print(...)]; the last component is what
    still propagates to the loop. *)
Definition process_frame (dp : option processor) (w : W) (frame : list byte)
  : option processor * W * list call_event * option exception :=
  try_except (frame_body dp w frame).

Fixpoint process_frames (dp : option processor) (w : W) (frames : list (list byte))
  : option processor * W * list call_event * option exception :=
  match frames with
  | [] => (dp, w, [], None)
  | frame :: rest =>
      match process_frame dp w frame with
      | (dp1, w1, events1, None) =>
          let '(dp2, w2, events2, exn) := process_frames dp1 w1 rest in
          (dp2, w2, events1 ++ events2, exn)
      | (dp1, w1, events1, Some e) => (dp1, w1, events1, Some e)
      end
  end.

(** A frame in the words of the specification: its payload fails
    decompression, fails structured-text parsing, or decodes to an empty
    mapping. *)
Definition decode_fails (frame : list byte) : Prop :=
  if is_gzipped frame then
    match gzip_decompress frame with
    | None => True
    | Some decompressed =>
        json_loads decompressed = None
        ∨ json_loads decompressed = Some (Mapping [])
    end
  else json_loads frame = None ∨ json_loads frame = Some (Mapping []).

(** [_process_buffer]. *)
Definition _process_buffer (self : client) (w : W)
  : client * W * list call_event * option exception :=
  let '(frames, remaining) := DLEProtocol.extract_frames (buffer self) in
  let '(dp, w', events, exn) := process_frames (data_processor self) w frames in
  ({| buffer := remaining; data_processor := dp |}, w', events, exn).

(** What one round of the read loop of [_connect_and_run] meets: the loop
    test finds [self.running] false (a [stop()] from the other thread), or
    [self.socket.recv(8192)] returns bytes (none when the server has
    closed), times out, or raises. *)
Inductive recv_result :=
| Received (data : list byte)
| TimedOut
| RecvFailed.

Inductive round :=
| Stopped
| Recv (r : recv_result).

(** The loop [while self.running and self.connected] of [_connect_and_run],
    run over the rounds it meets. The last component tells whether the loop
    is still going when the rounds are used up; it is left by [break] on an
    empty read and on an exception, [socket.timeout] leads to [continue]. *)
Fixpoint read_loop (self : client) (w : W) (rounds : list round)
  : client * W * list call_event * bool :=
  match rounds with
  | [] => (self, w, [], true)
  | Stopped :: _ => (self, w, [], false)
  | Recv TimedOut :: rest => read_loop self w rest
  | Recv RecvFailed :: _ => (self, w, [], false)
  | Recv (Received []) :: _ => (self, w, [], false)
  | Recv (Received (b :: data)) :: rest =>
      (* [self.buffer.extend(data); self._process_buffer()] *)
      match _process_buffer {| buffer := buffer self ++ b :: data;
                               data_processor := data_processor self |} w with
      | (self1, w1, events1, None) =>
          let '(self2, w2, events2, going) := read_loop self1 w1 rest in
          (self2, w2, events1 ++ events2, going)
      | (self1, w1, events1, Some _) => (self1, w1, events1, false)
      end
  end.

(** The rounds in which [recv] raised [socket.timeout]. *)
Definition is_timeout (r : round) : bool :=
  match r with Recv TimedOut => true | _ => false end.

(** [_connect_and_run] from the point where the connection stands and the
    credentials are sent: [self.buffer.clear()], then the read loop. *)
Definition connected_session (self : client) (w : W) (rounds : list round)
  : client * W * list call_event * bool :=
  read_loop {| buffer := []; data_processor := data_processor self |} w rounds.

End WithDecoders.

End FirehoseClient.

(** ** 6. Sample records

    The record of the end-to-end scenario of the specification, and
    variations of it. *)

Module Samples.

Definition ac1 : aircraft :=
  list_to_map [("adshex", PStr "AC1"); ("lat", PNum (515 # 10));
               ("lon", PNum (-1 # 10)); ("altitude", PNum 5000);
               ("is_on_ground", PBool false)].

Definition ac2 : aircraft :=
  list_to_map [("adshex", PStr "AC2"); ("lat", PNum 48); ("lon", PNum 2);
               ("altitude", PNum 3000)].

(** [ac1] on the ground, [ac1] flying low, [ac1] without a longitude, and
    [ac1] without its id. *)
Definition grounded : aircraft := <["is_on_ground" := PBool true]> ac1.
Definition low : aircraft := <["altitude" := PNum 50]> ac1.
Definition no_lon : aircraft := delete "lon" grounded.
Definition anonymous : aircraft := delete "adshex" ac1.

(** A later report of [ac1], from another latitude. *)
Definition ac1_moved : aircraft := <["lat" := PNum 52]> ac1.

(** [ac1] with the altitude that [json.loads] reads from the token [NaN],
    and with a string as altitude. *)
Definition nan_altitude : aircraft := <["altitude" := PNaN]> ac1.
Definition string_altitude : aircraft := <["altitude" := PStr "high"]> ac1.

(** A batch of [total] records under the keys ["0"], ["1"], ...: the first
    [passing] of them are [ac1], the others [grounded]. *)
Definition batch_of (passing total : nat) : list (string * aircraft) :=
  map (λ i, (pretty i, if (i <? passing)%nat then ac1 else grounded))
      (seq 0 total).

End Samples.

(** ** 7. The system ([main.py], class [CellularOptimizedKMZSystem])

    [__init__] builds the processor and the cache and registers
    [kmz_generator.update_aircraft_data] as the consumer of the processor.
    The consumer acts on the cache and reads the clock ([time.time()]) at
    the moment it is invoked. *)

Module System.

Import DataProcessor.

Record world := {
  clock : Z;
  kmz_generator : KMZ.generator
}.

(** [self.kmz_generator.update_aircraft_data] as a consumer. *)
Definition cache_consumer : @callback world :=
  λ aircraft_list w,
    ({| clock := clock w;
        kmz_generator :=
          KMZ.update_aircraft_data (kmz_generator w) aircraft_list (clock w) |},
     None).

Section WithFloat.
Context `{PyFloat}.

(** The processor and the cache that [__init__] builds. *)
Definition new_system (altitude_filter min_altitude_filter : Z)
           (kmz_refresh_interval aircraft_persistence_time : Z)
  : @processor _ world * KMZ.generator :=
  (add_callback
     (init (Some {| max_altitude := Some altitude_filter;
                    min_altitude := Some min_altitude_filter |}))
     cache_consumer,
   KMZ.init kmz_refresh_interval aircraft_persistence_time).

(** A decoded batch is processed; the clock reads [t] when the consumer is
    invoked. *)
Definition receive (st : @processor _ world * KMZ.generator) (t : Z) (b : payload)
  : @processor _ world * KMZ.generator :=
  let '(self, cache) := st in
  let '(self', w', _, _) :=
    process_aircraft_data self b {| clock := t; kmz_generator := cache |} in
  (self', kmz_generator w').

Definition receive_all (st : @processor _ world * KMZ.generator)
           (feed : list (Z * payload)) : @processor _ world * KMZ.generator :=
  fold_left (λ st tb, receive st tb.1 tb.2) feed st.

(** No record of the batch gets through [_passes_filters] under the
    filters [flt]. *)
Definition accepts_nothing (flt : filters) (b : payload) : Prop :=
  match b with
  | Mapping items =>
      ∀ a st, a ∈ map snd items → (_passes_filters flt st a).2 ≠ Ok true
  | NotMapping _ => True
  end.

End WithFloat.

End System.

(** A read that does not end one byte behind the start of a frame of the
    stream [ps]: [k] is the number of bytes read so far. *)
Definition off_marker (ps : list (list byte)) (k : nat) : Prop :=
  ∀ m, m < length ps →
       k ≠ length (DLEProtocol.stream (take m ps)) + 1.

(** * Properties *)

(** ** The framing codec *)

Section CodecFacts.
Import DLEProtocol.

Lemma at_index_app (pre rest : list byte) (b : byte) :
  at_index (pre ++ b :: rest) (length pre) = b.
Proof.
  unfold at_index. rewrite app_nth2 by lia.
  by rewrite Nat.sub_diag.
Qed.

Lemma at_index_app_next (pre rest : list byte) (b c : byte) :
  at_index (pre ++ b :: c :: rest) (length pre + 1) = c.
Proof.
  unfold at_index. rewrite app_nth2 by lia.
  by replace (length pre + 1 - length pre) with 1 by lia.
Qed.

Lemma inner_cond_app (pre rest : list byte) (b c : byte) :
  (length pre <? length (pre ++ b :: c :: rest) - 1) = true.
Proof. apply Nat.ltb_lt. rewrite length_app. simpl. lia. Qed.

Lemma inner_cond_app_mid (pre mid rest : list byte) (b c : byte) :
  (length pre <? length (pre ++ b :: mid ++ c :: rest) - 1) = true.
Proof. apply Nat.ltb_lt. rewrite !length_app. simpl. rewrite length_app. simpl. lia. Qed.

(** The inner loop reads a stuffed payload back and stops at its
    [DLE ETX]. *)
Lemma inner_loop_stuffed (p pre tail fd : list byte) (fuel : nat) :
  length (stuff p) < fuel →
  inner_loop fuel (pre ++ stuff p ++ DLE :: ETX :: tail) (length pre) fd
  = Break (length pre + length (stuff p) + 2) (fd ++ p).
Proof.
  revert pre fd fuel.
  induction p as [|b p IH]; intros pre fd fuel Hfuel;
    (destruct fuel as [|fuel]; [simpl in Hfuel; lia|]).
  - cbn [stuff app inner_loop]. rewrite inner_cond_app.
    unfold inner_body. rewrite at_index_app, at_index_app_next.
    cbn. rewrite app_nil_r. f_equal. lia.
  - revert Hfuel. cbn [stuff]. destruct (Byte.eqb b DLE) eqn:Hb; intros Hfuel.
    + apply Byte.byte_dec_bl in Hb. subst b.
      cbn [app inner_loop length] in *. rewrite inner_cond_app.
      unfold inner_body. rewrite at_index_app, at_index_app_next. cbn.
      replace (pre ++ DLE :: DLE :: stuff p ++ DLE :: ETX :: tail)
        with ((pre ++ [DLE; DLE]) ++ stuff p ++ DLE :: ETX :: tail)
        by (by rewrite <- app_assoc).
      replace (length pre + 2) with (length (pre ++ [DLE; DLE]))
        by (rewrite length_app; simpl; lia).
      rewrite IH by lia. rewrite length_app, <- app_assoc. simpl.
      f_equal. lia.
    + cbn [app inner_loop length] in *.
      rewrite inner_cond_app_mid. unfold inner_body.
      rewrite at_index_app, Hb.
      replace (pre ++ b :: stuff p ++ DLE :: ETX :: tail)
        with ((pre ++ [b]) ++ stuff p ++ DLE :: ETX :: tail)
        by (by rewrite <- app_assoc).
      replace (length pre + 1) with (length (pre ++ [b]))
        by (rewrite length_app; simpl; lia).
      rewrite IH by lia. rewrite length_app, <- app_assoc. simpl.
      f_equal. lia.
Qed.

(** The inner loop never runs out of the fuel the outer loop gives it, and
    a [break] leaves [i] beyond the start marker and within the buffer. *)
Lemma inner_loop_fuel (fuel : nat) (buffer : list byte) (j : nat) (fd : list byte) :
  length buffer - 1 - j < fuel →
  inner_loop fuel buffer j fd = Exhausted ∨
  ∃ i' fd', inner_loop fuel buffer j fd = Break i' fd'
            ∧ j + 2 ≤ i' ≤ length buffer.
Proof.
  revert j fd. induction fuel as [|fuel IH]; intros j fd Hfuel; [lia|].
  cbn [inner_loop]. destruct (j <? length buffer - 1) eqn:Hj; [|by left].
  apply Nat.ltb_lt in Hj. unfold inner_body.
  repeat match goal with
         | |- context [if ?c then _ else _] => destruct c
         end.
  - right. eexists _, _. split; [done|lia].
  - destruct (IH (j + 2) (fd ++ [DLE])) as [->|(i' & fd' & -> & ?)]; [lia|by left|].
    right. eexists _, _. split; [done|lia].
  - destruct (IH (j + 1) (fd ++ [at_index buffer j])) as [->|(i' & fd' & -> & ?)];
      [lia|by left|].
    right. eexists _, _. split; [done|lia].
  - destruct (IH (j + 1) (fd ++ [at_index buffer j])) as [->|(i' & fd' & -> & ?)];
      [lia|by left|].
    right. eexists _, _. split; [done|lia].
Qed.

Lemma outer_loop_fuel (fuel : nat) (buffer : list byte) (i : nat)
      (frames : list (list byte)) :
  length buffer - i < fuel →
  ∃ r, outer_loop fuel buffer i frames = Some r.
Proof.
  revert i frames. induction fuel as [|fuel IH]; intros i frames Hfuel; [lia|].
  cbn [outer_loop]. destruct (i <? length buffer - 1) eqn:Hi; [|by eexists].
  apply Nat.ltb_lt in Hi.
  destruct (Byte.eqb (at_index buffer i) DLE && Byte.eqb (at_index buffer (i + 1)) STX).
  - destruct (inner_loop_fuel (S (length buffer)) buffer (i + 2) [])
      as [->|(i' & fd' & -> & ?)]; [lia|by eexists|].
    apply IH. lia.
  - apply IH. lia.
Qed.

(** [extract_frames] returns on every buffer. *)
Lemma extract_frames_total (buffer : list byte) :
  extract_frames_fuel buffer = Some (extract_frames buffer).
Proof.
  unfold extract_frames.
  destruct (outer_loop_fuel (S (length buffer)) buffer 0 []) as [r Hr]; [lia|].
  unfold extract_frames_fuel. by rewrite Hr.
Qed.

(** With the index on a start marker, one round of the outer loop reads the
    whole encoded frame and goes on behind it. *)
Lemma outer_loop_frame (fuel : nat) (pre p rest : list byte)
      (frames : list (list byte)) :
  outer_loop (S fuel) (pre ++ encode_frame p ++ rest) (length pre) frames
  = outer_loop fuel (pre ++ encode_frame p ++ rest)
               (length pre + length (encode_frame p)) (frames ++ [p]).
Proof.
  unfold encode_frame. cbn [outer_loop app]. rewrite <- !app_assoc. cbn [app].
  rewrite inner_cond_app, at_index_app, at_index_app_next.
  change (Byte.eqb DLE DLE && Byte.eqb STX STX) with true. cbv iota.
  pose proof (inner_loop_stuffed p (pre ++ [DLE; STX]) rest []) as Hinner.
  rewrite <- app_assoc, length_app in Hinner. cbn [app length] in Hinner.
  rewrite Hinner.
  - unfold unstuff_data. cbn [app length]. rewrite length_app. cbn [length].
    f_equal. lia.
  - rewrite !length_app. cbn [length]. rewrite length_app. lia.
Qed.

(** At the last byte, or behind it, the outer loop ends with an empty
    remainder. *)
Lemma outer_loop_end (fuel : nat) (buffer : list byte) (i : nat)
      (frames : list (list byte)) :
  length buffer - 1 ≤ i →
  outer_loop (S fuel) buffer i frames = Some (frames, []).
Proof.
  intros Hi. cbn [outer_loop].
  by replace (i <? length buffer - 1) with false by (symmetry; by apply Nat.ltb_ge).
Qed.

(** C4. Stuffing round trip: a payload with its escape bytes doubled,
    between the start marker [DLE STX] and the end marker [DLE ETX], decodes
    to exactly that payload as the single frame, and nothing remains. *)
Theorem C4_stuffing_round_trip (p : list byte) :
  extract_frames (encode_frame p) = ([p], []).
Proof.
  pose proof (extract_frames_total (encode_frame p)) as Htotal.
  enough (extract_frames_fuel (encode_frame p) = Some ([p], [])) by congruence.
  clear Htotal. unfold extract_frames_fuel.
  pose proof (outer_loop_frame (length (encode_frame p)) [] p [] []) as Hframe.
  rewrite app_nil_r in Hframe. cbn [app length Nat.add] in Hframe.
  rewrite Hframe.
  assert (Hlen : ∃ n, length (encode_frame p) = S n)
    by (unfold encode_frame; cbn [length]; eauto).
  destruct Hlen as [n Hn]. rewrite Hn at 1.
  apply outer_loop_end. lia.
Qed.

(** C3, as the code has it: when the escape byte inside a started frame is
    followed by a byte that is neither [ETX] nor [DLE], the iteration copies
    the escape byte itself into the payload and consumes that one byte; the
    following byte is copied by the next iteration, provided it is not the
    last byte of the buffer. *)
Theorem C3_lone_escape_copied_itself (fuel : nat) (buffer : list byte) (j : nat)
        (fd : list byte) :
  j < length buffer - 1 →
  at_index buffer j = DLE →
  at_index buffer (j + 1) ≠ ETX →
  at_index buffer (j + 1) ≠ DLE →
  inner_body buffer j fd = Next (j + 1) (fd ++ [DLE])
  ∧ inner_loop (S fuel) buffer j fd = inner_loop fuel buffer (j + 1) (fd ++ [DLE])
  ∧ (j + 1 < length buffer - 1 →
     inner_loop (S (S fuel)) buffer j fd
     = inner_loop fuel buffer (j + 2) (fd ++ [DLE; at_index buffer (j + 1)])).
Proof.
  intros Hj Hdle Hetx Hnot.
  assert (Hbody : inner_body buffer j fd = Next (j + 1) (fd ++ [DLE])).
  { unfold inner_body. rewrite Hdle.
    change (Byte.eqb DLE DLE) with true. cbv iota.
    destruct (Byte.eqb (at_index buffer (j + 1)) ETX) eqn:E1;
      [by apply Byte.byte_dec_bl in E1|].
    destruct (Byte.eqb (at_index buffer (j + 1)) DLE) eqn:E2;
      [by apply Byte.byte_dec_bl in E2|].
    done. }
  assert (Hstep : ∀ f, inner_loop (S f) buffer j fd
                       = inner_loop f buffer (j + 1) (fd ++ [DLE])).
  { intros f. cbn [inner_loop].
    replace (j <? length buffer - 1) with true by (symmetry; by apply Nat.ltb_lt).
    by rewrite Hbody. }
  split; [done|]. split; [done|].
  intros Hj'. rewrite Hstep. cbn [inner_loop].
  replace (j + 1 <? length buffer - 1) with true by (symmetry; by apply Nat.ltb_lt).
  unfold inner_body.
  destruct (Byte.eqb (at_index buffer (j + 1)) DLE) eqn:E2;
    [by apply Byte.byte_dec_bl in E2|].
  rewrite <- app_assoc. cbn [app].
  by replace (j + 1 + 1) with (j + 2) by lia.
Qed.

Lemma C3_lone_escape_copied_itself_witness :
  let buffer := [x10; x02; x10; x41; x10; x03] in
  inner_body buffer 2 [] = Next 3 [DLE]
  ∧ inner_loop 7 buffer 2 [] = inner_loop 6 buffer 3 [DLE]
  ∧ (3 < length buffer - 1 →
     inner_loop 8 buffer 2 [] = inner_loop 6 buffer 4 [DLE; x41]).
Proof.
  apply (C3_lone_escape_copied_itself 6 [x10; x02; x10; x41; x10; x03] 2 []).
  - simpl. lia.
  - reflexivity.
  - discriminate.
  - discriminate.
Defined.

(** C3, as the specification states it, fails: in the frame
    [10 02 10 41 10 03] the escape byte at index 2 is followed by [41]; the
    iteration appends the escape byte, not [41], and moves past it, and the
    frame delivered is [10 41]. *)
Lemma C3_following_byte_not_copied :
  let buffer := [x10; x02; x10; x41; x10; x03] in
  at_index buffer 2 = DLE
  ∧ at_index buffer 3 = x41 ∧ x41 ≠ ETX ∧ x41 ≠ DLE
  ∧ inner_body buffer 2 [] = Next 3 [DLE]
  ∧ (∀ j', inner_body buffer 2 [] ≠ Next j' [x41])
  ∧ extract_frames buffer = ([[x10; x41]], []).
Proof. cbv zeta. repeat split; try reflexivity; try discriminate. Qed.

(** A frame still unfinished when the buffer ends: the inner loop falls
    through to its [else] clause. [q] is what has arrived of the stuffed
    payload and of the first byte of the end marker. *)
Lemma inner_loop_unfinished (p q k pre fd : list byte) (fuel : nat) :
  q ++ k = stuff p ++ [DLE] →
  length q < fuel →
  inner_loop fuel (pre ++ q) (length pre) fd = Exhausted.
Proof.
  revert q pre fd fuel.
  assert (Hshort : ∀ (pre q fd : list byte) (fuel : nat),
             length q ≤ 1 → 0 < fuel →
             inner_loop fuel (pre ++ q) (length pre) fd = Exhausted).
  { intros pre q fd [|fuel] Hq Hfuel; [lia|]. cbn [inner_loop].
    replace (length pre <? length (pre ++ q) - 1) with false; [done|].
    symmetry. apply Nat.ltb_ge. rewrite length_app. lia. }
  induction p as [|b p IH]; intros q pre fd fuel Hq Hfuel.
  - apply Hshort; [|lia]. apply (f_equal length) in Hq.
    rewrite length_app in Hq. cbn in Hq. lia.
  - revert Hq. cbn [stuff]. destruct (Byte.eqb b DLE) eqn:Hb; intros Hq.
    + apply Byte.byte_dec_bl in Hb. subst b.
      destruct q as [|x [|y q]]; [apply Hshort; cbn; lia..|].
      cbn [app] in Hq. injection Hq as -> -> Hq.
      destruct fuel as [|fuel]; [cbn in Hfuel; lia|].
      cbn [inner_loop]. rewrite inner_cond_app. unfold inner_body.
      rewrite at_index_app, at_index_app_next. cbn.
      replace (pre ++ DLE :: DLE :: q) with ((pre ++ [DLE; DLE]) ++ q)
        by (by rewrite <- app_assoc).
      replace (length pre + 2) with (length (pre ++ [DLE; DLE]))
        by (rewrite length_app; simpl; lia).
      apply IH; [done|]. cbn in Hfuel. lia.
    + destruct q as [|x [|y q]]; [apply Hshort; cbn; lia..|].
      cbn [app] in Hq. injection Hq as -> Hq.
      destruct fuel as [|fuel]; [cbn in Hfuel; lia|].
      cbn [inner_loop]. rewrite inner_cond_app. unfold inner_body.
      rewrite at_index_app, Hb.
      replace (pre ++ b :: y :: q) with ((pre ++ [b]) ++ y :: q)
        by (by rewrite <- app_assoc).
      replace (length pre + 1) with (length (pre ++ [b]))
        by (rewrite length_app; simpl; lia).
      apply IH; [done|]. cbn in Hfuel |- *. lia.
Qed.

(** The stream of the frames [ps], one encoded frame after the other. *)
Lemma length_encode_frame (p : list byte) :
  length (encode_frame p) = length (stuff p) + 4.
Proof. unfold encode_frame. cbn. rewrite length_app. cbn. lia. Qed.

Lemma stream_cons (p : list byte) (ps : list (list byte)) :
  stream (p :: ps) = encode_frame p ++ stream ps.
Proof. done. Qed.

Lemma stream_app (ps1 ps2 : list (list byte)) :
  stream (ps1 ++ ps2) = stream ps1 ++ stream ps2.
Proof. unfold stream. by rewrite map_app, concat_app. Qed.

(** The outer loop reads a run of encoded frames one by one. *)
Lemma outer_loop_frames (ps : list (list byte)) :
  ∀ (fuel : nat) (pre rest : list byte) (frames : list (list byte)),
    outer_loop (length ps + fuel) (pre ++ stream ps ++ rest) (length pre) frames
    = outer_loop fuel (pre ++ stream ps ++ rest)
                 (length pre + length (stream ps)) (frames ++ ps).
Proof.
  induction ps as [|p ps IH]; intros fuel pre rest frames.
  - cbn. by rewrite Nat.add_0_r, app_nil_r.
  - rewrite stream_cons. cbn [length Nat.add]. rewrite <- app_assoc.
    rewrite outer_loop_frame.
    replace (pre ++ encode_frame p ++ stream ps ++ rest)
      with ((pre ++ encode_frame p) ++ stream ps ++ rest)
      by (by rewrite <- app_assoc).
    rewrite <- length_app, IH. rewrite !length_app, <- app_assoc. cbn [app].
    f_equal; [lia|by rewrite <- app_assoc].
Qed.

Lemma length_stream (ps : list (list byte)) : length ps ≤ length (stream ps).
Proof.
  induction ps as [|p ps IH]; [done|].
  rewrite stream_cons. cbn [length]. rewrite length_app, length_encode_frame. lia.
Qed.

(** One call on a run of frames followed by what has arrived of the next
    frame [p]: the frames of the run, and as remainder the part of [p] when
    it is longer than the lone escape byte. *)
Lemma extract_frames_run (ps : list (list byte)) (p part rest : list byte) :
  part ++ rest = encode_frame p → rest ≠ [] → length part ≠ 1 →
  extract_frames (stream ps ++ part) = (ps, part).
Proof.
  intros Hp Hrest Hpart.
  pose proof (extract_frames_total (stream ps ++ part)) as Htotal.
  enough (extract_frames_fuel (stream ps ++ part) = Some (ps, part)) by congruence.
  clear Htotal. unfold extract_frames_fuel.
  pose proof (length_stream ps) as Hlen.
  replace (S (length (stream ps ++ part)))
    with (length ps + S (length (stream ps ++ part) - length ps))
    by (rewrite length_app; lia).
  pose proof (outer_loop_frames ps (S (length (stream ps ++ part) - length ps))
                [] part []) as Hrun.
  cbn [app length Nat.add] in Hrun. rewrite Hrun. clear Hrun.
  destruct part as [|x [|y q]]; [|done|].
  - rewrite app_nil_r. apply outer_loop_end. lia.
  - unfold encode_frame in Hp. cbn [app] in Hp. injection Hp as -> -> Hq.
    destruct (exists_last Hrest) as (rest' & z & ->).
    change [DLE; ETX] with ([DLE] ++ [ETX]) in Hq.
    rewrite !app_assoc in Hq. apply app_inj_tail in Hq as [Hq _].
    cbn [outer_loop]. rewrite inner_cond_app, at_index_app, at_index_app_next.
    change (Byte.eqb DLE DLE && Byte.eqb STX STX) with true. cbv iota.
    replace (stream ps ++ DLE :: STX :: q) with ((stream ps ++ [DLE; STX]) ++ q)
      by (by rewrite <- app_assoc).
    replace (length (stream ps) + 2) with (length (stream ps ++ [DLE; STX]))
      by (rewrite length_app; simpl; lia).
    rewrite (inner_loop_unfinished p q rest') by (rewrite ?length_app; cbn; lia || done).
    rewrite <- app_assoc. cbn [app]. by rewrite drop_app_length.
Qed.

(** One call on a whole stream. *)
Lemma extract_frames_stream (ps : list (list byte)) :
  extract_frames (stream ps) = (ps, []).
Proof.
  pose proof (extract_frames_run ps [] [] (encode_frame [])) as Hrun.
  rewrite app_nil_r in Hrun. by apply Hrun.
Qed.

(** Partial-buffer equivalence where it holds: a valid stream read in two
    parts decodes to the frames of the stream, wherever the split falls,
    except one byte behind a frame boundary (the split that leaves the lone
    escape byte of a start marker at the end of the first part). The split
    is given by the frame [p] it falls into and the part of [p] already
    read. *)
Theorem extract_two_reads_off_marker (ps1 ps2 : list (list byte))
        (p part rest : list byte) :
  part ++ rest = encode_frame p →
  length part ≠ 1 →
  extract_two_reads (stream ps1 ++ part ++ rest ++ stream ps2)
                    (length (stream ps1 ++ part))
  = (ps1 ++ p :: ps2, [])
  ∧ extract_frames (stream ps1 ++ part ++ rest ++ stream ps2)
    = (ps1 ++ p :: ps2, []).
Proof.
  intros Hp Hpart.
  assert (Hwhole : stream ps1 ++ part ++ rest ++ stream ps2
                   = stream (ps1 ++ p :: ps2)).
  { by rewrite stream_app, stream_cons, <- Hp, <- !app_assoc. }
  split; [|by rewrite Hwhole, extract_frames_stream].
  unfold extract_two_reads.
  replace (stream ps1 ++ part ++ rest ++ stream ps2)
    with ((stream ps1 ++ part) ++ rest ++ stream ps2)
    by (by rewrite <- app_assoc).
  rewrite take_app_length, drop_app_length.
  destruct rest as [|r rest].
  - rewrite app_nil_r in Hp. subst part.
    replace (stream ps1 ++ encode_frame p) with (stream (ps1 ++ [p]))
      by (rewrite stream_app, stream_cons; cbn; by rewrite app_nil_r).
    rewrite extract_frames_stream. cbn [app].
    rewrite extract_frames_stream. by rewrite <- app_assoc.
  - rewrite (extract_frames_run ps1 p part (r :: rest)) by done.
    replace (part ++ (r :: rest) ++ stream ps2) with (stream (p :: ps2))
      by (by rewrite stream_cons, <- Hp, <- app_assoc).
    by rewrite extract_frames_stream.
Qed.

(** Where a split offset falls: behind the stream, or into a frame [p] of
    which [part] lies before the offset and a non-empty [rest] behind. *)
Lemma split_offset (ps : list (list byte)) (k : nat) :
  length (stream ps) ≤ k
  ∨ ∃ ps1 p ps2 part rest,
      ps = ps1 ++ p :: ps2 ∧ part ++ rest = encode_frame p ∧ rest ≠ []
      ∧ k = length (stream ps1 ++ part).
Proof.
  revert k. induction ps as [|p ps IH]; intros k; [left; cbn; lia|].
  destruct (decide (k < length (encode_frame p))) as [Hk|Hk].
  - right. exists [], p, ps, (take k (encode_frame p)), (drop k (encode_frame p)).
    split; [done|]. split; [apply take_drop|]. split.
    + intros Hnil.
      assert (Hzero : length (drop k (encode_frame p)) = 0) by (by rewrite Hnil).
      rewrite length_drop in Hzero. lia.
    + cbn [stream map concat app]. rewrite length_take. lia.
  - destruct (IH (k - length (encode_frame p)))
      as [Hend|(ps1 & p' & ps2 & part & rest & -> & Hp & Hrest & Hk')].
    + left. rewrite stream_cons, length_app. lia.
    + right. exists (p :: ps1), p', ps2, part, rest.
      split; [done|]. split; [done|]. split; [done|].
      rewrite stream_cons, <- app_assoc, length_app. lia.
Qed.

(** Partial-buffer equivalence, by split offset: two calls give the frames
    of one call for every split offset [k] of a valid stream that is not
    one byte behind the start of a frame. *)
Theorem extract_two_reads_equivalence (ps : list (list byte)) (k : nat) :
  (∀ m, m < length ps → k ≠ length (stream (take m ps)) + 1) →
  extract_two_reads (stream ps) k = extract_frames (stream ps).
Proof.
  intros Hk. rewrite extract_frames_stream.
  destruct (split_offset ps k)
    as [Hend|(ps1 & p & ps2 & part & rest & -> & Hp & Hrest & ->)].
  - unfold extract_two_reads.
    rewrite take_ge, drop_ge by done. rewrite extract_frames_stream.
    cbn [app]. change (extract_frames []) with (@nil (list byte), @nil byte).
    cbv beta iota. by rewrite app_nil_r.
  - assert (Hpart : length part ≠ 1).
    { intros Hone. apply (Hk (length ps1)).
      - rewrite length_app. cbn. lia.
      - rewrite take_app_length, length_app. lia. }
    destruct (extract_two_reads_off_marker ps1 ps2 p part rest Hp Hpart)
      as [Htwo _].
    rewrite stream_app, stream_cons, <- Hp, <- app_assoc. exact Htwo.
Qed.

(** C1 fails on the code: the valid stream [10 02 41 10 03] holds the frame
    [41]; read in two parts split after its first byte, the first call sees
    the lone escape byte, leaves the loop without looking at it and returns
    an empty remainder, and the second call finds no start marker: the frame
    is lost. The same happens between two frames. *)
Theorem C1_lone_escape_at_split_is_dropped :
  let s := encode_frame [x41] in
  let t := encode_frame [x41] ++ encode_frame [x42] in
  s = [x10; x02; x41; x10; x03]
  ∧ extract_frames s = ([[x41]], [])
  ∧ extract_frames (take 1 s) = ([], [])
  ∧ extract_two_reads s 1 = ([], [])
  ∧ extract_frames t = ([[x41]; [x42]], [])
  ∧ extract_frames (take 6 t) = ([[x41]], [])
  ∧ extract_two_reads t 6 = ([[x41]], []).
Proof. cbv zeta. repeat split; reflexivity. Qed.

End CodecFacts.

(** ** The filter engine *)

Section FilterFacts.
Import DataProcessor.
Context `{PyFloat} {W : Type}.

(** [_passes_filters] is the first-failing-check rule of the specification,
    on every record whose altitude is absent, [null] or a number other
    than [nan]. *)
Lemma passes_filters_spec (flt : filters) (st : stats) (a : aircraft) :
  altitude_numeric a → altitude_ordered a →
  _passes_filters flt st a
  = (spec_count_rejection (spec_first_failing_check flt a) st,
     Ok (spec_passes_all_checks flt a)).
Proof.
  intros Hnum Hord. unfold altitude_numeric, altitude_ordered in *.
  unfold _passes_filters, spec_passes_all_checks, spec_first_failing_check,
    spec_check_holds, spec_altitude_present, below_min, above_max,
    Py.lt, Py.gt, Py.ge, Py.le.
  cbn [List.find].
  destruct (Py.is_None (Py.get a "lat")); [done|].
  destruct (Py.is_None (Py.get a "lon")); [done|].
  cbn [negb andb orb].
  destruct (Py.truthy (Py.get_default a "is_on_ground" (PBool false))); [done|].
  cbn [negb].
  destruct (Py.get a "altitude") as [|b|q| |[]|s] eqn:Halt;
    [done| | |done| | |by destruct (Hnum s)];
    cbn [Py.is_None Py.as_number negb];
    destruct (min_altitude flt) as [m|], (max_altitude flt) as [M|];
    repeat match goal with
           | |- context [Qle_bool ?x ?y] => destruct (Qle_bool x y)
           end; done.
Qed.

Lemma filter_loop_spec (flt : filters) (l : list aircraft) (st : stats)
      (acc : list aircraft) :
  Forall altitude_numeric l → Forall altitude_ordered l →
  filter_loop flt st l acc
  = (spec_count_rejections flt l st,
     Ok (acc ++ List.filter (spec_passes_all_checks flt) l)).
Proof.
  intros Hl. revert st acc.
  induction Hl as [|a l Ha Hl IH]; intros st acc Hord.
  - cbn. by rewrite app_nil_r.
  - apply Forall_cons in Hord as [Ho Hord].
    cbn [filter_loop]. rewrite passes_filters_spec by done.
    unfold spec_count_rejections. cbn [fold_left List.filter].
    destruct (spec_passes_all_checks flt a); rewrite IH; [|done..].
    by rewrite <- app_assoc.
Qed.

(** The outcome of [_passes_filters] does not depend on the statistics. *)
Lemma passes_filters_outcome (flt : filters) (st st' : stats) (a : aircraft) :
  (_passes_filters flt st a).2 = (_passes_filters flt st' a).2.
Proof.
  unfold _passes_filters.
  repeat match goal with
         | |- context [if ?c then _ else _] => destruct c
         | |- context [match ?c with Ok _ => _ | Raise _ => _ end] => destruct c
         end; done.
Qed.

(** [_passes_filters] raises on no record whose altitude is not a string. *)
Lemma passes_filters_returns (flt : filters) (st : stats) (a : aircraft) :
  altitude_numeric a → ∃ b, (_passes_filters flt st a).2 = Ok b.
Proof.
  intros Hnum. unfold altitude_numeric in Hnum.
  unfold _passes_filters, below_min, above_max, Py.lt, Py.gt.
  destruct (_ || _); [by eexists|].
  destruct (Py.truthy _); [by eexists|].
  destruct (Py.get a "altitude") as [|b|q| |[]|s] eqn:Halt;
    [by eexists| | | | | |by destruct (Hnum s)];
    cbn [Py.is_None Py.as_number];
    destruct (min_altitude flt) as [m|], (max_altitude flt) as [M|];
    repeat match goal with
           | |- context [Qle_bool ?x ?y] => destruct (Qle_bool x y)
           end; by eexists.
Qed.

(** The filter loop over records none of whose altitudes is a string
    returns: the records it adds are those of the batch, in batch order,
    for which [_passes_filters] returns [True]. *)
Lemma filter_loop_returns (flt : filters) (l : list aircraft) (st : stats)
      (acc : list aircraft) :
  Forall altitude_numeric l →
  ∃ st',
    filter_loop flt st l acc
    = (st', Ok (acc ++ List.filter
                         (λ a, returned_true (_passes_filters flt st a).2) l)).
Proof.
  intros Hl. revert st acc.
  induction Hl as [|a l Ha Hl IH]; intros st acc.
  - cbn. rewrite app_nil_r. by eexists.
  - cbn [filter_loop List.filter].
    destruct (passes_filters_returns flt st a Ha) as [b Hb].
    destruct (_passes_filters flt st a) as [st1 r] eqn:Hpass.
    cbn [snd] in Hb. subst r.
    assert (Hext : List.filter
                     (λ a0, returned_true (_passes_filters flt st a0).2) l
                   = List.filter
                       (λ a0, returned_true (_passes_filters flt st1 a0).2) l).
    { apply List.filter_ext. intros a0.
      by rewrite (passes_filters_outcome flt st st1 a0). }
    rewrite Hext.
    destruct b; cbn [returned_true].
    + destruct (IH st1 (acc ++ [a])) as [st' ->]. exists st'.
      by rewrite <- app_assoc.
    + destruct (IH st1 acc) as [st' ->]. by exists st'.
Qed.

Lemma counters_le_refl (st : stats) : counters_le st st.
Proof. unfold counters_le. lia. Qed.

Lemma counters_le_trans (st1 st2 st3 : stats) :
  counters_le st1 st2 → counters_le st2 st3 → counters_le st1 st3.
Proof. unfold counters_le. lia. Qed.

Lemma passes_filters_rejections_only (flt : filters) (st : stats) (a : aircraft) :
  rejections_only st (_passes_filters flt st a).1.
Proof.
  unfold _passes_filters, rejections_only.
  repeat match goal with
         | |- context [if ?c then _ else _] => destruct c
         | |- context [match ?c with Ok _ => _ | Raise _ => _ end] => destruct c
         end; cbn; repeat split; try done; lia.
Qed.

Lemma filter_loop_rejections_only (flt : filters) (l : list aircraft) (st : stats)
      (acc : list aircraft) :
  rejections_only st (filter_loop flt st l acc).1.
Proof.
  revert st acc. induction l as [|a l IH]; intros st acc.
  - cbn. unfold rejections_only. repeat split; try done; lia.
  - cbn [filter_loop].
    pose proof (passes_filters_rejections_only flt st a) as Ha.
    destruct (_passes_filters flt st a) as [st' [[]|e]]; cbn [fst] in Ha.
    + specialize (IH st' (acc ++ [a])). unfold rejections_only in *.
      intuition (try congruence; try lia).
    + specialize (IH st' acc). unfold rejections_only in *.
      intuition (try congruence; try lia).
    + done.
Qed.

Lemma is_None_true (v : pyval) : Py.is_None v = true ↔ v = PNone.
Proof. by destruct v. Qed.

Lemma is_None_false (v : pyval) : Py.is_None v = false ↔ v ≠ PNone.
Proof. by destruct v. Qed.

(** What [process_aircraft_data] does with a batch of records none of whose
    altitudes is a string: it returns, and notifies the consumers of the
    records for which [_passes_filters] returned [True]. *)
Lemma process_aircraft_data_returns (self : processor)
      (items : list (string * aircraft)) (w : W) :
  Forall altitude_numeric (map snd items) →
  let accepted :=
    List.filter (λ a, returned_true
                        (_passes_filters (proc_filters self) (proc_stats self) a).2)
                (map snd items) in
  ∃ st3,
    filter_loop (proc_filters self)
                (add_total (Z.of_nat (length (map snd items)))
                           (incr_payloads (proc_stats self)))
                (map snd items) []
    = (st3, Ok accepted)
    ∧ let st := recompute_pass_rate
                  (add_filtered (Z.of_nat (length accepted)) st3) in
      process_aircraft_data self (Mapping items) w
      = match accepted, callbacks self with
        | _ :: _, _ :: _ =>
            (with_stats self st, (notify (callbacks self) 0 accepted w).1,
             (notify (callbacks self) 0 accepted w).2, Ok accepted)
        | _, _ => (with_stats self st, w, [], Ok accepted)
        end.
Proof.
  intros Hnum. cbv zeta. unfold process_aircraft_data.
  destruct (filter_loop_returns (proc_filters self) (map snd items)
              (add_total (Z.of_nat (length (map snd items)))
                         (incr_payloads (proc_stats self))) [] Hnum)
    as [st3 Hloop].
  cbn [app] in Hloop.
  rewrite (List.filter_ext _
             (λ a, returned_true
                     (_passes_filters (proc_filters self) (proc_stats self) a).2))
    in Hloop
    by (intros a; by rewrite (passes_filters_outcome _ _ (proc_stats self) a)).
  exists st3. split; [done|]. rewrite Hloop.
  destruct (List.filter _ _) as [|a l]; [done|].
  destruct (callbacks self) as [|cb cbs]; [done|].
  by destruct (notify (cb :: cbs) 0 (a :: l) w).
Qed.

(** The same in the words of the specification, for a batch of records
    whose altitudes are absent, [null] or numbers other than [nan]: the
    statistics, the accepted list, the notifications. *)
Lemma process_aircraft_data_spec (self : processor) (items : list (string * aircraft))
      (w : W) :
  Forall altitude_numeric (map snd items) →
  Forall altitude_ordered (map snd items) →
  let flt := proc_filters self in
  let accepted := List.filter (spec_passes_all_checks flt) (map snd items) in
  let st :=
    recompute_pass_rate
      (add_filtered (Z.of_nat (length accepted))
         (spec_count_rejections flt (map snd items)
            (add_total (Z.of_nat (length (map snd items)))
               (incr_payloads (proc_stats self))))) in
  process_aircraft_data self (Mapping items) w
  = match accepted, callbacks self with
    | _ :: _, _ :: _ =>
        (with_stats self st, (notify (callbacks self) 0 accepted w).1,
         (notify (callbacks self) 0 accepted w).2, Ok accepted)
    | _, _ => (with_stats self st, w, [], Ok accepted)
    end.
Proof.
  intros Hnum Hord. cbv zeta. unfold process_aircraft_data.
  rewrite filter_loop_spec by done. cbn [app].
  destruct (List.filter _ _) as [|a l]; [done|].
  destruct (callbacks self) as [|cb cbs]; [done|].
  by destruct (notify (cb :: cbs) 0 (a :: l) w).
Qed.

(** Whatever [_passes_filters] raises is the [TypeError] of a comparison. *)
Lemma passes_filters_raises (flt : filters) (st : stats) (a : aircraft)
      (e : exception) :
  (_passes_filters flt st a).2 = Raise e →
  e = TypeError ∧ (_passes_filters flt st a).1 = st.
Proof.
  unfold _passes_filters, below_min, above_max, Py.lt, Py.gt.
  destruct (_ || _); [done|]. destruct (Py.truthy _); [done|].
  destruct (Py.is_None _); [done|].
  destruct (Py.get a "altitude") as [|b|q| |[]|s];
    destruct (min_altitude flt) as [m|], (max_altitude flt) as [M|];
    cbn [Py.as_number negb];
    repeat match goal with
           | |- context [Qle_bool ?x ?y] => destruct (Qle_bool x y)
           end; cbn; intros [= <-]; done.
Qed.

(** A batch holding a record on which [_passes_filters] raises is lost:
    the filter loop raises [TypeError], at that record or before it. *)
Lemma filter_loop_raises (flt : filters) (l : list aircraft) (a : aircraft)
      (st : stats) (acc : list aircraft) :
  a ∈ l → (_passes_filters flt st a).2 = Raise TypeError →
  (filter_loop flt st l acc).2 = Raise TypeError.
Proof.
  intros Hin. revert st acc.
  induction l as [|a0 l IH]; intros st acc Hraise; [by inversion Hin|].
  cbn [filter_loop].
  destruct (_passes_filters flt st a0) as [st1 [b|e]] eqn:Hpass.
  - assert (Hin' : a ∈ l).
    { apply elem_of_cons in Hin as [->|Hin]; [|done].
      rewrite Hpass in Hraise. done. }
    rewrite (passes_filters_outcome flt st st1 a) in Hraise.
    destruct b; by apply IH.
  - pose proof (passes_filters_raises flt st a0 e) as Hex.
    rewrite Hpass in Hex. by destruct Hex as [-> _].
Qed.

(** C5. Filter determinism, as the code has it. On every record whose
    altitude is absent, [null] or a number other than [nan],
    [_passes_filters] evaluates the five checks in the order of the
    specification and rejects at the first failing one. A record missing a
    coordinate is rejected whatever its other fields hold and moves no
    counter; a record rejected for its on-ground flag adds one to the
    ground-filtered counter; a record rejected for an altitude below the
    configured minimum adds one to the low-altitude counter. A [nan]
    altitude gets through checks (4) and (5) although it is neither at
    least the minimum nor at most the maximum; a string altitude makes the
    check raise [TypeError] when a threshold is configured, and the batch
    that holds such a record has no accepted output. A batch none of whose
    altitudes is a string returns as accepted output the records for which
    [_passes_filters] returned [True]; these are the records passing all
    five checks when no altitude is [nan]. *)
Theorem C5_filter_determinism (flt : filters) (st : stats) (a : aircraft) :
  let coordinates_present := Py.get a "lat" ≠ PNone ∧ Py.get a "lon" ≠ PNone in
  let on_ground :=
    Py.truthy (Py.get_default a "is_on_ground" (PBool false)) = true in
  let threshold_configured :=
    is_Some (min_altitude flt) ∨ is_Some (max_altitude flt) in
  (altitude_numeric a → altitude_ordered a →
   _passes_filters flt st a
   = (spec_count_rejection (spec_first_failing_check flt a) st,
      Ok (spec_passes_all_checks flt a)))
  ∧ (Py.get a "lat" = PNone ∨ Py.get a "lon" = PNone →
     _passes_filters flt st a = (st, Ok false))
  ∧ (coordinates_present → on_ground →
     _passes_filters flt st a = (incr_ground st, Ok false)
     ∧ ground_filtered (incr_ground st) = (ground_filtered st + 1)%Z
     ∧ low_altitude_filtered (incr_ground st) = low_altitude_filtered st)
  ∧ (coordinates_present → ¬ on_ground →
     ∀ m, min_altitude flt = Some m →
          (∃ alt, spec_altitude a = Some alt ∧ (alt < inject_Z m)%Q)
          ∨ Py.get a "altitude" = PInf true →
     _passes_filters flt st a = (incr_low_altitude st, Ok false)
     ∧ low_altitude_filtered (incr_low_altitude st)
       = (low_altitude_filtered st + 1)%Z
     ∧ ground_filtered (incr_low_altitude st) = ground_filtered st)
  ∧ (coordinates_present → ¬ on_ground → Py.get a "altitude" = PNaN →
     _passes_filters flt st a = (st, Ok true)
     ∧ (∀ m, min_altitude flt = Some m →
             Py.ge (Py.get a "altitude") m = Ok false
             ∧ spec_check_holds flt a AltitudeAtLeastMinimum = false)
     ∧ (∀ m, max_altitude flt = Some m →
             Py.le (Py.get a "altitude") m = Ok false
             ∧ spec_check_holds flt a AltitudeAtMostMaximum = false))
  ∧ (coordinates_present → ¬ on_ground →
     ∀ s, Py.get a "altitude" = PStr s →
          (threshold_configured →
           _passes_filters flt st a = (st, Raise TypeError)
           ∧ ∀ (self : @processor _ W) (items : list (string * aircraft)) (w : W),
               proc_filters self = flt → a ∈ map snd items →
               ∃ st', process_aircraft_data self (Mapping items) w
                      = (with_stats self st', w, [], Raise TypeError))
          ∧ (¬ threshold_configured →
             _passes_filters flt st a = (st, Ok true)))
  ∧ (∀ (self : @processor _ W) (items : list (string * aircraft)) (w : W),
       proc_filters self = flt →
       Forall altitude_numeric (map snd items) →
       ∃ self' w' events accepted,
         process_aircraft_data self (Mapping items) w
         = (self', w', events, Ok accepted)
         ∧ accepted
           = List.filter (λ r, returned_true (_passes_filters flt st r).2)
                         (map snd items)
         ∧ (Forall altitude_ordered (map snd items) →
            accepted = List.filter (spec_passes_all_checks flt) (map snd items)
            ∧ ∀ r, r ∈ map snd items → spec_passes_all_checks flt r = true →
                   r ∈ accepted)).
Proof.
  cbv zeta. split; [apply passes_filters_spec|].
  split.
  { intros Hmiss. unfold _passes_filters.
    destruct Hmiss as [->| ->]; [done|].
    by rewrite orb_true_r. }
  split.
  { intros [Hlat Hlon] Hground. unfold _passes_filters.
    apply is_None_false in Hlat, Hlon. by rewrite Hlat, Hlon, Hground. }
  split.
  { intros [Hlat Hlon] Hground m Hmin Hbelow.
    assert (Hpresent : Py.get a "altitude" ≠ PNone).
    { intros Hnone. unfold spec_altitude in Hbelow. rewrite Hnone in Hbelow.
      by destruct Hbelow as [(alt & Halt & _)|Hinf]. }
    unfold _passes_filters.
    apply is_None_false in Hlat, Hlon, Hpresent.
    apply not_true_is_false in Hground.
    rewrite Hlat, Hlon, Hground, Hpresent. cbn [orb].
    unfold below_min. rewrite Hmin.
    destruct Hbelow as [(alt & Halt & Hlt)|Hinf].
    - unfold spec_altitude in Halt. unfold Py.lt. rewrite Halt.
      destruct (Py.get a "altitude"); try done.
      all: destruct (Qle_bool (inject_Z m) alt) eqn:Hle; [|done].
      all: apply Qle_bool_iff in Hle; by apply Qle_not_lt in Hle.
    - by rewrite Hinf. }
  split.
  { intros [Hlat Hlon] Hground Hnan.
    unfold _passes_filters, spec_check_holds, below_min, above_max.
    apply is_None_false in Hlat, Hlon. apply not_true_is_false in Hground.
    rewrite Hlat, Hlon, Hground, Hnan. cbn [orb Py.is_None Py.lt Py.gt].
    split; [by destruct (min_altitude flt), (max_altitude flt)|].
    split; intros m ->; done. }
  split.
  { intros [Hlat Hlon] Hground s Hstr.
    assert (Hcall : _passes_filters flt st a
                    = (st, match min_altitude flt, max_altitude flt with
                           | None, None => Ok true
                           | _, _ => Raise TypeError
                           end)).
    { unfold _passes_filters, below_min, above_max.
      apply is_None_false in Hlat, Hlon. apply not_true_is_false in Hground.
      rewrite Hlat, Hlon, Hground, Hstr. cbn [orb Py.is_None Py.lt Py.gt].
      by destruct (min_altitude flt), (max_altitude flt). }
    split.
    - intros Hconf.
      assert (Hraise : ∀ st0, (_passes_filters flt st0 a).2 = Raise TypeError).
      { intros st0. rewrite (passes_filters_outcome flt st0 st a), Hcall.
        destruct Hconf as [[m Hm]|[m Hm]]; rewrite Hm; cbn [snd];
          [done|by destruct (min_altitude flt)]. }
      split.
      { rewrite Hcall. f_equal. specialize (Hraise st).
        by rewrite Hcall in Hraise. }
      intros self items w <- Hin. unfold process_aircraft_data.
      pose proof (filter_loop_raises (proc_filters self) (map snd items) a
                    (add_total (Z.of_nat (length (map snd items)))
                               (incr_payloads (proc_stats self))) [] Hin
                    (Hraise _)) as Hloop.
      destruct (filter_loop _ _ _ _) as [st3 r]. cbn [snd] in Hloop. subst r.
      by exists st3.
    - intros Hconf. rewrite Hcall.
      destruct (min_altitude flt) as [m|] eqn:Hmin;
        [destruct Hconf; left; by eexists|].
      destruct (max_altitude flt) as [M|] eqn:Hmax;
        [destruct Hconf; right; by eexists|done]. }
  intros self items w <- Hnum.
  destruct (process_aircraft_data_returns self items w Hnum) as (st3 & _ & Hcall).
  cbv zeta in Hcall.
  rewrite (List.filter_ext
             (λ r, returned_true (_passes_filters (proc_filters self) st r).2)
             (λ r, returned_true
                     (_passes_filters (proc_filters self) (proc_stats self) r).2))
    by (intros r; by rewrite (passes_filters_outcome _ st (proc_stats self) r)).
  set (accepted := List.filter _ _) in *.
  assert (Hspec : Forall altitude_ordered (map snd items) →
                  accepted = List.filter (spec_passes_all_checks (proc_filters self))
                                         (map snd items)
                  ∧ ∀ r, r ∈ map snd items →
                         spec_passes_all_checks (proc_filters self) r = true →
                         r ∈ accepted).
  { intros Hord.
    assert (Heq : accepted = List.filter (spec_passes_all_checks (proc_filters self))
                                         (map snd items)).
    { unfold accepted. clear -Hnum Hord.
      induction (map snd items) as [|r l IH]; [done|].
      apply Forall_cons in Hnum as [Hr Hnum].
      apply Forall_cons in Hord as [Ho Hord].
      cbn [List.filter]. rewrite passes_filters_spec by done. cbn [snd].
      rewrite IH by done.
      by destruct (spec_passes_all_checks (proc_filters self) r). }
    split; [done|]. intros r Hr Hpass. rewrite Heq.
    apply list_elem_of_In, filter_In. split; [by apply list_elem_of_In|done]. }
  destruct accepted as [|r l]; [by eexists _, _, _, _|].
  destruct (callbacks self); by eexists _, _, _, _.
Qed.

Lemma recompute_pass_rate_counters (st : stats) :
  payloads_processed (recompute_pass_rate st) = payloads_processed st
  ∧ total_aircraft (recompute_pass_rate st) = total_aircraft st
  ∧ filtered_aircraft (recompute_pass_rate st) = filtered_aircraft st
  ∧ ground_filtered (recompute_pass_rate st) = ground_filtered st
  ∧ low_altitude_filtered (recompute_pass_rate st) = low_altitude_filtered st.
Proof. unfold recompute_pass_rate. by destruct (0 <? total_aircraft st)%Z. Qed.

(** No counter decreases in a call of [process_aircraft_data], be the
    batch well formed or not, and whether the call returns or raises. *)
Lemma process_aircraft_data_counters (self : processor) (b : payload) (w : W) :
  counters_le (proc_stats self) (proc_stats (process_aircraft_data self b w).1.1.1).
Proof.
  unfold process_aircraft_data. destruct b as [items|truth].
  - pose proof (filter_loop_rejections_only (proc_filters self) (map snd items)
                  (add_total (Z.of_nat (length (map snd items)))
                             (incr_payloads (proc_stats self))) []) as Hrej.
    destruct (filter_loop _ _ _ _) as [st3 [accepted|e]]; cbn [fst] in Hrej.
    + assert (Hst : counters_le (proc_stats self)
                      (recompute_pass_rate
                         (add_filtered (Z.of_nat (length accepted)) st3))).
      { pose proof (recompute_pass_rate_counters
                      (add_filtered (Z.of_nat (length accepted)) st3)) as Hrec.
        unfold counters_le, rejections_only in *. cbn in *. lia. }
      destruct accepted; [done|]. destruct (callbacks self); [done|].
      by destruct (notify _ _ _ _).
    + unfold counters_le, rejections_only in *. cbn in *. lia.
  - unfold counters_le. cbn. lia.
Qed.

Lemma run_operation_counters (st : processor * W) (op : operation) :
  counters_le (proc_stats st.1) (proc_stats (run_operation st op).1).
Proof.
  destruct st as [self w]. destruct op as [b|f|cb]; cbn [run_operation fst].
  - pose proof (process_aircraft_data_counters self b w) as Hle.
    by destruct (process_aircraft_data self b w) as [[[self' w'] events] r].
  - unfold counters_le. cbn. lia.
  - apply counters_le_refl.
Qed.

Lemma run_operations_counters (ops : list operation) (st : processor * W) :
  counters_le (proc_stats st.1) (proc_stats (run_operations st ops).1).
Proof.
  revert st. induction ops as [|op ops IH]; intros st.
  - apply counters_le_refl.
  - cbn. eapply counters_le_trans; [apply run_operation_counters|apply IH].
Qed.

(** The pass rate stays in step with the counters. *)
Lemma run_operation_rate (st : processor * W) (op : operation) :
  operation_altitudes_numeric op →
  rate_consistent (proc_stats st.1) →
  rate_consistent (proc_stats (run_operation st op).1).
Proof.
  destruct st as [self w]. intros Hnum Hrate.
  destruct op as [[items|truth]|f|cb]; cbn [run_operation fst] in *; try done.
  - cbn in Hnum.
    destruct (process_aircraft_data_returns self items w Hnum)
      as (st3 & Hloop & Hspec).
    cbv zeta in Hspec.
    pose proof (filter_loop_rejections_only (proc_filters self) (map snd items)
                  (add_total (Z.of_nat (length (map snd items)))
                             (incr_payloads (proc_stats self))) []) as Hrej.
    rewrite Hloop in Hrej. cbn [fst] in Hrej.
    set (accepted := List.filter _ _) in *.
    assert (Hst : rate_consistent
                    (recompute_pass_rate
                       (add_filtered (Z.of_nat (length accepted)) st3))).
    { unfold rate_consistent, recompute_pass_rate, rejections_only in *.
      cbn in *. destruct Hrej as (_ & Htot & _ & Hr & _).
      destruct (0 <? total_aircraft st3)%Z eqn:Hpos; cbn; rewrite Hpos; [done|].
      rewrite Hr, Hrate.
      apply Z.ltb_ge in Hpos.
      replace (0 <? total_aircraft (proc_stats self))%Z with false; [done|].
      symmetry. apply Z.ltb_ge. lia. }
    destruct (process_aircraft_data self (Mapping items) w)
      as [[[self' w'] events] r].
    destruct accepted; [by inversion Hspec; subst|].
    destruct (callbacks self); by inversion Hspec; subst.
Qed.

Lemma run_operations_rate (ops : list operation) (st : processor * W) :
  Forall operation_altitudes_numeric ops →
  rate_consistent (proc_stats st.1) →
  rate_consistent (proc_stats (run_operations st ops).1).
Proof.
  intros Hops. revert st. induction Hops as [|op ops Hop Hops IH]; intros st Hrate.
  - done.
  - cbn. apply IH. by apply run_operation_rate.
Qed.

(** While no record has been seen the pass rate is the [0.0] it started
    with; this holds after every operation, also one that raised. *)
Lemma run_operation_zero_rate (st : processor * W) (op : operation) :
  zero_rate (proc_stats st.1) → zero_rate (proc_stats (run_operation st op).1).
Proof.
  destruct st as [self w]. intros [Hnonneg Hzero].
  destruct op as [[items|truth]|f|cb]; cbn [run_operation fst] in *; try done.
  unfold process_aircraft_data.
  pose proof (filter_loop_rejections_only (proc_filters self) (map snd items)
                (add_total (Z.of_nat (length (map snd items)))
                           (incr_payloads (proc_stats self))) []) as Hrej.
  destruct (filter_loop _ _ _ _) as [st3 [accepted|e]]; cbn [fst] in Hrej;
    destruct Hrej as (_ & Htot & _ & Hr & _); cbn in Htot, Hr.
  - assert (Hst : zero_rate (recompute_pass_rate
                               (add_filtered (Z.of_nat (length accepted)) st3))).
    { unfold zero_rate, recompute_pass_rate. cbn.
      destruct (0 <? total_aircraft st3)%Z eqn:Hpos; cbn.
      - apply Z.ltb_lt in Hpos. lia.
      - split; [lia|]. intros Hz. rewrite Hr. apply Hzero. lia. }
    destruct accepted; [done|]. destruct (callbacks self); [done|].
    by destruct (notify _ _ _ _).
  - unfold zero_rate. cbn. split; [lia|]. intros Hz. rewrite Hr. apply Hzero. lia.
Qed.

Lemma run_operations_zero_rate (ops : list operation) (st : processor * W) :
  zero_rate (proc_stats st.1) → zero_rate (proc_stats (run_operations st ops).1).
Proof.
  revert st. induction ops as [|op ops IH]; intros st Hst; [done|].
  cbn. apply IH. by apply run_operation_zero_rate.
Qed.

(** A call of [process_aircraft_data] that returns leaves the pass rate
    computed from the counters it leaves. *)
Lemma process_aircraft_data_rate (self self' : processor) (b : payload) (w w' : W)
      (events : list call_event) (accepted : list aircraft) :
  process_aircraft_data self b w = (self', w', events, Ok accepted) →
  (0 < total_aircraft (proc_stats self'))%Z →
  filter_pass_rate (proc_stats self')
  = pass_rate (filtered_aircraft (proc_stats self'))
              (total_aircraft (proc_stats self')).
Proof.
  unfold process_aircraft_data. destruct b as [items|truth]; [|done].
  destruct (filter_loop _ _ _ _) as [st3 [acc|e]]; [|done].
  assert (Hst : ∀ st, st = recompute_pass_rate
                             (add_filtered (Z.of_nat (length acc)) st3) →
                      (0 < total_aircraft st)%Z →
                      filter_pass_rate st
                      = pass_rate (filtered_aircraft st) (total_aircraft st)).
  { intros st -> Hpos. unfold recompute_pass_rate in *. cbn in *.
    destruct (0 <? total_aircraft st3)%Z eqn:Hlt; cbn in *; [done|].
    apply Z.ltb_ge in Hlt. lia. }
  destruct acc; [intros [= <- _ _ _]; by apply Hst|].
  destruct (callbacks self); [intros [= <- _ _ _]; by apply Hst|].
  destruct (notify _ _ _ _). intros [= <- _ _ _]. by apply Hst.
Qed.

(** The notification loop calls every consumer once, in registration
    order and with the same list, whatever the consumers raise. *)
Lemma notify_spec (cbs : list callback) (idx : nat) (accepted : list aircraft)
      (w : W) :
  (notify cbs idx accepted w).1 = fold_left (λ w cb, (cb accepted w).1) cbs w
  ∧ map callee (notify cbs idx accepted w).2 = seq idx (length cbs)
  ∧ Forall (λ ev, argument ev = accepted) (notify cbs idx accepted w).2
  ∧ ∀ i cb, cbs !! i = Some cb →
      ∃ ev, (notify cbs idx accepted w).2 !! i = Some ev
            ∧ callee ev = idx + i
            ∧ raised ev
              = (cb accepted
                    (fold_left (λ w cb, (cb accepted w).1) (take i cbs) w)).2.
Proof.
  revert idx w. induction cbs as [|cb0 cbs IH]; intros idx w.
  - cbn. repeat split; [constructor|]. intros i cb Hi. by destruct i.
  - cbn [notify fold_left length seq].
    destruct (cb0 accepted w) as [w1 exn] eqn:Hcb.
    specialize (IH (S idx) w1).
    destruct (notify cbs (S idx) accepted w1) as [w2 events].
    cbn [fst snd map] in *. destruct IH as (Hw & Hcal & Harg & Hev).
    repeat split; [done|by f_equal|by constructor|].
    intros [|i] cb Hi; cbn in Hi.
    + inversion Hi; subst cb. eexists. split; [done|].
      cbn. rewrite Hcb. split; [lia|done].
    + destruct (Hev i cb Hi) as (ev & Hlook & Hc & Hr).
      exists ev. cbn. rewrite Hcb. cbn. split; [done|]. split; [lia|done].
Qed.

(** C8. Consumer isolation: when the accepted subset of a batch is not
    empty, every registered consumer is invoked exactly once with it, in
    registration order, also after a consumer that raised, and the call
    returns the accepted subset; when it is empty no consumer is invoked;
    an exception leaves [process_aircraft_data] only before any consumer is
    invoked (it is the filter's), never from a consumer, and none leaves it
    when the altitudes of the records are numbers (the accepted subset is
    then the records passing the five checks, no altitude being [nan]). *)
Theorem C8_consumer_isolation (self self' : processor)
        (items : list (string * aircraft)) (w w' : W) (events : list call_event)
        (r : result (list aircraft)) :
  process_aircraft_data self (Mapping items) w = (self', w', events, r) →
  let cbs := callbacks self in
  (∀ accepted, r = Ok accepted →
     let effect := λ (w : W) (cb : callback), (cb accepted w).1 in
     (accepted ≠ [] →
      map callee events = seq 0 (length cbs)
      ∧ Forall (λ ev, argument ev = accepted) events
      ∧ (∀ i cb, cbs !! i = Some cb →
           ∃ ev, events !! i = Some ev ∧ callee ev = i
                 ∧ raised ev = (cb accepted (fold_left effect (take i cbs) w)).2)
      ∧ w' = fold_left effect cbs w)
     ∧ (accepted = [] → events = [] ∧ w' = w))
  ∧ (∀ e, r = Raise e → events = [] ∧ w' = w)
  ∧ (Forall altitude_numeric (map snd items) →
     ∃ accepted,
       r = Ok accepted
       ∧ (Forall altitude_ordered (map snd items) →
          accepted = List.filter (spec_passes_all_checks (proc_filters self))
                                 (map snd items))).
Proof.
  intros Hcall. cbv zeta. split; [|split].
  - intros accepted ->. revert Hcall. unfold process_aircraft_data.
    destruct (filter_loop _ _ _ _) as [st3 [acc|e]]; [|done].
    destruct acc as [|a l].
    { intros [= <- <- <- <-]. by split. }
    destruct (callbacks self) as [|cb cbs] eqn:Hcbs.
    { intros [= <- <- <- <-]. split; [|done].
      intros _. repeat split; [constructor|]. intros i cb Hi. by destruct i. }
    destruct (notify_spec (cb :: cbs) 0 (a :: l) w) as (Hw & Hcal & Harg & Hev).
    destruct (notify (cb :: cbs) 0 (a :: l) w) as [w2 evs].
    intros [= <- <- <- <-]. split; [|done].
    intros _. repeat split; done.
  - intros e ->. revert Hcall. unfold process_aircraft_data.
    destruct (filter_loop _ _ _ _) as [st3 [acc|e']].
    + destruct acc; [done|]. destruct (callbacks self); [done|].
      by destruct (notify _ _ _ _).
    + by intros [= <- <- <- <-].
  - intros Hnum.
    destruct (process_aircraft_data_returns self items w Hnum)
      as (st3 & _ & Hret).
    cbv zeta in Hret. rewrite Hret in Hcall.
    set (accepted := List.filter _ (map snd items)) in *.
    assert (Hspec : Forall altitude_ordered (map snd items) →
                    accepted
                    = List.filter (spec_passes_all_checks (proc_filters self))
                                  (map snd items)).
    { intros Hord. unfold accepted. clear Hcall Hret accepted.
      induction (map snd items) as [|a l IH]; [done|].
      apply Forall_cons in Hnum as [Ha Hnum].
      apply Forall_cons in Hord as [Ho Hord].
      cbn [List.filter]. rewrite passes_filters_spec by done. cbn [snd].
      rewrite IH by done.
      by destruct (spec_passes_all_checks (proc_filters self) a). }
    exists accepted. split; [|done].
    destruct accepted; [by injection Hcall as <-|].
    destruct (callbacks self); by injection Hcall as <-.
Qed.

End FilterFacts.

(** ** Python equality and dicts *)

Section DictFacts.

Lemma eqb_refl (a : pyval) : Py.eqb a a = true.
Proof.
  destruct a as [|b|q| |negative|s]; cbn; try done.
  - apply Qeq_bool_refl.
  - apply Qeq_bool_refl.
  - by destruct negative.
  - apply String.eqb_refl.
Qed.

Lemma eqb_sym (a b : pyval) : Py.eqb a b = Py.eqb b a.
Proof.
  destruct a as [|x|x| |[]|x], b as [|y|y| |[]|y]; cbn; try done;
    try apply Qeq_bool_comm.
  apply String.eqb_sym.
Qed.

Lemma eqb_trans (a b c : pyval) :
  Py.eqb a b = true → Py.eqb b c = true → Py.eqb a c = true.
Proof.
  destruct a as [|x|x| |[]|x], b as [|y|y| |[]|y], c as [|z|z| |[]|z];
    cbn; try done; try apply Qeq_bool_trans.
  intros Hab Hbc. apply String.eqb_eq in Hab, Hbc. subst.
  apply String.eqb_refl.
Qed.

Lemma eqb_false_l (a b c : pyval) :
  Py.eqb a b = true → Py.eqb b c = false → Py.eqb a c = false.
Proof.
  intros Hab Hbc. destruct (Py.eqb a c) eqn:Hac; [|done].
  rewrite eqb_sym in Hab. by rewrite (eqb_trans b a c) in Hbc.
Qed.

Context {V : Type}.
Implicit Types (d : list (pyval * V)) (k : pyval) (v : V).

Lemma dict_get_None d k :
  Py.dict_get d k = None ↔ Forall (λ kv, Py.eqb kv.1 k = false) d.
Proof.
  induction d as [|[k' v'] d IH]; cbn.
  - split; [constructor|done].
  - destruct (Py.eqb k' k) eqn:Hk.
    + split; [done|]. intros Hall. inversion Hall; subst. cbn in *. congruence.
    + rewrite IH. split; [by constructor|]. intros Hall. by inversion Hall.
Qed.

Lemma dict_get_Some_elem d k v :
  Py.dict_get d k = Some v → ∃ k', (k', v) ∈ d ∧ Py.eqb k' k = true.
Proof.
  induction d as [|[k' v'] d IH]; cbn; [done|].
  destruct (Py.eqb k' k) eqn:Hk.
  - intros [= ->]. exists k'. split; [left|done].
  - intros Hget. destruct (IH Hget) as (k'' & Hin & Heq).
    exists k''. split; [by right|done].
Qed.

(** In a well formed dict the entry found under a key is the only one. *)
Lemma dict_wf_get_elem d k v :
  Py.dict_wf d → (k, v) ∈ d → Py.dict_get d k = Some v.
Proof.
  induction d as [|[k' v'] d IH]; cbn; intros Hwf Hin; [by inversion Hin|].
  destruct Hwf as [Hfresh Hwf].
  apply elem_of_cons in Hin as [[= -> ->]|Hin].
  - by rewrite eqb_refl.
  - destruct (Py.eqb k' k) eqn:Hk; [|by apply IH].
    apply dict_get_None in Hfresh.
    rewrite Forall_forall in Hfresh. specialize (Hfresh (k, v) Hin).
    cbn in Hfresh. rewrite eqb_sym in Hfresh. congruence.
Qed.

Lemma dict_get_eqb d k k' :
  Py.eqb k k' = true → Py.dict_get d k = Py.dict_get d k'.
Proof.
  intros Hk. induction d as [|[k0 v0] d IH]; cbn; [done|].
  destruct (Py.eqb k0 k) eqn:H0.
  - by rewrite (eqb_trans k0 k k').
  - rewrite eqb_sym in Hk. rewrite eqb_sym in H0.
    pose proof (eqb_false_l k' k k0 Hk H0) as H1.
    rewrite eqb_sym in H1. by rewrite H1.
Qed.

Lemma dict_get_set_eq d k v : Py.dict_get (Py.dict_set d k v) k = Some v.
Proof.
  induction d as [|[k' v'] d IH]; cbn.
  - by rewrite eqb_refl.
  - destruct (Py.eqb k' k) eqn:Hk; cbn; by rewrite Hk.
Qed.

Lemma dict_get_set_ne d k k' v :
  Py.eqb k k' = false → Py.dict_get (Py.dict_set d k v) k' = Py.dict_get d k'.
Proof.
  intros Hne. induction d as [|[k0 v0] d IH]; cbn.
  - by rewrite Hne.
  - destruct (Py.eqb k0 k) eqn:Hk; cbn; [|by rewrite IH].
    rewrite eqb_sym in Hk.
    pose proof (eqb_false_l k0 k k') as Hf. rewrite eqb_sym in Hk.
    by rewrite Hf.
Qed.

Lemma dict_set_elem d k v kv :
  kv ∈ Py.dict_set d k v → kv ∈ d ∨ kv.2 = v.
Proof.
  induction d as [|[k0 v0] d IH]; cbn.
  - intros Hin. apply list_elem_of_singleton in Hin as ->. by right.
  - destruct (Py.eqb k0 k); intros Hin; apply elem_of_cons in Hin as [->|Hin].
    + by right.
    + left. by right.
    + left. by left.
    + destruct (IH Hin); [left; by right|by right].
Qed.

Lemma dict_set_wf d k v : Py.dict_wf d → Py.dict_wf (Py.dict_set d k v).
Proof.
  induction d as [|[k0 v0] d IH]; cbn; [done|].
  intros [Hfresh Hwf]. destruct (Py.eqb k0 k) eqn:Hk; cbn; [done|].
  split; [|by apply IH].
  rewrite dict_get_set_ne; [done|]. by rewrite eqb_sym.
Qed.

End DictFacts.

(** ** The aircraft cache *)

Section CacheFacts.
Import KMZ.

Lemma dict_del_app_fresh {V : Type} (pre d : list (pyval * V)) (k : pyval) :
  Forall (λ kv, Py.eqb kv.1 k = false) pre →
  Py.dict_del (pre ++ d) k = pre ++ Py.dict_del d k.
Proof.
  induction 1 as [|[k0 v0] pre Hk _ IH]; cbn in *; [done|].
  by rewrite Hk, IH.
Qed.

Lemma dict_wf_app_mid {V : Type} (pre d : list (pyval * V)) (k : pyval) (v : V) :
  Py.dict_wf (pre ++ (k, v) :: d) →
  Forall (λ kv, Py.eqb kv.1 k = false) pre ∧ Py.dict_wf (pre ++ d).
Proof.
  induction pre as [|[k0 v0] pre IH]; cbn.
  - intros [_ Hwf]. by split.
  - intros [Hfresh Hwf]. destruct (IH Hwf) as [Hpre Hwf'].
    apply dict_get_None in Hfresh.
    apply Forall_app in Hfresh as [Hf1 Hf2].
    inversion Hf2 as [|? ? Hk Hf3]; subst. cbn in Hk.
    split.
    + constructor; [cbn; by rewrite eqb_sym|done].
    + split; [|done]. apply dict_get_None, Forall_app. by split.
Qed.

(** Deleting the keys of the items that [bad] selects leaves the others,
    in their order. *)
Lemma fold_dict_del_filter {V : Type} (bad : pyval * V → bool)
      (d pre : list (pyval * V)) :
  Py.dict_wf (pre ++ d) →
  fold_left Py.dict_del (map fst (List.filter bad d)) (pre ++ d)
  = pre ++ List.filter (λ kv, negb (bad kv)) d.
Proof.
  revert pre. induction d as [|[k v] d IH]; intros pre Hwf; [done|].
  cbn [List.filter]. destruct (bad (k, v)) eqn:Hbad; cbn [negb map fold_left fst].
  - destruct (dict_wf_app_mid pre d k v Hwf) as [Hpre Hwf'].
    rewrite dict_del_app_fresh by done. cbn. rewrite eqb_refl. by apply IH.
  - rewrite (cons_middle (k, v) pre d) in Hwf |- *.
    rewrite app_assoc in Hwf |- *. rewrite IH by done.
    by rewrite <- app_assoc.
Qed.

Lemma filter_dict_wf {V : Type} (f : pyval * V → bool) (d : list (pyval * V)) :
  Py.dict_wf d → Py.dict_wf (List.filter f d).
Proof.
  induction d as [|[k v] d IH]; cbn; [done|].
  intros [Hfresh Hwf]. destruct (f (k, v)); cbn; [|by apply IH].
  split; [|by apply IH].
  apply dict_get_None. apply dict_get_None in Hfresh.
  rewrite Forall_forall in Hfresh |- *. intros kv Hkv.
  apply Hfresh. apply list_elem_of_In in Hkv. apply filter_In in Hkv as [Hkv _].
  by apply list_elem_of_In.
Qed.

(** Looking a key up after filtering on the values. *)
Lemma dict_get_filter {V : Type} (keep : V → bool) (d : list (pyval * V))
      (k : pyval) :
  Py.dict_wf d →
  Py.dict_get (List.filter (λ kv, keep kv.2) d) k
  = match Py.dict_get d k with
    | Some v => if keep v then Some v else None
    | None => None
    end.
Proof.
  induction d as [|[k0 v0] d IH]; cbn; [done|].
  intros [Hfresh Hwf]. destruct (Py.eqb k0 k) eqn:Hk.
  - destruct (keep v0); cbn; [by rewrite Hk|].
    rewrite IH by done. by rewrite <- (dict_get_eqb d k0 k Hk), Hfresh.
  - destruct (keep v0); cbn; [rewrite Hk|]; by apply IH.
Qed.

Lemma dict_get_filter_expired (now p : Z) (objs : list entry)
      (d : list (pyval * loc)) (k : pyval) :
  Py.dict_wf d →
  Py.dict_get (List.filter (λ kv, negb (expired_item now p objs kv)) d) k
  = match Py.dict_get d k with
    | Some l => if expired_item now p objs (k, l) then None else Some l
    | None => None
    end.
Proof.
  intros Hwf.
  rewrite (List.filter_ext _ (λ kv, negb (expired_item now p objs (k, kv.2))))
    by done.
  rewrite (dict_get_filter (λ l, negb (expired_item now p objs (k, l)))) by done.
  destruct (Py.dict_get d k) as [l|]; [|done].
  by destruct (expired_item now p objs (k, l)).
Qed.

Lemma sweep_entry_idem (now : Z) (e : entry) :
  sweep_entry now (sweep_entry now e) = sweep_entry now e.
Proof. done. Qed.

(** The second loop of [update_aircraft_data] over the items [db], started
    on a store [objs0] in which some objects of [objs1] may have been swept
    already: every object that [db] refers to ends up swept, the others
    stay, and the expired ids are those of the items with an age beyond the
    window, in the order of [db]. *)
Lemma sweep_fold (now p : Z) (objs1 : list entry) (db : list (pyval * loc)) :
  ∀ (objs0 : list entry) (exp0 : list pyval),
    valid db objs0 →
    (∀ l, objs0 !! l = objs1 !! l ∨ objs0 !! l = sweep_entry now <$> objs1 !! l) →
    ∃ objs',
      fold_left (sweep_item now p) db (objs0, exp0)
      = (objs', exp0 ++ map fst (List.filter (expired_item now p objs1) db))
      ∧ length objs' = length objs0
      ∧ (∀ l, l ∈ map snd db → objs' !! l = sweep_entry now <$> objs1 !! l)
      ∧ (∀ l, l ∉ map snd db → objs' !! l = objs0 !! l).
Proof.
  induction db as [|[k l] db IH]; intros objs0 exp0 Hvalid Hrel.
  - exists objs0. cbn. rewrite app_nil_r. repeat split; try done.
    intros l Hl. by inversion Hl.
  - inversion Hvalid as [|? ? Hl Hvalid']; subst. cbn in Hl.
    destruct (lookup_lt_is_Some_2 objs0 l Hl) as [e0 He0].
    cbn [fold_left sweep_item]. rewrite He0.
    assert (He1 : ∃ e1, objs1 !! l = Some e1
                        ∧ sweep_entry now e0 = sweep_entry now e1
                        ∧ last_seen_timestamp e0 = last_seen_timestamp e1).
    { destruct (Hrel l) as [Hsame|Hswept].
      - rewrite He0 in Hsame. exists e0. by rewrite <- Hsame.
      - rewrite He0 in Hswept.
        destruct (objs1 !! l) as [e1|]; [|done]. exists e1.
        cbn in Hswept. injection Hswept as ->. done. }
    destruct He1 as (e1 & He1 & Hsw & Hls).
    set (objs0' := <[l := set_age (now - last_seen_timestamp e0) e0]> objs0).
    set (exp0' := if (now - last_seen_timestamp e0 >? p)%Z
                  then exp0 ++ [k] else exp0).
    destruct (IH objs0' exp0') as (objs' & Hfold & Hlen & Hin & Hout).
    { unfold valid, objs0'. by rewrite length_insert. }
    { intros l'. unfold objs0'. destruct (decide (l' = l)) as [->|Hne].
      - right. rewrite list_lookup_insert_eq by done. rewrite He1. cbn.
        f_equal. apply Hsw.
      - rewrite list_lookup_insert_ne by done. apply Hrel. }
    exists objs'. split; [|split; [|split]].
    + rewrite Hfold. f_equal. cbn [List.filter]. unfold expired_item at 2.
      cbn [snd]. rewrite He1, <- Hls. unfold exp0'.
      destruct (now - last_seen_timestamp e0 >? p)%Z; [|done].
      by rewrite <- app_assoc.
    + rewrite Hlen. unfold objs0'. by rewrite length_insert.
    + intros l' Hl'. cbn in Hl'.
      destruct (decide (l' ∈ map snd db)) as [Hdb|Hdb]; [by apply Hin|].
      apply elem_of_cons in Hl' as [->|Hl']; [|done].
      rewrite Hout by done. unfold objs0'.
      rewrite list_lookup_insert_eq by done. rewrite He1. cbn.
      f_equal. apply Hsw.
    + intros l' Hl'. cbn in Hl'. apply not_elem_of_cons in Hl' as [Hne Hl'].
      rewrite Hout by done. unfold objs0'.
      by rewrite list_lookup_insert_ne.
Qed.

(** The first loop of [update_aircraft_data]: the store grows by new
    objects, all stamped with the clock reading; references stay valid and
    keys stay different. *)
Lemma upsert_fold (now : Z) (accepted : list aircraft) :
  ∀ (db : list (pyval * loc)) (objs : list entry),
    ∃ db1 new,
      fold_left (upsert now) accepted (db, objs) = (db1, objs ++ new)
      ∧ Forall (λ e, last_seen_timestamp e = now
                     ∧ Py.truthy (adshex e) = true) new
      ∧ (valid db objs → valid db1 (objs ++ new))
      ∧ (Py.dict_wf db → Py.dict_wf db1).
Proof.
  induction accepted as [|a accepted IH]; intros db objs.
  - exists db, []. cbn. rewrite app_nil_r. repeat split; done.
  - cbn [fold_left upsert].
    destruct (Py.truthy (Py.get a "adshex")) eqn:Hid; cbn [negb].
    + destruct (IH (Py.dict_set db (Py.get a "adshex") (length objs))
                   (objs ++ [minimal_aircraft (Py.get a "adshex") a now]))
        as (db1 & new & Hfold & Hnew & Hvalid & Hwf).
      exists db1, (minimal_aircraft (Py.get a "adshex") a now :: new).
      rewrite Hfold, <- app_assoc. cbn [app].
      split; [done|]. split; [by constructor|]. split.
      * intros Hv. rewrite <- app_assoc in Hvalid. apply Hvalid.
        unfold valid in *. rewrite Forall_forall in Hv |- *.
        intros kv Hkv. rewrite length_app. cbn.
        apply dict_set_elem in Hkv as [Hkv| ->]; [|lia].
        specialize (Hv kv Hkv). lia.
      * intros Hw. apply Hwf. by apply dict_set_wf.
    + apply IH.
Qed.

(** A key that no truthy id of the batch equals keeps what it had. *)
Lemma upsert_fold_untouched (now : Z) (accepted : list aircraft) (k : pyval) :
  (∀ a, a ∈ accepted → Py.truthy (Py.get a "adshex") = true →
        Py.eqb (Py.get a "adshex") k = false) →
  ∀ (db : list (pyval * loc)) (objs : list entry),
    Py.dict_get (fold_left (upsert now) accepted (db, objs)).1 k
    = Py.dict_get db k.
Proof.
  induction accepted as [|a accepted IH]; intros Hk db objs; [done|].
  cbn [fold_left upsert].
  destruct (Py.truthy (Py.get a "adshex")) eqn:Hid; cbn [negb].
  - rewrite IH by (intros a' Ha'; apply Hk; by right).
    apply dict_get_set_ne. apply Hk; [by left|done].
  - apply IH. intros a' Ha'. apply Hk. by right.
Qed.

(** The last record of the batch with a given truthy id determines what
    is stored under that id. *)
Lemma upsert_fold_last (now : Z) (pre post : list aircraft) (a : aircraft)
      (db : list (pyval * loc)) (objs : list entry) :
  Py.truthy (Py.get a "adshex") = true →
  (∀ a', a' ∈ post → Py.eqb (Py.get a' "adshex") (Py.get a "adshex") = false) →
  ∃ l, Py.dict_get (fold_left (upsert now) (pre ++ a :: post) (db, objs)).1
                   (Py.get a "adshex") = Some l
       ∧ (fold_left (upsert now) (pre ++ a :: post) (db, objs)).2 !! l
         = Some (minimal_aircraft (Py.get a "adshex") a now).
Proof.
  intros Hid Hpost. rewrite fold_left_app.
  destruct (fold_left (upsert now) pre (db, objs)) as [dbp objsp].
  cbn [fold_left upsert]. rewrite Hid. cbn [negb].
  exists (length objsp). split.
  - rewrite upsert_fold_untouched by (intros a' Ha' _; by apply Hpost).
    apply dict_get_set_eq.
  - destruct (upsert_fold now post
                (Py.dict_set dbp (Py.get a "adshex") (length objsp))
                (objsp ++ [minimal_aircraft (Py.get a "adshex") a now]))
      as (db1 & new & Hfold & _).
    rewrite Hfold. cbn [snd]. rewrite <- app_assoc.
    rewrite lookup_app_r by lia. by rewrite Nat.sub_diag.
Qed.

(** [update_aircraft_data], loop by loop. *)
Lemma update_spec (self : generator) (accepted : list aircraft) (now : Z) :
  inv self →
  let self' := update_aircraft_data self accepted now in
  ∃ db1 new,
    let objs1 := store self ++ new in
    fold_left (upsert now) accepted (aircraft_database self, store self)
    = (db1, objs1)
    ∧ Forall (λ e, last_seen_timestamp e = now ∧ Py.truthy (adshex e) = true) new
    ∧ Py.dict_wf db1
    ∧ valid db1 objs1
    ∧ aircraft_database self'
      = List.filter (λ kv, negb (expired_item now (persistence_time self) objs1 kv)) db1
    ∧ length (store self') = length objs1
    ∧ (∀ l, l ∈ map snd db1 → store self' !! l = sweep_entry now <$> objs1 !! l)
    ∧ (∀ l, l ∉ map snd db1 → store self' !! l = objs1 !! l)
    ∧ persistence_time self' = persistence_time self.
Proof.
  intros (Hwf & Hvalid & Htruthy). cbv zeta. unfold update_aircraft_data.
  destruct (upsert_fold now accepted (aircraft_database self) (store self))
    as (db1 & new & Hfold & Hnew & Hvalid1 & Hwf1).
  rewrite Hfold.
  destruct (sweep_fold now (persistence_time self) (store self ++ new) db1
              (store self ++ new) [])
    as (objs2 & Hsweep & Hlen & Hin & Hout); [by apply Hvalid1|by left|].
  rewrite Hsweep. cbn [app fst snd aircraft_database store persistence_time].
  exists db1, new. cbv zeta.
  pose proof (fold_dict_del_filter
                (expired_item now (persistence_time self) (store self ++ new))
                db1 [] (Hwf1 Hwf)) as Hdel.
  cbn [app] in Hdel. rewrite Hdel.
  repeat split; try done; by auto.
Qed.

Lemma update_inv (self : generator) (accepted : list aircraft) (now : Z) :
  inv self → inv (update_aircraft_data self accepted now).
Proof.
  intros Hinv. pose proof Hinv as (Hwf & Hvalid & Htruthy).
  destruct (update_spec self accepted now Hinv)
    as (db1 & new & _ & Hnew & Hwf1 & Hvalid1 & Hdb & Hlen & Hin & Hout & _).
  cbv zeta in *. split; [|split].
  - rewrite Hdb. by apply filter_dict_wf.
  - unfold valid in *. rewrite Hdb, Hlen. rewrite Forall_forall in Hvalid1 |- *.
    intros kv Hkv. apply Hvalid1.
    apply list_elem_of_In in Hkv. apply filter_In in Hkv as [Hkv _].
    by apply list_elem_of_In.
  - assert (Hall : Forall (λ e, Py.truthy (adshex e) = true) (store self ++ new)).
    { apply Forall_app. split; [done|].
      eapply Forall_impl; [exact Hnew|]. by intros e [_ He]. }
    rewrite Forall_lookup in Hall |- *. intros l e He.
    destruct (decide (l ∈ map snd db1)) as [Hl|Hl].
    + rewrite Hin in He by done.
      destruct ((store self ++ new) !! l) as [e1|] eqn:He1; [|done].
      cbn in He. injection He as <-. cbn. by apply (Hall l).
    + rewrite Hout in He by done. by apply (Hall l).
Qed.

Lemma reachable_inv (self : generator) : reachable self → inv self.
Proof.
  induction 1 as [refresh persistence|self accepted now _ IH].
  - cbn. repeat split; constructor.
  - by apply update_inv.
Qed.

(** An update writes into the objects of the store at [age_seconds] only. *)
Lemma update_ages_only (self : generator) (accepted : list aircraft) (now : Z) :
  inv self →
  ages_only (store self) (store (update_aircraft_data self accepted now)).
Proof.
  intros Hinv.
  destruct (update_spec self accepted now Hinv)
    as (db1 & new & _ & _ & _ & _ & _ & _ & Hin & Hout & _).
  cbv zeta in *. intros l e He.
  assert (He1 : (store self ++ new) !! l = Some e) by by apply lookup_app_l_Some.
  destruct (decide (l ∈ map snd db1)) as [Hl|Hl].
  - rewrite Hin, He1 by done. by eexists.
  - rewrite Hout, He1 by done. by eexists.
Qed.

Lemma updates_inv (later : list (list aircraft * Z)) (self : generator) :
  inv self → inv (updates self later).
Proof.
  revert self. induction later as [|u later IH]; intros self Hinv; [done|].
  cbn. apply IH. by apply update_inv.
Qed.

Lemma updates_ages_only (later : list (list aircraft * Z)) (self : generator) :
  inv self → ages_only (store self) (store (updates self later)).
Proof.
  revert self. induction later as [|u later IH]; intros self Hinv.
  - intros l e He. by exists e.
  - cbn. intros l e He.
    destruct (update_ages_only self u.1 u.2 Hinv l e He) as (e1 & He1 & Hsame).
    destruct (IH _ (update_inv self u.1 u.2 Hinv) l e1 He1) as (e2 & He2 & Hsame2).
    exists e2. split; [done|congruence].
Qed.

(** What a snapshot taken after an update shows. *)
Lemma snapshot_elem (self : generator) (accepted : list aircraft) (now : Z) (e : entry) :
  inv self →
  let self' := update_aircraft_data self accepted now in
  e ∈ view (store self') (get_current_aircraft self') →
  age_seconds e = (now - last_seen_timestamp e)%Z
  ∧ (age_seconds e ≤ persistence_time self)%Z.
Proof.
  intros Hinv. cbv zeta.
  destruct (update_spec self accepted now Hinv)
    as (db1 & new & _ & _ & _ & _ & Hdb & _ & Hin & _ & _).
  cbv zeta in *. unfold view, get_current_aircraft.
  intros He. apply list_elem_of_omap in He as (l & Hl & He).
  rewrite Hdb in Hl. apply list_elem_of_fmap in Hl as ([k l'] & -> & Hkl).
  cbn [snd] in *.
  apply list_elem_of_In, filter_In in Hkl as [Hkl Hkeep].
  apply list_elem_of_In in Hkl.
  rewrite Hin in He by (apply list_elem_of_fmap; by exists (k, l')).
  unfold expired_item in Hkeep. cbn [snd] in Hkeep.
  destruct ((store self ++ new) !! l') as [e1|]; [|done].
  cbn in He. injection He as <-. cbn.
  split; [done|]. apply negb_true_iff in Hkeep. lia.
Qed.

Lemma truthy_as_number (v : pyval) (q : Q) :
  Py.as_number v = Some q → Py.truthy v = negb (Qeq_bool q 0).
Proof. destruct v as [|[]|q'| |negative|s]; cbn; intros [= <-]; done. Qed.

(** Equal values have the same truth value. *)
Lemma eqb_truthy (a b : pyval) :
  Py.eqb a b = true → Py.truthy a = Py.truthy b.
Proof.
  unfold Py.eqb.
  destruct (Py.as_number a) as [x|] eqn:Ha, (Py.as_number b) as [y|] eqn:Hb;
    try done.
  - intros Hxy. rewrite (truthy_as_number a x), (truthy_as_number b y) by done.
    apply Qeq_bool_iff in Hxy. by rewrite Hxy.
  - destruct a, b; try done. intros Hs. apply String.eqb_eq in Hs. by subst.
Qed.

(** The last element of a list that satisfies a test. *)
Lemma last_match {A : Type} (P : A → bool) (l : list A) (a : A) :
  a ∈ l → P a = true →
  ∃ pre a' post, l = pre ++ a' :: post ∧ P a' = true
                 ∧ ∀ x, x ∈ post → P x = false.
Proof.
  revert a. induction l as [|x l IH]; intros a Hin HP; [by inversion Hin|].
  destruct (existsb P l) eqn:Hex.
  - apply existsb_exists in Hex as (y & Hy & HPy).
    apply list_elem_of_In in Hy.
    destruct (IH y Hy HPy) as (pre & a' & post & -> & Ha' & Hpost).
    by exists (x :: pre), a', post.
  - assert (Hnone : ∀ y, y ∈ l → P y = false).
    { intros y Hy. destruct (P y) eqn:HPy; [|done].
      assert (existsb P l = true); [|congruence].
      apply existsb_exists. exists y. split; [by apply list_elem_of_In|done]. }
    apply elem_of_cons in Hin as [->|Hin].
    + by exists [], x, l.
    + by rewrite Hnone in HP.
Qed.

(** What is stored under the id of the last record [a] carrying it, after
    the update. *)
Lemma update_last (self : generator) (pre post : list aircraft) (a : aircraft)
      (now : Z) :
  inv self →
  Py.truthy (Py.get a "adshex") = true →
  (∀ a', a' ∈ post → Py.eqb (Py.get a' "adshex") (Py.get a "adshex") = false) →
  let self' := update_aircraft_data self (pre ++ a :: post) now in
  let e := minimal_aircraft (Py.get a "adshex") a now in
  (∀ l e', Py.dict_get (aircraft_database self') (Py.get a "adshex") = Some l →
           store self' !! l = Some e' → e' = e)
  ∧ ((0 ≤ persistence_time self)%Z →
     ∃ l, Py.dict_get (aircraft_database self') (Py.get a "adshex") = Some l
          ∧ store self' !! l = Some e
          ∧ e ∈ view (store self') (get_current_aircraft self')).
Proof.
  intros Hinv Hid Hpost. cbv zeta.
  destruct (update_spec self (pre ++ a :: post) now Hinv)
    as (db1 & new & Hfold & _ & Hwf1 & _ & Hdb & _ & Hin & _ & _).
  cbv zeta in *.
  destruct (upsert_fold_last now pre post a (aircraft_database self) (store self)
              Hid Hpost) as (l1 & Hget1 & Hobj1).
  rewrite Hfold in Hget1, Hobj1. cbn [fst snd] in Hget1, Hobj1.
  assert (Hl1 : l1 ∈ map snd db1).
  { apply dict_get_Some_elem in Hget1 as (k' & Hk' & _).
    apply list_elem_of_fmap. by exists (k', l1). }
  assert (Hswept : store (update_aircraft_data self (pre ++ a :: post) now) !! l1
                   = Some (minimal_aircraft (Py.get a "adshex") a now)).
  { rewrite Hin, Hobj1 by done. cbn. f_equal.
    unfold sweep_entry, set_age, minimal_aircraft. cbn.
    by rewrite Z.sub_diag. }
  assert (Hget : Py.dict_get
                   (aircraft_database
                      (update_aircraft_data self (pre ++ a :: post) now))
                   (Py.get a "adshex")
                 = if negb (0 >? persistence_time self)%Z then Some l1 else None).
  { rewrite Hdb, dict_get_filter_expired by done.
    rewrite Hget1. unfold expired_item. cbn [snd]. rewrite Hobj1. cbn.
    rewrite Z.sub_diag. by destruct (0 >? persistence_time self)%Z. }
  split.
  - intros l e' Hl He'. rewrite Hget in Hl.
    destruct (negb (0 >? persistence_time self)%Z); [|done].
    injection Hl as <-. congruence.
  - intros Hp. exists l1. rewrite Hget.
    replace (0 >? persistence_time self)%Z with false by (symmetry; lia).
    split; [done|]. split; [done|].
    unfold view, get_current_aircraft. apply list_elem_of_omap.
    exists l1. split; [|done].
    assert (Hg : Py.dict_get
                   (aircraft_database
                      (update_aircraft_data self (pre ++ a :: post) now))
                   (Py.get a "adshex") = Some l1).
    { rewrite Hget. by replace (0 >? persistence_time self)%Z with false
        by (symmetry; lia). }
    apply dict_get_Some_elem in Hg as (k' & Hk' & _).
    apply list_elem_of_fmap. by exists (k', l1).
Qed.

(** C7. Cache eviction: after [update_aircraft_data] at clock reading
    [now], every entry left in the cache has the age [now - last seen], and
    this age does not exceed the persistence window; an entry that the
    update did not refresh and whose age exceeds the window is gone from the
    cache and from the snapshot; an entry refreshed by the update has age 0
    (and is in the snapshot, the window not being negative); the keys of the
    cache are pairwise different, and the last accepted record of an id
    determines the entry stored under it: the entry carries the id, the
    coordinates, the heading and the speed of that record as [dict.get]
    reads them, its altitude and vertical rate with 0 for a missing key,
    the clock reading as last-seen timestamp and the age 0. *)
Theorem C7_cache_eviction (self : generator) (accepted : list aircraft) (now : Z) :
  reachable self →
  let self' := update_aircraft_data self accepted now in
  let snapshot := view (store self') (get_current_aircraft self') in
  let id := λ a : aircraft, Py.get a "adshex" in
  (∀ e, e ∈ snapshot →
        age_seconds e = (now - last_seen_timestamp e)%Z
        ∧ (age_seconds e ≤ persistence_time self)%Z)
  ∧ (∀ k l e,
       (k, l) ∈ aircraft_database self → store self !! l = Some e →
       (∀ a, a ∈ accepted → Py.truthy (id a) = true → Py.eqb (id a) k = false) →
       (persistence_time self < now - last_seen_timestamp e)%Z →
       Py.dict_get (aircraft_database self') k = None
       ∧ l ∉ get_current_aircraft self')
  ∧ (∀ a, a ∈ accepted → Py.truthy (id a) = true →
       (∀ l e, Py.dict_get (aircraft_database self') (id a) = Some l →
               store self' !! l = Some e →
               age_seconds e = 0%Z ∧ last_seen_timestamp e = now)
       ∧ ((0 ≤ persistence_time self)%Z →
          ∃ l e, Py.dict_get (aircraft_database self') (id a) = Some l
                 ∧ store self' !! l = Some e ∧ e ∈ snapshot
                 ∧ age_seconds e = 0%Z))
  ∧ Py.dict_wf (aircraft_database self')
  ∧ (∀ pre a post,
       accepted = pre ++ a :: post → Py.truthy (id a) = true →
       (∀ a', a' ∈ post → Py.eqb (id a') (id a) = false) →
       ∀ l e, Py.dict_get (aircraft_database self') (id a) = Some l →
              store self' !! l = Some e →
              adshex e = id a
              ∧ lat e = Py.get a "lat"
              ∧ lon e = Py.get a "lon"
              ∧ altitude e = Py.get_default a "altitude" (PNum 0)
              ∧ vert_rate e = Py.get_default a "vert_rate" (PNum 0)
              ∧ heading e = Py.get a "heading"
              ∧ speed e = Py.get a "speed"
              ∧ last_seen_timestamp e = now
              ∧ age_seconds e = 0%Z).
Proof.
  intros Hreach. apply reachable_inv in Hreach as Hinv. cbv zeta.
  split; [intros e He; by apply (snapshot_elem self accepted now e Hinv)|].
  split.
  { intros k l e Hkl He Hfresh Hold.
    pose proof Hinv as (Hwf & _ & _).
    destruct (update_spec self accepted now Hinv)
      as (db1 & new & Hfold & _ & Hwf1 & _ & Hdb & _ & _ & _ & _).
    cbv zeta in *.
    assert (He1 : (store self ++ new) !! l = Some e) by by apply lookup_app_l_Some.
    assert (Hexp : ∀ k', expired_item now (persistence_time self)
                                      (store self ++ new) (k', l) = true).
    { intros k'. unfold expired_item. cbn [snd]. rewrite He1. lia. }
    split.
    - rewrite Hdb, dict_get_filter_expired by done.
      pose proof (upsert_fold_untouched now accepted k Hfresh
                    (aircraft_database self) (store self)) as Hsame.
      rewrite Hfold in Hsame. cbn [fst] in Hsame.
      rewrite Hsame, (dict_wf_get_elem _ k l Hwf Hkl).
      by rewrite Hexp.
    - unfold get_current_aircraft. rewrite Hdb. intros Hl.
      apply list_elem_of_fmap in Hl as ([k' l'] & Heq & Hkl').
      cbn in Heq. subst l'.
      apply list_elem_of_In, filter_In in Hkl' as [_ Hkeep].
      by rewrite Hexp in Hkeep. }
  split.
  { intros a Ha Hid.
    destruct (last_match (λ a', Py.eqb (Py.get a' "adshex") (Py.get a "adshex"))
                         accepted a Ha (eqb_refl _))
      as (pre & a' & post & -> & Heq & Hpost).
    assert (Hid' : Py.truthy (Py.get a' "adshex") = true)
      by (by rewrite (eqb_truthy _ _ Heq)).
    assert (Hpost' : ∀ x, x ∈ post →
                          Py.eqb (Py.get x "adshex") (Py.get a' "adshex") = false).
    { intros x Hx. specialize (Hpost x Hx). cbn in Hpost.
      destruct (Py.eqb (Py.get x "adshex") (Py.get a' "adshex")) eqn:Hx'; [|done].
      by rewrite (eqb_trans _ _ _ Hx' Heq) in Hpost. }
    destruct (update_last self pre post a' now Hinv Hid' Hpost') as [Hdet Hpres].
    cbv zeta in *.
    rewrite <- (dict_get_eqb _ _ _ Heq).
    split.
    - intros l e Hl He. by rewrite (Hdet l e Hl He).
    - intros Hp. destruct (Hpres Hp) as (l & Hl & He & Hsnap).
      by exists l, (minimal_aircraft (Py.get a' "adshex") a' now). }
  split; [apply (update_inv self accepted now Hinv)|].
  intros pre a post -> Hid Hpost l e Hl He.
  destruct (update_last self pre post a now Hinv Hid Hpost) as [Hdet _].
  rewrite (Hdet l e Hl He). by repeat split.
Qed.

Lemma view_length (objs : list entry) (refs : list loc) :
  Forall (λ l, l < length objs) refs → length (view objs refs) = length refs.
Proof.
  induction 1 as [|l refs Hl _ IH]; [done|].
  unfold view in *. cbn.
  destruct (lookup_lt_is_Some_2 objs l Hl) as [e ->]. cbn. by rewrite IH.
Qed.

(** C2, as the code has it: [get_current_aircraft] returns references to all
    entries the cache holds; each entry carries the age that the sweep of
    the last update gave it (that update's clock reading minus the last-seen
    timestamp); later updates leave the objects behind the returned
    references in place with all their fields but [age_seconds], which the
    sweep of a later update rewrites in every entry the cache still
    holds. *)
Theorem C2_snapshot_shares_entries (self : generator) (accepted : list aircraft)
        (now : Z) (later : list (list aircraft * Z)) :
  reachable self →
  let self' := update_aircraft_data self accepted now in
  let snapshot := get_current_aircraft self' in
  snapshot = map snd (aircraft_database self')
  ∧ length (view (store self') snapshot) = length (aircraft_database self')
  ∧ (∀ e, e ∈ view (store self') snapshot →
          age_seconds e = (now - last_seen_timestamp e)%Z)
  ∧ (∀ l e, l ∈ snapshot → store self' !! l = Some e →
            ∃ e', store (updates self' later) !! l = Some e'
                  ∧ set_age 0 e' = set_age 0 e)
  ∧ (∀ accepted2 now2 l e',
       let self2 := update_aircraft_data self' accepted2 now2 in
       l ∈ snapshot → l ∈ get_current_aircraft self2 →
       store self2 !! l = Some e' →
       age_seconds e' = (now2 - last_seen_timestamp e')%Z).
Proof.
  intros Hreach. apply reachable_inv in Hreach as Hinv. cbv zeta.
  pose proof (update_inv self accepted now Hinv) as Hinv'.
  split; [done|]. split.
  { unfold get_current_aircraft. rewrite view_length; [by rewrite length_map|].
    destruct Hinv' as (_ & Hvalid & _). unfold valid in Hvalid.
    by apply Forall_fmap. }
  split; [intros e He; by apply (snapshot_elem self accepted now e Hinv)|].
  split.
  { intros l e _ He. by apply (updates_ages_only later _ Hinv'). }
  intros accepted2 now2 l e' _ Hl He'.
  apply (snapshot_elem _ accepted2 now2 e' Hinv').
  unfold view. apply list_elem_of_omap. by exists l.
Qed.

Lemma C2_snapshot_shares_entries_witness :
  reachable (init 1 15)
  ∧ let self' := update_aircraft_data (init 1 15) [Samples.ac1] 100 in
    let snapshot := get_current_aircraft self' in
    snapshot = map snd (aircraft_database self')
    ∧ length (view (store self') snapshot) = length (aircraft_database self')
    ∧ (∀ e, e ∈ view (store self') snapshot →
            age_seconds e = (100 - last_seen_timestamp e)%Z)
    ∧ (∀ l e, l ∈ snapshot → store self' !! l = Some e →
              ∃ e', store (updates self' [([Samples.ac2], 110%Z)]) !! l = Some e'
                    ∧ set_age 0 e' = set_age 0 e)
    ∧ (∀ accepted2 now2 l e',
         let self2 := update_aircraft_data self' accepted2 now2 in
         l ∈ snapshot → l ∈ get_current_aircraft self2 →
         store self2 !! l = Some e' →
         age_seconds e' = (now2 - last_seen_timestamp e')%Z).
Proof.
  split; [constructor|].
  apply (C2_snapshot_shares_entries (init 1 15) [Samples.ac1] 100
           [([Samples.ac2], 110%Z)]).
  constructor.
Defined.

(** C2, as the specification states it, fails. A cache is updated with one
    record at clock reading 100 and [get_current_aircraft] is called at 105:
    the entry returned carries the age 0 of the sweep, not 105 - 100. After
    a later update at 110 the entry read through the list returned earlier
    carries the age 10: the sweep has written into the shared object. *)
Lemma C2_age_not_at_call_and_copy_shared :
  let g1 := update_aircraft_data (init 1 15) [Samples.ac1] 100 in
  let snapshot := get_current_aircraft g1 in
  let g2 := update_aircraft_data g1 [Samples.ac2] 110 in
  map age_seconds (view (store g1) snapshot) = [0%Z]
  ∧ map (λ e, (105 - last_seen_timestamp e)%Z) (view (store g1) snapshot) = [5%Z]
  ∧ map age_seconds (view (store g2) snapshot) = [10%Z]
  ∧ view (store g2) snapshot ≠ view (store g1) snapshot.
Proof. cbv zeta. vm_compute. repeat split. discriminate. Qed.

(** C10. A record whose ["adshex"] is absent, empty or otherwise falsy is
    skipped by [update_aircraft_data]: the cache after the update is the
    cache the update yields without the record; the filter does not read
    the id, so such a record is accepted like the same record with an id;
    and no entry of a snapshot carries a falsy id. *)
Theorem C10_record_without_id_skipped (self : generator) (pre post : list aircraft)
        (a : aircraft) (now : Z) :
  Py.truthy (Py.get a "adshex") = false →
  update_aircraft_data self (pre ++ a :: post) now
  = update_aircraft_data self (pre ++ post) now
  ∧ (∀ (F : PyFloat) (flt : DataProcessor.filters) (st : DataProcessor.stats)
       (a' : aircraft),
       (∀ k, k ≠ "adshex" → a' !! k = a !! k) →
       DataProcessor._passes_filters flt st a'
       = DataProcessor._passes_filters flt st a)
  ∧ (reachable self →
     ∀ e, e ∈ view (store self) (get_current_aircraft self) →
          Py.truthy (adshex e) = true).
Proof.
  intros Hid. split; [|split].
  - unfold update_aircraft_data. rewrite !fold_left_app.
    destruct (fold_left (upsert now) pre (aircraft_database self, store self))
      as [db objs].
    cbn [fold_left upsert]. by rewrite Hid.
  - intros F flt st a' Hsame.
    unfold DataProcessor._passes_filters, Py.get, Py.get_default.
    by rewrite !Hsame by done.
  - intros Hreach e He. apply reachable_inv in Hreach as (_ & _ & Htruthy).
    unfold view in He. apply list_elem_of_omap in He as (l & _ & He).
    rewrite Forall_lookup in Htruthy. by apply (Htruthy l).
Qed.

Lemma C10_record_without_id_skipped_witness :
  Py.truthy (Py.get Samples.anonymous "adshex") = false
  ∧ update_aircraft_data (init 1 15) ([Samples.ac1] ++ Samples.anonymous :: [Samples.ac2]) 100
    = update_aircraft_data (init 1 15) ([Samples.ac1] ++ [Samples.ac2]) 100
  ∧ @DataProcessor._passes_filters binary64 DataProcessor.default_filters
      (DataProcessor.proc_stats (@DataProcessor.init binary64 unit None))
      Samples.anonymous
    = (DataProcessor.proc_stats (@DataProcessor.init binary64 unit None), Ok true).
Proof.
  split; [reflexivity|].
  split.
  - apply (C10_record_without_id_skipped (init 1 15) [Samples.ac1] [Samples.ac2]
             Samples.anonymous 100). reflexivity.
  - reflexivity.
Defined.

End CacheFacts.

(** ** Per frame decoding *)

Section DecodeFacts.
Import DataProcessor FirehoseClient.
Context `{PyFloat} {W : Type}.
Context (gzip_decompress : list byte → option (list byte)).
Context (json_loads : list byte → option payload).

Local Abbreviation process_frame := (process_frame gzip_decompress json_loads).
Local Abbreviation process_frames := (process_frames gzip_decompress json_loads).
Local Abbreviation decode_fails := (decode_fails gzip_decompress json_loads).
Local Abbreviation _process_buffer := (_process_buffer gzip_decompress json_loads).

(** No round of the frame loop lets an exception out, whatever the frame
    and whatever the processor and its consumers raise. *)
Lemma process_frame_no_exception (dp : option (@processor _ W)) (w : W)
      (frame : list byte) :
  (process_frame dp w frame).2 = None.
Proof. done. Qed.

Lemma process_frames_no_exception (frames : list (list byte))
      (dp : option (@processor _ W)) (w : W) :
  (process_frames dp w frames).2 = None.
Proof.
  revert dp w. induction frames as [|frame frames IH]; intros dp w; [done|].
  cbn [FirehoseClient.process_frames].
  pose proof (process_frame_no_exception dp w frame) as Hnone.
  destruct (process_frame dp w frame) as [[[dp1 w1] events1] exn1].
  cbn in Hnone. subst exn1.
  specialize (IH dp1 w1).
  by destruct (process_frames dp1 w1 frames) as [[[dp2 w2] events2] exn2].
Qed.

(** A frame that fails to decode changes nothing. *)
Lemma process_frame_decode_fails (dp : option (@processor _ W)) (w : W)
      (frame : list byte) :
  decode_fails frame → process_frame dp w frame = (dp, w, [], None).
Proof.
  unfold FirehoseClient.decode_fails, FirehoseClient.process_frame,
    frame_body, parse_and_process, try_except.
  destruct (is_gzipped frame).
  - destruct (gzip_decompress frame) as [d|]; [|done].
    by intros [-> | ->].
  - by intros [-> | ->].
Qed.

(** C9. Decode-error containment: a frame whose payload fails
    decompression, fails parsing or decodes to an empty mapping hands no
    records to the processor (the processor and the consumers' state stay
    as they are, no consumer is invoked), raises nothing, and the frames
    after it in the batch are decoded and processed as if it were not
    there: a frame behind it that decodes (raw, or gzipped and
    decompressing) to a payload that is not empty is handed to
    [process_aircraft_data] of the processor as the failing frame found
    it, and the loop goes on behind it whether that call returns or
    raises; the frame loop, and [_process_buffer] with it, never raises. *)
Theorem C9_decode_error_containment (dp : option (@processor _ W)) (w : W)
        (frame : list byte) :
  decode_fails frame →
  process_frame dp w frame = (dp, w, [], None)
  ∧ (∀ rest, process_frames dp w (frame :: rest) = process_frames dp w rest)
  ∧ (∀ before rest,
       process_frames dp w (before ++ frame :: rest)
       = process_frames dp w (before ++ rest))
  ∧ (∀ (p : processor) (good data : list byte) (aircraft_data : payload) rest,
       dp = Some p →
       (is_gzipped good = false ∧ data = good
        ∨ is_gzipped good = true ∧ gzip_decompress good = Some data) →
       json_loads data = Some aircraft_data →
       payload_truthy aircraft_data = true →
       process_frames dp w (frame :: good :: rest)
       = let '(p', w', events, _) := process_aircraft_data p aircraft_data w in
         let '(dp2, w2, events2, exn) := process_frames (Some p') w' rest in
         (dp2, w2, events ++ events2, exn))
  ∧ (∀ frames, (process_frames dp w frames).2 = None)
  ∧ (∀ self : client, (_process_buffer self w).2 = None).
Proof.
  intros Hfails.
  assert (Hskip : ∀ (dp' : option (@processor _ W)) (w' : W) rest,
             process_frames dp' w' (frame :: rest) = process_frames dp' w' rest).
  { intros dp' w' rest. cbn [FirehoseClient.process_frames].
    rewrite process_frame_decode_fails by done.
    by destruct (process_frames dp' w' rest) as [[[dp2 w2] events2] exn2]. }
  split; [by apply process_frame_decode_fails|].
  split; [apply Hskip|].
  split; [|split; [|split; [intros frames; apply process_frames_no_exception|]]].
  2:{ intros p good data aircraft_data rest -> Hgood Hjson Htruthy.
      rewrite Hskip. cbn [FirehoseClient.process_frames].
      assert (Hframe : process_frame (Some p) w good
                       = let '(p', w', events, _) :=
                           process_aircraft_data p aircraft_data w in
                         (Some p', w', events, None)).
      { unfold FirehoseClient.process_frame, frame_body, parse_and_process,
          try_except.
        destruct Hgood as [[-> ->]|[-> ->]]; rewrite Hjson, Htruthy;
          by destruct (process_aircraft_data p aircraft_data w)
            as [[[p' w'] events] [accepted|e]]. }
      rewrite Hframe.
      by destruct (process_aircraft_data p aircraft_data w)
        as [[[p' w'] events] r]. }
  2:{ intros self. unfold FirehoseClient._process_buffer.
      destruct (DLEProtocol.extract_frames (buffer self)) as [frames remaining].
      pose proof (process_frames_no_exception frames (data_processor self) w)
        as Hnone.
      by destruct (process_frames (data_processor self) w frames)
        as [[[dp' w'] events] exn]. }
  intros before. revert dp w.
  induction before as [|f before IH]; intros dp w rest; [apply Hskip|].
  cbn [app FirehoseClient.process_frames].
  destruct (process_frame dp w f) as [[[dp1 w1] events1] [e|]]; [done|].
  by rewrite IH.
Qed.

End DecodeFacts.

(** ** The theorems at sample inputs *)

Section Witnesses.
Import DataProcessor KMZ FirehoseClient Samples.

Lemma altitude_numeric_samples :
  Forall altitude_numeric [ac1; ac2; grounded; low; no_lon; anonymous].
Proof. repeat constructor; intros s; vm_compute; discriminate. Defined.

Lemma C5_filter_determinism_witness :
  let st0 := proc_stats (@DataProcessor.init binary64 unit None) in
  (Py.get grounded "lat" ≠ PNone ∧ Py.get grounded "lon" ≠ PNone)
  ∧ Py.truthy (Py.get_default grounded "is_on_ground" (PBool false)) = true
  ∧ _passes_filters default_filters st0 grounded = (incr_ground st0, Ok false)
  ∧ (Py.get no_lon "lat" = PNone ∨ Py.get no_lon "lon" = PNone)
  ∧ _passes_filters default_filters st0 no_lon = (st0, Ok false)
  ∧ spec_altitude low = Some 50%Q
  ∧ (50 < inject_Z 100)%Q
  ∧ _passes_filters default_filters st0 low = (incr_low_altitude st0, Ok false)
  ∧ Py.get nan_altitude "altitude" = PNaN
  ∧ _passes_filters default_filters st0 nan_altitude = (st0, Ok true)
  ∧ Py.get string_altitude "altitude" = PStr "high"
  ∧ _passes_filters default_filters st0 string_altitude = (st0, Raise TypeError).
Proof.
  cbv zeta.
  assert (Hg : Py.get grounded "lat" ≠ PNone ∧ Py.get grounded "lon" ≠ PNone)
    by (split; vm_compute; discriminate).
  assert (Hl : Py.get low "lat" ≠ PNone ∧ Py.get low "lon" ≠ PNone)
    by (split; vm_compute; discriminate).
  assert (Hn : Py.get nan_altitude "lat" ≠ PNone
               ∧ Py.get nan_altitude "lon" ≠ PNone)
    by (split; vm_compute; discriminate).
  assert (Hs : Py.get string_altitude "lat" ≠ PNone
               ∧ Py.get string_altitude "lon" ≠ PNone)
    by (split; vm_compute; discriminate).
  split; [exact Hg|]. split; [reflexivity|]. split.
  { apply (C5_filter_determinism (H := binary64) (W := unit)
             default_filters _ grounded); [exact Hg|reflexivity]. }
  split; [right; reflexivity|]. split.
  { apply (C5_filter_determinism (H := binary64) (W := unit)
             default_filters _ no_lon). right. reflexivity. }
  split; [reflexivity|]. split; [reflexivity|]. split.
  { pose proof (C5_filter_determinism (H := binary64) (W := unit)
                  default_filters
                  (proc_stats (@DataProcessor.init binary64 unit None)) low)
      as (_ & _ & _ & Hlow & _).
    cbv zeta in Hlow.
    apply (Hlow Hl) with (m := 100%Z);
      [vm_compute; discriminate|reflexivity|].
    left. exists 50%Q. split; reflexivity. }
  split; [reflexivity|]. split.
  { pose proof (C5_filter_determinism (H := binary64) (W := unit)
                  default_filters
                  (proc_stats (@DataProcessor.init binary64 unit None))
                  nan_altitude)
      as (_ & _ & _ & _ & Hnan & _).
    cbv zeta in Hnan.
    apply Hnan; [exact Hn|vm_compute; discriminate|reflexivity]. }
  split; [reflexivity|].
  pose proof (C5_filter_determinism (H := binary64) (W := unit)
                default_filters
                (proc_stats (@DataProcessor.init binary64 unit None))
                string_altitude)
    as (_ & _ & _ & _ & _ & Hstr & _).
  cbv zeta in Hstr.
  destruct (Hstr Hs) with (s := "high"%string) as [Hraise _];
    [vm_compute; discriminate|reflexivity|].
  apply Hraise. left. by eexists.
Defined.

(** C5, as the specification states it, fails on two kinds of records
    that [json.loads] delivers. A record whose altitude is [nan] is not at
    least the minimum of 100, so check (4) of the specification fails, yet
    [_passes_filters] returns [True], the record is in the accepted output
    and the low-altitude counter stays at 0. And in a batch of [ac1], which
    passes all five checks, and a record with a string as altitude, the call
    raises [TypeError]: there is no accepted output for [ac1] to be in. *)
Lemma C5_nan_altitude_accepted_string_altitude_raises :
  let self := @DataProcessor.init binary64 unit None in
  let out := process_aircraft_data self (Mapping [("n", nan_altitude)]) tt in
  Py.get nan_altitude "altitude" = PNaN
  ∧ Py.ge (Py.get nan_altitude "altitude") 100 = Ok false
  ∧ min_altitude (proc_filters self) = Some 100%Z
  ∧ spec_first_failing_check (proc_filters self) nan_altitude
    = Some AltitudeAtLeastMinimum
  ∧ (_passes_filters (proc_filters self) (proc_stats self) nan_altitude).2 = Ok true
  ∧ out.2 = Ok [nan_altitude]
  ∧ low_altitude_filtered (proc_stats out.1.1.1) = 0%Z
  ∧ filtered_aircraft (proc_stats out.1.1.1) = 1%Z
  ∧ spec_passes_all_checks (proc_filters self) ac1 = true
  ∧ (process_aircraft_data self (Mapping [("a", ac1); ("s", string_altitude)]) tt).2
    = Raise TypeError.
Proof. cbv zeta. repeat split; vm_compute; reflexivity. Qed.

Lemma C7_cache_eviction_witness :
  let self := update_aircraft_data (KMZ.init 1 15) [ac2] 90 in
  let self' := update_aircraft_data self [ac1; ac1_moved] 110 in
  reachable self
  ∧ Py.dict_get (aircraft_database self) (PStr "AC2") = Some 0
  ∧ Py.dict_get (aircraft_database self') (PStr "AC2") = None
  ∧ (0 ∉ get_current_aircraft self')
  ∧ Py.dict_wf (aircraft_database self')
  ∧ get_current_aircraft self' = [2]
  ∧ store self' !! 2
    = Some {| adshex := PStr "AC1"; lat := PNum 52; lon := PNum (-1 # 10);
              altitude := PNum 5000; vert_rate := PNum 0;
              heading := PNone; speed := PNone;
              last_seen_timestamp := 110; age_seconds := 0 |}
  ∧ lat <$> store self' !! 2 = Some (Py.get ac1_moved "lat")
  ∧ altitude <$> store self' !! 2
    = Some (Py.get_default ac1_moved "altitude" (PNum 0)).
Proof.
  cbv zeta.
  assert (Hreach : reachable (update_aircraft_data (KMZ.init 1 15) [ac2] 90))
    by apply reachable_update, reachable_init.
  split; [exact Hreach|]. split; [reflexivity|].
  pose proof (C7_cache_eviction _ [ac1; ac1_moved] 110 Hreach)
    as (_ & Hgone & _ & Hwf & Hlast).
  cbv zeta in Hgone, Hwf, Hlast.
  destruct (Hgone (PStr "AC2") 0 (minimal_aircraft (PStr "AC2") ac2 90))
    as [Hkey Href].
  { left. }
  { reflexivity. }
  { intros a Ha _. apply elem_of_cons in Ha as [->|Ha]; [reflexivity|].
    apply list_elem_of_singleton in Ha. subst a. reflexivity. }
  { reflexivity. }
  split; [exact Hkey|]. split; [exact Href|]. split; [exact Hwf|].
  split; [reflexivity|].
  assert (Hentry :
            store (update_aircraft_data
                     (update_aircraft_data (KMZ.init 1 15) [ac2] 90)
                     [ac1; ac1_moved] 110) !! 2
            = Some {| adshex := PStr "AC1"; lat := PNum 52; lon := PNum (-1 # 10);
                      altitude := PNum 5000; vert_rate := PNum 0;
                      heading := PNone; speed := PNone;
                      last_seen_timestamp := 110; age_seconds := 0 |})
    by reflexivity.
  split; [exact Hentry|].
  destruct (Hlast [ac1] ac1_moved [] eq_refl eq_refl) with (l := 2)
    (e := {| adshex := PStr "AC1"; lat := PNum 52; lon := PNum (-1 # 10);
             altitude := PNum 5000; vert_rate := PNum 0;
             heading := PNone; speed := PNone;
             last_seen_timestamp := 110; age_seconds := 0 |})
    as (_ & Hlat & _ & Halt & _).
  { intros a' Ha'. by inversion Ha'. }
  { reflexivity. }
  { exact Hentry. }
  rewrite Hentry. cbn [fmap option_fmap option_map lat altitude].
  split; [by rewrite <- Hlat|by rewrite <- Halt].
Defined.

Lemma C8_consumer_isolation_witness :
  let failing : @callback nat :=
    λ _ w, (w + 1, Some (OtherException "consumer failed")) in
  let counting : @callback nat :=
    λ accepted w, (w + 10 * length accepted, None) in
  let self :=
    add_callback (add_callback (@DataProcessor.init binary64 nat None) failing)
                 counting in
  let items := [("a", ac1); ("b", grounded); ("c", ac2)] in
  let out := process_aircraft_data self (Mapping items) 0 in
  Forall altitude_numeric (map snd items)
  ∧ out.2 = Ok [ac1; ac2]
  ∧ map callee out.1.2 = [0; 1]
  ∧ Forall (λ ev, argument ev = [ac1; ac2]) out.1.2
  ∧ out.1.1.2 = 21.
Proof.
  cbv zeta.
  set (self := add_callback
                 (add_callback (@DataProcessor.init binary64 nat None)
                    (λ _ w, (w + 1, Some (OtherException "consumer failed"))))
                 (λ accepted w, (w + 10 * length accepted, None))).
  set (items := [("a", ac1); ("b", grounded); ("c", ac2)]).
  set (out := process_aircraft_data self (Mapping items) 0).
  assert (Hnum : Forall altitude_numeric (map snd items))
    by (repeat constructor; intros s; vm_compute; discriminate).
  assert (Hcall : process_aircraft_data self (Mapping items) 0
                  = (out.1.1.1, out.1.1.2, out.1.2, out.2))
    by reflexivity.
  destruct (C8_consumer_isolation (H := binary64) _ _ _ _ _ _ _ Hcall)
    as (Hok & _ & Hret).
  cbv zeta in Hok.
  assert (Hord : Forall altitude_ordered (map snd items))
    by (repeat constructor; vm_compute; discriminate).
  destruct (Hret Hnum) as (accepted & Hr & Hspec).
  rewrite (Hspec Hord) in Hr. clear Hspec.
  change (out.2 = Ok [ac1; ac2]) in Hr.
  destruct (Hok [ac1; ac2] Hr) as [Hsome _].
  destruct Hsome as (Hcallee & Harg & _ & Hw); [discriminate|].
  split; [exact Hnum|]. split; [exact Hr|]. split; [exact Hcallee|].
  split; [exact Harg|exact Hw].
Defined.

Lemma C9_decode_error_containment_witness :
  let gzip_decompress : list byte → option (list byte) :=
    λ frame, match frame with [x1f; x8b; x01] => Some [x41] | _ => None end in
  let json_loads : list byte → option payload :=
    λ data, match data with [x41] => Some (Mapping [("a", ac1)]) | _ => None end in
  let counting : @callback nat := λ accepted w, (w + length accepted, None) in
  let p := add_callback (@DataProcessor.init binary64 nat None) counting in
  let corrupt := [x1f; x8b; x08; x00] in
  let out :=
    process_frames gzip_decompress json_loads (Some p) 0
                   [corrupt; [x41]; [x1f; x8b; x01]] in
  decode_fails gzip_decompress json_loads corrupt
  ∧ process_frame gzip_decompress json_loads (Some p) 0 corrupt
    = (Some p, 0, [], None)
  ∧ (payloads_processed ∘ proc_stats) <$> out.1.1.1 = Some 2%Z
  ∧ (filtered_aircraft ∘ proc_stats) <$> out.1.1.1 = Some 2%Z
  ∧ out.1.1.2 = 2
  ∧ map argument out.1.2 = [[ac1]; [ac1]]
  ∧ out.2 = None.
Proof.
  cbv zeta.
  set (gzip_decompress := λ frame : list byte,
         match frame with [x1f; x8b; x01] => Some [x41] | _ => None end).
  set (json_loads := λ data : list byte,
         match data with [x41] => Some (Mapping [("a", ac1)]) | _ => None end).
  set (p := add_callback (@DataProcessor.init binary64 nat None)
                         (λ accepted w, (w + length accepted, None))).
  assert (Hfails : decode_fails gzip_decompress json_loads [x1f; x8b; x08; x00])
    by exact I.
  split; [exact Hfails|].
  destruct (C9_decode_error_containment (H := binary64) (W := nat)
              gzip_decompress json_loads (Some p) 0 [x1f; x8b; x08; x00] Hfails)
    as (Hframe & _ & _ & Hgood & _).
  split; [exact Hframe|].
  rewrite (Hgood p [x41] [x41] (Mapping [("a", ac1)]) [[x1f; x8b; x01]] eq_refl
             (or_introl (conj eq_refl eq_refl)) eq_refl eq_refl).
  repeat split; reflexivity.
Defined.

End Witnesses.

(** * Further properties *)

(** ** The framing codec on arbitrary buffers *)

Section CodecMore.
Import DLEProtocol.

Lemma inner_loop_fuel_mono (fuel fuel' : nat) (buffer : list byte) (j : nat)
      (fd : list byte) :
  inner_loop fuel buffer j fd ≠ InnerOutOfFuel → fuel ≤ fuel' →
  inner_loop fuel' buffer j fd = inner_loop fuel buffer j fd.
Proof.
  revert fuel' j fd. induction fuel as [|fuel IH]; intros fuel' j fd Hr Hle; [done|].
  destruct fuel' as [|fuel']; [lia|]. cbn [inner_loop] in *.
  destruct (j <? length buffer - 1); [|done].
  destruct (inner_body buffer j fd) as [i' fd'|j' fd']; [done|].
  apply IH; [done|lia].
Qed.

Lemma outer_loop_fuel_mono (fuel fuel' : nat) (buffer : list byte) (i : nat)
      (frames : list (list byte)) (r : list (list byte) * list byte) :
  outer_loop fuel buffer i frames = Some r → fuel ≤ fuel' →
  outer_loop fuel' buffer i frames = Some r.
Proof.
  revert fuel' i frames. induction fuel as [|fuel IH]; intros fuel' i frames Hr Hle;
    [done|].
  destruct fuel' as [|fuel']; [lia|]. cbn [outer_loop] in *.
  destruct (i <? length buffer - 1); [|done].
  destruct (Byte.eqb (at_index buffer i) DLE && Byte.eqb (at_index buffer (i + 1)) STX).
  - destruct (inner_loop (S (length buffer)) buffer (i + 2) []); [|done..].
    apply IH; [done|lia].
  - apply IH; [done|lia].
Qed.

(** Whatever fuel lets the outer loop end gives the result of
    [extract_frames]. *)
Lemma extract_frames_by_fuel (fuel : nat) (buffer : list byte)
      (r : list (list byte) * list byte) :
  outer_loop fuel buffer 0 [] = Some r → extract_frames buffer = r.
Proof.
  intros Hr. pose proof (extract_frames_total buffer) as Htotal.
  unfold extract_frames_fuel in Htotal.
  apply (outer_loop_fuel_mono _ (fuel + S (length buffer))) in Hr; [|lia].
  apply (outer_loop_fuel_mono _ (fuel + S (length buffer))) in Htotal; [|lia].
  congruence.
Qed.

(** The outer loop steps over bytes that hold no start marker, up to the
    start marker that follows them or to the end of the buffer. *)
Lemma outer_loop_noise (noise : list byte) :
  ∀ (fuel : nat) (pre rest : list byte) (frames : list (list byte)),
    has_start_marker noise = false →
    (rest = [] ∨ ∃ rest', rest = DLE :: rest') →
    0 < fuel →
    outer_loop (length noise + fuel) (pre ++ noise ++ rest) (length pre) frames
    = outer_loop fuel (pre ++ noise ++ rest) (length pre + length noise) frames.
Proof.
  induction noise as [|x noise IH]; intros fuel pre rest frames Hnoise Hrest Hfuel.
  - cbn. by rewrite Nat.add_0_r.
  - cbn [length Nat.add app outer_loop].
    destruct (noise ++ rest) as [|y tl] eqn:Htl.
    + apply app_eq_nil in Htl as [-> ->].
      replace (length pre <? length (pre ++ [x]) - 1) with false
        by (symmetry; apply Nat.ltb_ge; rewrite length_app; cbn; lia).
      destruct fuel as [|fuel]; [lia|]. symmetry. apply outer_loop_end.
      rewrite length_app. cbn. lia.
    + rewrite inner_cond_app, at_index_app, at_index_app_next.
      assert (Hpair : Byte.eqb x DLE && Byte.eqb y STX = false
                      ∧ has_start_marker noise = false).
      { destruct noise as [|y' noise'].
        - cbn in Htl. destruct Hrest as [->|[rest' ->]]; [done|].
          injection Htl as <- _. split; [|done].
          by destruct (Byte.eqb x DLE).
        - cbn in Htl. injection Htl as -> _. cbn [has_start_marker] in Hnoise.
          by apply orb_false_iff in Hnoise. }
      destruct Hpair as [-> Hnoise']. rewrite <- Htl.
      replace (pre ++ x :: noise ++ rest) with ((pre ++ [x]) ++ noise ++ rest)
        by (by rewrite <- app_assoc).
      replace (length pre + 1) with (length (pre ++ [x]))
        by (rewrite length_app; cbn; lia).
      rewrite IH by done. rewrite length_app. cbn. f_equal. lia.
Qed.

Lemma noisy_stream_cons (noise p : list byte) (items : list (list byte * list byte)) :
  noisy_stream ((noise, p) :: items) = noise ++ encode_frame p ++ noisy_stream items.
Proof. unfold noisy_stream. cbn. by rewrite <- app_assoc. Qed.

(** The outer loop over frames with noise before each of them. *)
Lemma outer_loop_noisy (items : list (list byte * list byte)) :
  ∀ (pre rest : list byte) (frames : list (list byte)) (fuel : nat),
    Forall (λ item, has_start_marker item.1 = false) items →
    0 < fuel →
    ∃ steps,
      outer_loop (steps + fuel) (pre ++ noisy_stream items ++ rest) (length pre) frames
      = outer_loop fuel (pre ++ noisy_stream items ++ rest)
                   (length pre + length (noisy_stream items))
                   (frames ++ map snd items).
Proof.
  induction items as [|[noise p] items IH]; intros pre rest frames fuel Hitems Hfuel.
  - exists 0. cbn. by rewrite Nat.add_0_r, app_nil_r.
  - inversion Hitems as [|? ? Hnoise Hitems']; subst. cbn [fst] in Hnoise.
    destruct (IH (pre ++ noise ++ encode_frame p) rest (frames ++ [p]) fuel
                 Hitems' Hfuel) as [steps Hsteps].
    exists (length noise + S steps).
    rewrite noisy_stream_cons. rewrite <- !app_assoc.
    replace (length noise + S steps + fuel) with (length noise + S (steps + fuel))
      by lia.
    rewrite outer_loop_noise; [|done|right; by eexists|lia].
    replace (pre ++ noise ++ encode_frame p ++ noisy_stream items ++ rest)
      with ((pre ++ noise) ++ encode_frame p ++ noisy_stream items ++ rest)
      by (by rewrite <- app_assoc).
    rewrite <- length_app, outer_loop_frame.
    rewrite <- !app_assoc in Hsteps |- *. rewrite <- length_app, <- app_assoc.
    rewrite <- app_assoc in Hsteps. rewrite Hsteps.
    rewrite !length_app. cbn [map snd]. rewrite <- app_assoc. cbn [app].
    f_equal. lia.
Qed.

(** Noise is discarded: frames with bytes before each of them and behind
    the last, none of these bytes holding a start marker, decode to the
    frames, and nothing is kept of the noise, not even of its end. *)
Theorem extract_frames_discards_noise (items : list (list byte * list byte))
        (tail : list byte) :
  Forall (λ item, has_start_marker item.1 = false) items →
  has_start_marker tail = false →
  extract_frames (noisy_stream items ++ tail) = (map snd items, []).
Proof.
  intros Hitems Htail.
  destruct (outer_loop_noisy items [] tail [] (length tail + 1) Hitems) as [steps Hsteps];
    [lia|].
  cbn [app length Nat.add] in Hsteps.
  apply (extract_frames_by_fuel (steps + (length tail + 1))).
  rewrite Hsteps.
  pose proof (outer_loop_noise tail 1 (noisy_stream items) [] (map snd items) Htail)
    as Hnoise.
  rewrite app_nil_r in Hnoise. rewrite Hnoise; [|by left|lia].
  apply outer_loop_end. rewrite length_app. lia.
Qed.

Lemma wire_size_app (frames : list (list byte)) (frame : list byte) :
  wire_size (frames ++ [frame]) = wire_size frames + length frame + 4.
Proof.
  induction frames as [|f frames IH]; cbn; [lia|].
  unfold wire_size in IH. rewrite IH. lia.
Qed.

(** A frame that the inner loop completes took, on the wire, at least its
    payload and its end marker. *)
Lemma inner_loop_cost (fuel : nat) (buffer : list byte) (j : nat)
      (fd : list byte) (i' : nat) (fd' : list byte) :
  inner_loop fuel buffer j fd = Break i' fd' →
  j + 2 + length fd' ≤ i' + length fd ∧ i' ≤ length buffer.
Proof.
  revert j fd. induction fuel as [|fuel IH]; intros j fd; [done|].
  cbn [inner_loop]. destruct (j <? length buffer - 1) eqn:Hj; [|done].
  apply Nat.ltb_lt in Hj. unfold inner_body.
  repeat match goal with
         | |- context [if ?c then _ else _] => destruct c
         end.
  - intros [= <- <-]. lia.
  - intros Hr. apply IH in Hr. rewrite length_app in Hr. cbn in Hr. lia.
  - intros Hr. apply IH in Hr. rewrite length_app in Hr. cbn in Hr. lia.
  - intros Hr. apply IH in Hr. rewrite length_app in Hr. cbn in Hr. lia.
Qed.

Lemma outer_loop_cost (fuel : nat) (buffer : list byte) (i : nat)
      (frames frames' : list (list byte)) (rem : list byte) :
  outer_loop fuel buffer i frames = Some (frames', rem) →
  i ≤ length buffer →
  wire_size frames' + length rem + i ≤ wire_size frames + length buffer
  ∧ ∃ consumed, buffer = consumed ++ rem.
Proof.
  revert i frames. induction fuel as [|fuel IH]; intros i frames; [done|].
  cbn [outer_loop]. destruct (i <? length buffer - 1) eqn:Hi.
  - apply Nat.ltb_lt in Hi.
    destruct (Byte.eqb (at_index buffer i) DLE && Byte.eqb (at_index buffer (i + 1)) STX).
    + destruct (inner_loop (S (length buffer)) buffer (i + 2) []) as [i' fd| |] eqn:Hin;
        [| |done].
      * apply inner_loop_cost in Hin as [Hcost Hle]. cbn in Hcost.
        intros Hr _. apply IH in Hr as [Hr Hsuffix]; [|done].
        unfold unstuff_data in Hr. rewrite wire_size_app in Hr.
        split; [lia|done].
      * intros [= <- <-] Hle. rewrite length_drop. split; [lia|].
        exists (take i buffer). by rewrite take_drop.
    + intros Hr _. apply IH in Hr as [Hr Hsuffix]; [|lia]. split; [lia|done].
  - intros [= <- <-] Hle. split; [cbn; lia|].
    exists buffer. by rewrite app_nil_r.
Qed.

(** The codec never delivers more than it was given: the frames it returns
    and the remainder together take no more bytes than the buffer (each
    frame counted with its payload and its two markers), and the remainder
    is the end of the buffer. *)
Theorem extract_frames_bounds (buffer : list byte) :
  wire_size (extract_frames buffer).1 + length (extract_frames buffer).2
  ≤ length buffer
  ∧ ∃ consumed, buffer = consumed ++ (extract_frames buffer).2.
Proof.
  pose proof (extract_frames_total buffer) as Htotal.
  destruct (extract_frames buffer) as [frames rem].
  apply outer_loop_cost in Htotal as [Hcost Hsuffix]; [|lia].
  change (wire_size []) with 0 in Hcost. cbn [fst snd]. split; [lia|done].
Qed.

Lemma at_index_drop (buffer : list byte) (i j : nat) :
  at_index (drop i buffer) j = at_index buffer (i + j).
Proof.
  unfold at_index. revert buffer. induction i as [|i IH]; intros buffer; [done|].
  destruct buffer as [|b buffer]; [by destruct j|]. cbn. apply IH.
Qed.

(** An unfinished frame is unfinished also when the buffer starts at its
    start marker. *)
Lemma inner_loop_drop (fuel : nat) (buffer : list byte) (i j : nat)
      (fd : list byte) :
  i ≤ length buffer →
  inner_loop fuel buffer (i + j) fd = Exhausted →
  inner_loop fuel (drop i buffer) j fd = Exhausted.
Proof.
  intros Hi. revert j fd. induction fuel as [|fuel IH]; intros j fd; [done|].
  cbn [inner_loop]. rewrite length_drop.
  replace (j <? length buffer - i - 1) with (i + j <? length buffer - 1).
  2:{ destruct (i + j <? length buffer - 1) eqn:H1; symmetry.
      - apply Nat.ltb_lt in H1. apply Nat.ltb_lt. lia.
      - apply Nat.ltb_ge in H1. apply Nat.ltb_ge. lia. }
  destruct (i + j <? length buffer - 1); [|done].
  unfold inner_body. rewrite !at_index_drop.
  replace (i + (j + 1)) with (i + j + 1) by lia.
  repeat match goal with
         | |- context [if ?c then _ else _] => destruct c
         end; try done.
  - replace (i + j + 2) with (i + (j + 2)) by lia. apply IH.
  - replace (i + j + 1) with (i + (j + 1)) by lia. apply IH.
  - replace (i + j + 1) with (i + (j + 1)) by lia. apply IH.
Qed.

(** Where a remainder comes from: the [else] clause of the inner loop. *)
Lemma outer_loop_remainder (fuel : nat) (buffer : list byte) (i0 : nat)
      (frames0 frames : list (list byte)) (rem : list byte) :
  outer_loop fuel buffer i0 frames0 = Some (frames, rem) →
  rem = []
  ∨ ∃ i, rem = drop i buffer ∧ i < length buffer - 1
         ∧ at_index buffer i = DLE ∧ at_index buffer (i + 1) = STX
         ∧ inner_loop (S (length buffer)) buffer (i + 2) [] = Exhausted.
Proof.
  revert i0 frames0. induction fuel as [|fuel IH]; intros i0 frames0; [done|].
  cbn [outer_loop]. destruct (i0 <? length buffer - 1) eqn:Hi.
  - apply Nat.ltb_lt in Hi.
    destruct (Byte.eqb (at_index buffer i0) DLE) eqn:H0;
      destruct (Byte.eqb (at_index buffer (i0 + 1)) STX) eqn:H1; cbn [andb];
      try apply IH.
    destruct (inner_loop (S (length buffer)) buffer (i0 + 2) []) eqn:Hin;
      [apply IH| |done].
    intros [= <- <-]. right. exists i0.
    apply Byte.byte_dec_bl in H0, H1. done.
  - intros [= <- <-]. by left.
Qed.

(** A remainder is stable: it is empty or begins with a start marker, and
    the codec run on the remainder alone finds no frame in it and hands the
    whole of it back. *)
Theorem extract_frames_remainder_stable (buffer : list byte) :
  let rem := (extract_frames buffer).2 in
  extract_frames rem = ([], rem)
  ∧ (rem = [] ∨ ∃ tl, rem = DLE :: STX :: tl).
Proof.
  cbv zeta. pose proof (extract_frames_total buffer) as Htotal.
  destruct (extract_frames buffer) as [frames rem]. cbn [snd].
  unfold extract_frames_fuel in Htotal.
  apply outer_loop_remainder in Htotal
    as [->|(i & -> & Hi & Hdle & Hstx & Hin)]; [split; [done|by left]|].
  assert (Hlen : length (drop i buffer) = length buffer - i) by apply length_drop.
  assert (Hin' : inner_loop (S (length (drop i buffer))) buffer (i + 2) [] = Exhausted).
  { destruct (inner_loop_fuel (S (length (drop i buffer))) buffer (i + 2) [])
      as [Hex|(i' & fd' & Hbr & _)]; [lia|done|].
    rewrite (inner_loop_fuel_mono (S (length (drop i buffer))) (S (length buffer)))
      in Hin; [congruence|by rewrite Hbr|lia]. }
  split.
  - apply (extract_frames_by_fuel 1). cbn [outer_loop Nat.add].
    replace (0 <? length (drop i buffer) - 1) with true
      by (symmetry; apply Nat.ltb_lt; lia).
    rewrite !at_index_drop, !Nat.add_0_r, Hdle, Hstx.
    change (Byte.eqb DLE DLE && Byte.eqb STX STX) with true. cbv iota.
    rewrite inner_loop_drop; [done|lia|done].
  - right.
    destruct (drop i buffer) as [|x [|y tl]] eqn:Hdrop; [cbn in Hlen; lia..|].
    exists tl.
    pose proof (at_index_drop buffer i 0) as H0.
    pose proof (at_index_drop buffer i 1) as H1.
    rewrite Hdrop, Nat.add_0_r in H0. rewrite Hdrop in H1. cbn in H0, H1.
    congruence.
Qed.

End CodecMore.

(** ** The statistics and the errors of the filter engine *)

Section ProcessorMore.
Import DataProcessor.
Context `{PyFloat} {W : Type}.

(** One record moves at most one rejection counter by one, and none when
    it passes. *)
Lemma passes_filters_account (flt : filters) (st : stats) (a : aircraft) :
  let st' := (_passes_filters flt st a).1 in
  let r := (_passes_filters flt st a).2 in
  (ground_filtered st' + low_altitude_filtered st'
   ≤ ground_filtered st + low_altitude_filtered st + 1)%Z
  ∧ (r = Ok true →
     (ground_filtered st' + low_altitude_filtered st'
      = ground_filtered st + low_altitude_filtered st)%Z).
Proof.
  cbv zeta. unfold _passes_filters.
  repeat match goal with
         | |- context [if ?c then _ else _] => destruct c
         | |- context [match ?c with Ok _ => _ | Raise _ => _ end] => destruct c
         end; cbn; split; try done; lia.
Qed.

Lemma filter_loop_account (flt : filters) (l : list aircraft) (st : stats)
      (acc : list aircraft) :
  let st' := (filter_loop flt st l acc).1 in
  (ground_filtered st' + low_altitude_filtered st'
   + match (filter_loop flt st l acc).2 with
     | Ok acc' => Z.of_nat (length acc')
     | Raise _ => Z.of_nat (length acc)
     end
   ≤ ground_filtered st + low_altitude_filtered st
     + Z.of_nat (length acc) + Z.of_nat (length l))%Z.
Proof.
  cbv zeta. revert st acc. induction l as [|a l IH]; intros st acc.
  - cbn. lia.
  - cbn [filter_loop length].
    pose proof (passes_filters_account flt st a) as [Hone Hpass]. cbv zeta in *.
    destruct (_passes_filters flt st a) as [st1 [[]|e]]; cbn [fst snd] in *.
    + specialize (IH st1 (acc ++ [a])). rewrite length_app in IH. cbn in IH.
      specialize (Hpass eq_refl).
      destruct (filter_loop flt st1 l (acc ++ [a])) as [st2 [acc2|e2]];
        cbn [fst snd] in *; lia.
    + specialize (IH st1 acc).
      destruct (filter_loop flt st1 l acc) as [st2 [acc2|e2]];
        cbn [fst snd] in *; lia.
    + lia.
Qed.

Lemma process_aircraft_data_accounted (self : processor) (b : payload) (w : W) :
  accounted (proc_stats self) →
  let self' := (process_aircraft_data self b w).1.1.1 in
  accounted (proc_stats self')
  ∧ payloads_processed (proc_stats self')
    = (payloads_processed (proc_stats self) + 1)%Z
  ∧ current_filters (proc_stats self') = current_filters (proc_stats self)
  ∧ proc_filters self' = proc_filters self.
Proof.
  intros (Hpay & Hf & Hg & Hl & Hsum). cbv zeta.
  unfold process_aircraft_data. destruct b as [items|truth].
  - pose proof (filter_loop_rejections_only (proc_filters self) (map snd items)
                  (add_total (Z.of_nat (length (map snd items)))
                             (incr_payloads (proc_stats self))) []) as Hrej.
    pose proof (filter_loop_account (proc_filters self) (map snd items)
                  (add_total (Z.of_nat (length (map snd items)))
                             (incr_payloads (proc_stats self))) []) as Hacc.
    cbv zeta in Hacc.
    destruct (filter_loop _ _ _ _) as [st3 [accepted|e]]; cbn [fst snd] in *;
      destruct Hrej as (Hp3 & Ht3 & Hf3 & _ & Hc3 & Hg3 & Hl3); cbn in *.
    + assert (Hst : ∀ st, st = recompute_pass_rate
                               (add_filtered (Z.of_nat (length accepted)) st3) →
                          accounted st
                          ∧ payloads_processed st
                            = (payloads_processed (proc_stats self) + 1)%Z
                          ∧ current_filters st = current_filters (proc_stats self)).
      { intros st ->. unfold accounted, recompute_pass_rate.
        destruct (0 <? _)%Z; cbn; repeat split; try done; lia. }
      destruct accepted; [cbn; by destruct (Hst _ eq_refl) as (? & ? & ?)|].
      destruct (callbacks self); [cbn; by destruct (Hst _ eq_refl) as (? & ? & ?)|].
      destruct (notify _ _ _ _). cbn. by destruct (Hst _ eq_refl) as (? & ? & ?).
    + unfold accounted. cbn. repeat split; try done; lia.
  - unfold accounted. cbn. repeat split; try done; lia.
Qed.

(** The statistics add up after every use of a processor: no counter is
    negative, the records passed and the records counted as rejected (on
    the ground, too low) are together at most the records seen, the batch
    counter counts the calls of [process_aircraft_data], also those that
    raised, and the filters reported in the statistics are the filters in
    force. *)
Theorem processor_statistics_add_up (flt0 : option filters) (w0 : W)
        (ops : list operation) :
  let final := (run_operations (init flt0, w0) ops).1 in
  accounted (proc_stats final)
  ∧ payloads_processed (proc_stats final) = Z.of_nat (count_batches ops)
  ∧ current_filters (proc_stats final) = proc_filters final.
Proof.
  cbv zeta.
  assert (Hgen : ∀ (st : processor * W),
             accounted (proc_stats st.1) →
             current_filters (proc_stats st.1) = proc_filters st.1 →
             accounted (proc_stats (run_operations st ops).1)
             ∧ payloads_processed (proc_stats (run_operations st ops).1)
               = (payloads_processed (proc_stats st.1)
                  + Z.of_nat (count_batches ops))%Z
             ∧ current_filters (proc_stats (run_operations st ops).1)
               = proc_filters (run_operations st ops).1).
  { induction ops as [|op ops IH]; intros st Hacc Hflt.
    - cbn [run_operations fold_left]. split; [done|]. split; [|done].
      unfold count_batches. cbn. lia.
    - cbn [run_operations fold_left]. fold (run_operations (run_operation st op) ops).
      destruct st as [self w]. destruct op as [b|f|cb]; cbn [run_operation].
      + pose proof (process_aircraft_data_accounted self b w Hacc)
          as (Hacc' & Hpay & Hcur & Hpf). cbv zeta in *.
        destruct (process_aircraft_data self b w) as [[[self' w'] events] r].
        cbn [fst] in *.
        destruct (IH (self', w')) as (H1 & H2 & H3); [done|cbn; congruence|].
        split; [done|]. split; [|done].
        rewrite H2. unfold count_batches. cbn [List.filter length fst]. lia.
      + destruct (IH (update_filters self f, w)) as (H1 & H2 & H3); [done|done|].
        split; [done|]. split; [|done]. rewrite H2. done.
      + destruct (IH (add_callback self cb, w)) as (H1 & H2 & H3); [done|done|].
        split; [done|]. split; [|done]. rewrite H2. done. }
  destruct (Hgen (init flt0, w0)) as (H1 & H2 & H3).
  - unfold accounted. cbn. lia.
  - done.
  - split; [done|]. split; [|done]. rewrite H2. cbn. lia.
Qed.

Lemma filter_loop_app (flt : filters) (l1 l2 : list aircraft) (st : stats)
      (acc : list aircraft) :
  filter_loop flt st (l1 ++ l2) acc
  = match filter_loop flt st l1 acc with
    | (st1, Ok acc1) => filter_loop flt st1 l2 acc1
    | (st1, Raise e) => (st1, Raise e)
    end.
Proof.
  revert st acc. induction l1 as [|a l1 IH]; intros st acc; [done|].
  cbn [app filter_loop].
  destruct (_passes_filters flt st a) as [st1 [[]|e]]; [apply IH..|done].
Qed.

(** One malformed record loses the batch: a record with coordinates, not on
    the ground and with a string as altitude makes [process_aircraft_data]
    raise [TypeError] when a threshold is configured. No consumer is
    invoked, also not for the records before it that had passed; the
    records-passed counter and the pass rate stay as they were, while the
    batch counter and the records-seen counter have already moved. *)
Theorem string_altitude_loses_batch (self : processor)
        (before after : list (string * aircraft)) (key : string) (bad : aircraft)
        (s : string) (w : W) :
  Py.get bad "lat" ≠ PNone → Py.get bad "lon" ≠ PNone →
  Py.truthy (Py.get_default bad "is_on_ground" (PBool false)) = false →
  Py.get bad "altitude" = PStr s →
  (is_Some (min_altitude (proc_filters self))
   ∨ is_Some (max_altitude (proc_filters self))) →
  ∃ st',
    process_aircraft_data self (Mapping (before ++ (key, bad) :: after)) w
    = (with_stats self st', w, [], Raise TypeError)
    ∧ filtered_aircraft st' = filtered_aircraft (proc_stats self)
    ∧ filter_pass_rate st' = filter_pass_rate (proc_stats self)
    ∧ total_aircraft st'
      = (total_aircraft (proc_stats self)
         + Z.of_nat (length (before ++ (key, bad) :: after)))%Z
    ∧ payloads_processed st' = (payloads_processed (proc_stats self) + 1)%Z.
Proof.
  intros Hlat Hlon Hground Halt Hthreshold.
  unfold process_aircraft_data.
  set (st2 := add_total _ _).
  assert (Hraise : (_passes_filters (proc_filters self) st2 bad).2 = Raise TypeError).
  { unfold _passes_filters. apply is_None_false in Hlat, Hlon.
    rewrite Hlat, Hlon, Hground, Halt. cbn.
    unfold below_min, above_max, Py.lt, Py.gt. cbn.
    destruct Hthreshold as [[m ->]|[m ->]]; [done|].
    by destruct (min_altitude (proc_filters self)). }
  assert (Hin : bad ∈ map snd (before ++ (key, bad) :: after)).
  { rewrite map_app. apply elem_of_app. right. left. }
  pose proof (filter_loop_raises (proc_filters self) _ bad st2 [] Hin Hraise)
    as Hloop.
  pose proof (filter_loop_rejections_only (proc_filters self)
                (map snd (before ++ (key, bad) :: after)) st2 []) as Hrej.
  destruct (filter_loop _ _ _ _) as [st3 r]. cbn [fst snd] in *. subst r.
  exists st3. split; [done|].
  destruct Hrej as (Hp & Ht & Hf & Hr & _).
  rewrite Hp, Ht, Hf, Hr. unfold st2. cbn. by rewrite length_map.
Qed.

End ProcessorMore.

(** ** The pass rate *)

Section Binary64Facts.
Import Binary64.

Lemma round_half_even_spec (n d : Z) :
  (0 < d)%Z →
  (- d ≤ 2 * (round_half_even n d * d - n) ≤ d)%Z.
Proof.
  intros Hd. unfold round_half_even. cbv zeta.
  pose proof (Z.div_mod n d ltac:(lia)) as Hdm.
  pose proof (Z.mod_pos_bound n d Hd) as Hr.
  set (q := (n / d)%Z) in *. set (r := (n mod d)%Z) in *.
  clearbody q r.
  assert (Hq : ((q + 1) * d = d * q + d)%Z) by ring.
  assert (Hq' : (q * d = d * q)%Z) by ring.
  destruct (2 * r ?= d)%Z eqn:Hc.
  - apply Z.compare_eq in Hc. destruct (Z.even q); lia.
  - rewrite Z.compare_lt_iff in Hc. lia.
  - rewrite Z.compare_gt_iff in Hc. lia.
Qed.

(** Rounding to an integer moves a number by one half at most. *)
Lemma round_to_integer_spec (y : Q) :
  (- (1 # 2) <= inject_Z (round_to_integer y) - y)%Q
  ∧ (inject_Z (round_to_integer y) - y <= 1 # 2)%Q.
Proof.
  unfold round_to_integer.
  pose proof (round_half_even_spec (Qnum y) (Zpos (Qden y)) ltac:(lia)) as Hm.
  set (m := round_half_even _ _) in *. destruct y as [n d]. cbn [Qnum Qden] in *.
  unfold Qle, Qminus, Qplus, Qopp, inject_Z. cbn. lia.
Qed.

Lemma round_to_integer_nonneg (y : Q) : (0 <= y)%Q → (0 ≤ round_to_integer y)%Z.
Proof.
  intros Hy. unfold round_to_integer, round_half_even. cbv zeta.
  assert (Hn : (0 ≤ Qnum y)%Z) by (unfold Qle in Hy; cbn in Hy; lia).
  pose proof (Z.div_pos (Qnum y) (Z.pos (Qden y)) Hn ltac:(lia)) as Hq.
  destruct (_ ?= _)%Z; [destruct (Z.even _)|..]; lia.
Qed.

Lemma pow2_pos (e : Z) : (0 < 2 ^ e)%Q.
Proof. by apply Qpower_0_lt. Qed.

Lemma pow2_cancel (e : Z) : (2 ^ (- e) * 2 ^ e == 1)%Q.
Proof.
  rewrite <- Qpower_plus by done. by replace (- e + e)%Z with 0%Z by lia.
Qed.

(** The error of rounding to the nearest number is at most half a unit
    in the last place. *)
Lemma nearest_pos_error (x : Q) :
  (- ((1 # 2) * 2 ^ exponent x) <= nearest_pos x - x)%Q
  ∧ (nearest_pos x - x <= (1 # 2) * 2 ^ exponent x)%Q.
Proof.
  unfold nearest_pos. set (e := exponent x).
  pose proof (round_to_integer_spec (x * 2 ^ (- e))) as [Hlo Hhi].
  set (m := inject_Z (round_to_integer (x * 2 ^ (- e)))) in *.
  pose proof (pow2_pos e) as Hpos. pose proof (pow2_cancel e) as Hcancel.
  set (P := (2 ^ e)%Q) in *. set (P' := (2 ^ (- e))%Q) in *.
  assert (Hx : (x == x * P' * P)%Q).
  { rewrite <- Qmult_assoc, Hcancel. ring. }
  assert (H1 : (- (1 # 2) * P <= (m - x * P') * P)%Q)
    by (apply Qmult_le_compat_r; [done|by apply Qlt_le_weak]).
  assert (H2 : ((m - x * P') * P <= (1 # 2) * P)%Q)
    by (apply Qmult_le_compat_r; [done|by apply Qlt_le_weak]).
  clearbody m P P'. split; lra.
Qed.

Lemma floor_log2_le (x : Q) : (0 < x)%Q → (2 ^ floor_log2 x <= x)%Q.
Proof.
  intros Hx. unfold floor_log2.
  set (a := Z.log2 (Qnum x)). set (b := Z.log2 (Z.pos (Qden x))).
  destruct (Qle_bool (2 ^ (a - b)) x) eqn:Hle; [by apply Qle_bool_iff|].
  clear Hle. destruct x as [n d]. cbn [Qnum Qden] in *.
  assert (Hn : (0 < n)%Z).
  { unfold Qlt in Hx. cbn in Hx. lia. }
  pose proof (Z.log2_spec n Hn) as [Ha _].
  pose proof (Z.log2_spec (Z.pos d) ltac:(lia)) as [_ Hb].
  pose proof (Z.log2_nonneg n) as Ha0.
  pose proof (Z.log2_nonneg (Z.pos d)) as Hb0.
  fold a in Ha, Ha0. fold b in Hb, Hb0.
  replace (a - b - 1)%Z with (a - Z.succ b)%Z by lia.
  rewrite Qpower_minus by done.
  assert (HA' : (2 ^ a == inject_Z (2 ^ a))%Q)
    by (symmetry; apply (Zpower_Qpower 2 a); lia).
  assert (HB' : (2 ^ Z.succ b == inject_Z (2 ^ Z.succ b))%Q)
    by (symmetry; apply (Zpower_Qpower 2 (Z.succ b)); lia).
  rewrite HA', HB'.
  assert (HB : (0 < 2 ^ Z.succ b)%Z) by (apply Z.pow_pos_nonneg; lia).
  assert (HA : (0 < 2 ^ a)%Z) by (apply Z.pow_pos_nonneg; lia).
  set (A := (2 ^ a)%Z) in *. set (B := (2 ^ Z.succ b)%Z) in *.
  apply Qle_shift_div_r; [unfold Qlt; cbn; lia|].
  unfold Qle, Qmult, inject_Z. cbn. nia.
Qed.

Lemma floor_log2_bound (x : Q) (k : Z) :
  (0 < x)%Q → (x < 2 ^ (k + 1))%Q → (floor_log2 x ≤ k)%Z.
Proof.
  intros Hx Hk. pose proof (floor_log2_le x Hx) as Hle.
  destruct (Z_le_gt_dec (floor_log2 x) k) as [|Hgt]; [done|].
  exfalso. apply (Qlt_irrefl x).
  eapply Qlt_le_trans; [exact Hk|].
  eapply Qle_trans; [|exact Hle].
  apply Qpower_le_compat_l; [lia|done].
Qed.

(** Rounding a number below [2 ^ (k + 1)] moves it by [2 ^ (k - 53)] at
    most, in the range where binary64 has its full precision. *)
Lemma nearest_error (x : Q) (k : Z) :
  (0 <= x)%Q → (x < 2 ^ (k + 1))%Q → (-1022 ≤ k)%Z →
  (- 2 ^ (k - 53) <= nearest x - x)%Q ∧ (nearest x - x <= 2 ^ (k - 53))%Q.
Proof.
  intros Hx Hk Hrange. pose proof (pow2_pos (k - 53)) as Hpos.
  unfold nearest. destruct x as [[|n|n] d] eqn:Heq; cbn [Qnum].
  - assert (H0 : (0 # d == 0)%Q) by done. rewrite H0. split; lra.
  - rewrite <- Heq in *.
    assert (Hxpos : (0 < x)%Q) by (rewrite Heq; done).
    pose proof (nearest_pos_error x) as [Hlo Hhi].
    pose proof (floor_log2_bound x k Hxpos Hk) as Hfl.
    assert (He : ((1 # 2) * 2 ^ exponent x <= 2 ^ (k - 53))%Q).
    { replace (k - 53)%Z with (-1 + (k - 52))%Z by lia.
      rewrite Qpower_plus by done.
      change (2 ^ (-1))%Q with (1 # 2)%Q.
      apply Qmult_le_l; [done|].
      apply Qpower_le_compat_l; [|done]. unfold exponent. lia. }
    split; lra.
  - exfalso. unfold Qle in Hx. cbn in Hx. lia.
Qed.

Lemma nearest_nonneg (x : Q) : (0 <= x)%Q → (0 <= nearest x)%Q.
Proof.
  intros Hx. unfold nearest. destruct x as [[|n|n] d] eqn:Heq; cbn [Qnum].
  - done.
  - rewrite <- Heq in *. unfold nearest_pos.
    apply Qmult_le_0_compat; [|apply Qlt_le_weak, pow2_pos].
    change 0%Q with (inject_Z 0). rewrite <- Zle_Qle.
    apply round_to_integer_nonneg.
    apply Qmult_le_0_compat; [done|apply Qlt_le_weak, pow2_pos].
  - exfalso. unfold Qle in Hx. cbn in Hx. lia.
Qed.

(** [round((f / t) * 100, 1)] for [0 <= f <= t]: the float nearest to a
    number of tenths [T / 10] between 0 and 100 that lies within
    [0.05 + 2 ^ -45] of the exact percentage. *)
Lemma pass_rate_accuracy (f t : Z) :
  (0 ≤ f ≤ t)%Z → (0 < t)%Z →
  ∃ T : Z,
    (0 ≤ T ≤ 1000)%Z
    ∧ pass_rate f t = nearest (T # 10)
    ∧ (- ((1 # 20) + (1 # 35184372088832))
       <= (T # 10) - 100 * (inject_Z f / inject_Z t))%Q
    ∧ ((T # 10) - 100 * (inject_Z f / inject_Z t)
       <= (1 # 20) + (1 # 35184372088832))%Q.
Proof.
  intros Hf Ht. unfold pass_rate, round1, float_mul, int_truediv.
  set (x0 := (inject_Z f / inject_Z t)%Q).
  assert (H0 : (0 <= x0)%Q ∧ (x0 <= 1)%Q).
  { unfold x0. destruct t as [|p|p]; [lia| |lia].
    rewrite <- Qmake_Qdiv. unfold Qle. cbn. lia. }
  destruct H0 as [H0 H1].
  pose proof (nearest_error x0 0 H0) as [Hlo1 Hhi1];
    [change (2 ^ (0 + 1))%Q with 2%Q; lra|lia|].
  change (2 ^ (0 - 53))%Q with (1 # 9007199254740992)%Q in Hlo1, Hhi1.
  pose proof (nearest_nonneg x0 H0) as Hx1.
  set (x1 := nearest x0) in *.
  assert (Hy0 : (0 <= x1 * 100)%Q) by lra.
  pose proof (nearest_error (x1 * 100) 6 Hy0) as [Hlo2 Hhi2];
    [change (2 ^ (6 + 1))%Q with 128%Q; lra|lia|].
  change (2 ^ (6 - 53))%Q with (1 # 140737488355328)%Q in Hlo2, Hhi2.
  pose proof (nearest_nonneg (x1 * 100) Hy0) as Hx2.
  set (x2 := nearest (x1 * 100)) in *.
  assert (Hz0 : (0 <= x2 * 10)%Q) by lra.
  pose proof (round_to_integer_spec (x2 * 10)) as [Hlo3 Hhi3].
  pose proof (round_to_integer_nonneg (x2 * 10) Hz0) as HT0.
  set (T := round_to_integer (x2 * 10)) in *.
  assert (HT : (T # 10 == inject_Z T * (1 # 10))%Q).
  { unfold Qeq, Qmult, inject_Z. cbn. lia. }
  exists T. split; [|split; [done|]].
  - split; [done|].
    assert (Hlt : (inject_Z T < inject_Z 1001)%Q).
    { change (inject_Z 1001) with 1001%Q. lra. }
    rewrite <- Zlt_Qlt in Hlt. lia.
  - clearbody x0 x1 x2 T. split; lra.
Qed.

(** The model agrees with the Standard Library's binary64 operations on
    the pass rate of all counters up to 80. *)
Lemma pass_rate_matches_library (f t : Z) :
  (0 ≤ f ≤ t)%Z → (0 < t ≤ 80)%Z →
  (SF_value (library_pass_rate f t) == pass_rate f t)%Q.
Proof.
  intros Hf Ht.
  assert (Hall :
            forallb (λ t, forallb (λ f, Qeq_bool (SF_value (library_pass_rate f t))
                                                 (pass_rate f t))
                                  (map Z.of_nat (seq 0 (S (Z.to_nat t)))))
                    (map Z.of_nat (seq 1 80)) = true)
    by (vm_compute; reflexivity).
  rewrite forallb_forall in Hall.
  assert (Ht' : In t (map Z.of_nat (seq 1 80))).
  { apply in_map_iff. exists (Z.to_nat t). split; [lia|]. apply in_seq. lia. }
  specialize (Hall t Ht'). rewrite forallb_forall in Hall.
  assert (Hf' : In f (map Z.of_nat (seq 0 (S (Z.to_nat t))))).
  { apply in_map_iff. exists (Z.to_nat f). split; [lia|]. apply in_seq. lia. }
  by apply Qeq_bool_iff, Hall.
Qed.

End Binary64Facts.

Section RateFacts.
Import DataProcessor.
Context {W : Type}.

(** A call that raises moves counters but neither the records passed nor
    the pass rate. *)
Lemma process_aircraft_data_raises `{PyFloat} (self self' : @processor _ W)
      (b : payload) (w w' : W) (events : list call_event) (e : exception) :
  process_aircraft_data self b w = (self', w', events, Raise e) →
  filter_pass_rate (proc_stats self') = filter_pass_rate (proc_stats self)
  ∧ filtered_aircraft (proc_stats self') = filtered_aircraft (proc_stats self)
  ∧ (total_aircraft (proc_stats self) ≤ total_aircraft (proc_stats self'))%Z.
Proof.
  unfold process_aircraft_data. destruct b as [items|truth].
  - pose proof (filter_loop_rejections_only (proc_filters self) (map snd items)
                  (add_total (Z.of_nat (length (map snd items)))
                             (incr_payloads (proc_stats self))) []) as Hrej.
    destruct (filter_loop _ _ _ _) as [st3 [acc|e']]; cbn [fst] in Hrej.
    + destruct acc; [done|]. destruct (callbacks self); [done|].
      by destruct (notify _ _ _ _).
    + intros [= <- _ _ _]. destruct Hrej as (_ & Ht & Hf & Hr & _).
      cbn in *. rewrite Hr, Hf, Ht. repeat split; lia.
  - intros [= <- _ _ _]. cbn. repeat split; lia.
Qed.

(** One operation on a processor whose rate was last computed when [seen]
    records had been seen: a call that returns computes it anew, every
    other operation leaves it. *)
Lemma run_operation_rate_as_of `{PyFloat} (st : @processor _ W * W)
      (op : operation) (seen : Z) :
  accounted (proc_stats st.1) →
  (filtered_aircraft (proc_stats st.1) ≤ seen ≤ total_aircraft (proc_stats st.1))%Z →
  rate_as_of seen (proc_stats st.1) →
  let st' := proc_stats (run_operation st op).1 in
  accounted st'
  ∧ ∃ seen',
      (filtered_aircraft st' ≤ seen' ≤ total_aircraft st')%Z
      ∧ rate_as_of seen' st'
      ∧ (seen = total_aircraft (proc_stats st.1) →
         operation_altitudes_numeric op →
         seen' = total_aircraft st').
Proof.
  destruct st as [self w]. cbn [fst]. intros Hacc Hseen Hrate. cbv zeta.
  destruct op as [b|f|cb]; cbn [run_operation fst].
  - pose proof (process_aircraft_data_accounted self b w Hacc) as (Hacc' & _).
    cbv zeta in Hacc'.
    destruct (process_aircraft_data self b w) as [[[self' w'] events] r] eqn:Hcall.
    cbn [fst] in *. split; [done|].
    destruct r as [accepted|e].
    + exists (total_aircraft (proc_stats self')).
      split; [destruct Hacc' as (_ & _ & ? & ? & ?); lia|].
      split; [|done].
      revert Hcall. unfold process_aircraft_data.
      destruct b as [items|truth]; [|done].
      pose proof (filter_loop_rejections_only (proc_filters self) (map snd items)
                    (add_total (Z.of_nat (length (map snd items)))
                               (incr_payloads (proc_stats self))) []) as Hrej.
      destruct (filter_loop _ _ _ _) as [st3 [acc|e']]; [|done].
      cbn [fst] in Hrej. destruct Hrej as (_ & Ht & Hf & Hr & _). cbn in Ht, Hf, Hr.
      assert (Hst : rate_as_of
                      (total_aircraft
                         (recompute_pass_rate
                            (add_filtered (Z.of_nat (length acc)) st3)))
                      (recompute_pass_rate
                         (add_filtered (Z.of_nat (length acc)) st3))).
      { unfold rate_as_of, recompute_pass_rate in *. cbn.
        destruct (0 <? total_aircraft st3)%Z eqn:Hpos; cbn; rewrite Hpos; [done|].
        rewrite Hr, Hrate. apply Z.ltb_ge in Hpos.
        destruct Hacc as (_ & Hf0 & _).
        replace (0 <? seen)%Z with false; [done|].
        symmetry. apply Z.ltb_ge. lia. }
      destruct acc; [by intros [= <- _ _ _]|].
      destruct (callbacks self); [by intros [= <- _ _ _]|].
      destruct (notify _ _ _ _). by intros [= <- _ _ _].
    + destruct (process_aircraft_data_raises self self' b w w' events e Hcall)
        as (Hr & Hf & Ht).
      exists seen. split; [lia|]. split.
      { unfold rate_as_of in *. by rewrite Hr, Hf. }
      intros -> Hnum. destruct b as [items|truth].
      * cbn in Hnum.
        destruct (process_aircraft_data_returns self items w Hnum)
          as (st3 & _ & Hret).
        cbv zeta in Hret. rewrite Hret in Hcall.
        destruct (List.filter _ _); [done|]. by destruct (callbacks self).
      * by injection Hcall as <-.
  - split; [done|]. exists seen. split; [done|]. split; [done|]. by intros ->.
  - split; [done|]. exists seen. split; [done|]. split; [done|]. by intros ->.
Qed.

Lemma run_operations_rate_as_of `{PyFloat} (ops : list operation)
      (st : @processor _ W * W) (seen : Z) :
  accounted (proc_stats st.1) →
  (filtered_aircraft (proc_stats st.1) ≤ seen ≤ total_aircraft (proc_stats st.1))%Z →
  rate_as_of seen (proc_stats st.1) →
  let st' := proc_stats (run_operations st ops).1 in
  accounted st'
  ∧ ∃ seen',
      (filtered_aircraft st' ≤ seen' ≤ total_aircraft st')%Z
      ∧ rate_as_of seen' st'
      ∧ (seen = total_aircraft (proc_stats st.1) →
         Forall operation_altitudes_numeric ops →
         seen' = total_aircraft st').
Proof.
  revert st seen. induction ops as [|op ops IH]; intros st seen Hacc Hseen Hrate.
  - cbn. split; [done|]. exists seen. split; [done|]. split; [done|]. by intros.
  - cbn [run_operations fold_left]. fold (run_operations (run_operation st op) ops).
    destruct (run_operation_rate_as_of st op seen Hacc Hseen Hrate)
      as (Hacc1 & seen1 & Hseen1 & Hrate1 & Hnum1).
    destruct (IH (run_operation st op) seen1 Hacc1 Hseen1 Hrate1)
      as (Hacc2 & seen2 & Hseen2 & Hrate2 & Hnum2).
    split; [done|]. exists seen2. split; [done|]. split; [done|].
    intros Heq Hops. apply Forall_cons in Hops as [Hop Hops].
    apply Hnum2; [|done]. by apply Hnum1.
Qed.

(** C6. The statistics of a processor, as the code keeps them. No operation
    decreases a counter (batches processed, records seen, records passed,
    ground-filtered, low-altitude-filtered), and the pass rate is [0.0]
    while no record has been seen. A call of [process_aircraft_data] that
    returns with records seen sets the pass rate to the binary64 value of
    [round((passed / seen) * 100, 1)]; a call that raises leaves the pass
    rate and the records passed as they were, although it has counted its
    records as seen. So after every sequence of operations on a new
    processor the pass rate is that float expression of the records passed
    and of the records seen as they stood at the last call that returned
    (the records seen now, when no altitude is a string), and its value is
    the float nearest to a number of tenths between 0 and 100 that lies
    within 0.05 + 2^-45 of the exact percentage. *)
Theorem C6_filter_stats_invariant (flt0 : option filters) (w0 : W)
        (ops : list operation) :
  let final :=
    proc_stats (run_operations (init (H := binary64) flt0, w0) ops).1 in
  (∀ (st : @processor binary64 W * W) (op : operation),
     counters_le (proc_stats st.1) (proc_stats (run_operation st op).1))
  ∧ (∀ st : @processor binary64 W * W,
       counters_le (proc_stats st.1) (proc_stats (run_operations st ops).1))
  ∧ (total_aircraft final = 0%Z → filter_pass_rate final = 0%Q)
  ∧ (∀ (self self' : @processor binary64 W) b (w w' : W) events accepted,
       process_aircraft_data self b w = (self', w', events, Ok accepted) →
       (0 < total_aircraft (proc_stats self'))%Z →
       filter_pass_rate (proc_stats self')
       = Binary64.round1
           (Binary64.float_mul
              (Binary64.int_truediv (filtered_aircraft (proc_stats self'))
                                    (total_aircraft (proc_stats self')))
              100))
  ∧ (∀ (self self' : @processor binary64 W) b (w w' : W) events e,
       process_aircraft_data self b w = (self', w', events, Raise e) →
       filter_pass_rate (proc_stats self') = filter_pass_rate (proc_stats self)
       ∧ filtered_aircraft (proc_stats self') = filtered_aircraft (proc_stats self)
       ∧ (total_aircraft (proc_stats self) ≤ total_aircraft (proc_stats self'))%Z)
  ∧ (∃ seen : Z,
       (0 ≤ filtered_aircraft final ≤ seen)%Z
       ∧ (seen ≤ total_aircraft final)%Z
       ∧ filter_pass_rate final
         = (if (0 <? seen)%Z
            then Binary64.round1
                   (Binary64.float_mul
                      (Binary64.int_truediv (filtered_aircraft final) seen) 100)
            else 0%Q)
       ∧ (Forall operation_altitudes_numeric ops → seen = total_aircraft final)
       ∧ ((0 < seen)%Z →
          ∃ T : Z,
            (0 ≤ T ≤ 1000)%Z
            ∧ filter_pass_rate final = Binary64.nearest (T # 10)
            ∧ (- ((1 # 20) + (1 # 35184372088832))
               <= (T # 10)
                  - 100 * (inject_Z (filtered_aircraft final) / inject_Z seen))%Q
            ∧ ((T # 10)
               - 100 * (inject_Z (filtered_aircraft final) / inject_Z seen)
               <= (1 # 20) + (1 # 35184372088832))%Q)).
Proof.
  cbv zeta. split; [apply run_operation_counters|].
  split; [apply run_operations_counters|].
  split.
  { apply (run_operations_zero_rate (H := binary64) ops (init flt0, w0)).
    by split. }
  split.
  { intros self self' b w w' events accepted Hcall Hpos.
    exact (process_aircraft_data_rate (H := binary64) self self' b w w' events
             accepted Hcall Hpos). }
  split; [apply (process_aircraft_data_raises (H := binary64))|].
  destruct (run_operations_rate_as_of (H := binary64) ops (init flt0, w0) 0)
    as (Hacc & seen & Hseen & Hrate & Hnum).
  { unfold accounted. cbn. lia. }
  { cbn. lia. }
  { done. }
  cbv zeta in *. exists seen.
  destruct Hacc as (_ & Hf0 & _).
  split; [lia|]. split; [lia|]. split; [exact Hrate|].
  split; [by apply Hnum|].
  intros Hpos. unfold rate_as_of in Hrate. rewrite Hrate.
  replace (0 <? seen)%Z with true by (symmetry; by apply Z.ltb_lt).
  apply pass_rate_accuracy; lia.
Qed.

End RateFacts.

(** ** What the cache keeps, and where its entries come from *)

Section CacheMore.
Import KMZ.

(** An entry that the update neither refreshes nor finds expired stays in
    the cache under its key, as the same object, with its age brought up to
    date and all other fields as they were. *)
Theorem update_keeps_unexpired (self : generator) (accepted : list aircraft)
        (now : Z) (k : pyval) (l : loc) (e : entry) :
  reachable self →
  (k, l) ∈ aircraft_database self → store self !! l = Some e →
  (∀ a, a ∈ accepted → Py.truthy (Py.get a "adshex") = true →
        Py.eqb (Py.get a "adshex") k = false) →
  (now - last_seen_timestamp e ≤ persistence_time self)%Z →
  let self' := update_aircraft_data self accepted now in
  Py.dict_get (aircraft_database self') k = Some l
  ∧ store self' !! l = Some (sweep_entry now e)
  ∧ l ∈ get_current_aircraft self'.
Proof.
  intros Hreach Hkl He Hfresh Hlive. cbv zeta.
  apply reachable_inv in Hreach as Hinv. pose proof Hinv as (Hwf & _ & _).
  destruct (update_spec self accepted now Hinv)
    as (db1 & new & Hfold & _ & Hwf1 & _ & Hdb & _ & Hin & _ & _).
  cbv zeta in *.
  assert (He1 : (store self ++ new) !! l = Some e) by by apply lookup_app_l_Some.
  pose proof (upsert_fold_untouched now accepted k Hfresh
                (aircraft_database self) (store self)) as Hsame.
  rewrite Hfold in Hsame. cbn [fst] in Hsame.
  rewrite (dict_wf_get_elem _ k l Hwf Hkl) in Hsame.
  assert (Hget : Py.dict_get
                   (aircraft_database (update_aircraft_data self accepted now)) k
                 = Some l).
  { rewrite Hdb, dict_get_filter_expired by done. rewrite Hsame.
    unfold expired_item. cbn [snd]. rewrite He1.
    by replace (now - last_seen_timestamp e >? persistence_time self)%Z
      with false by (symmetry; lia). }
  assert (Hl1 : l ∈ map snd db1).
  { apply dict_get_Some_elem in Hsame as (k' & Hk' & _).
    apply list_elem_of_fmap. by exists (k', l). }
  split; [done|]. split; [by rewrite Hin, He1|].
  unfold get_current_aircraft.
  apply dict_get_Some_elem in Hget as (k' & Hk' & _).
  apply list_elem_of_fmap. by exists (k', l).
Qed.

(** The first loop of the update: the objects it builds are the minimal
    dicts of the records with a truthy id, in their order, and every
    reference in the cache behind it is one that was there or one of these
    new objects. *)
Lemma upsert_fold_origin (now : Z) (accepted : list aircraft) :
  ∀ (db : list (pyval * loc)) (objs : list entry),
    let st := fold_left (upsert now) accepted (db, objs) in
    st.2 = objs ++ map (λ a, minimal_aircraft (Py.get a "adshex") a now)
                       (List.filter (λ a, Py.truthy (Py.get a "adshex")) accepted)
    ∧ ∀ kv, kv ∈ st.1 → kv ∈ db ∨ length objs ≤ kv.2.
Proof.
  induction accepted as [|a accepted IH]; intros db objs; cbv zeta.
  - cbn. rewrite app_nil_r. split; [done|]. by left.
  - cbn [fold_left upsert List.filter].
    destruct (Py.truthy (Py.get a "adshex")); cbn [negb]; [|apply IH].
    destruct (IH (Py.dict_set db (Py.get a "adshex") (length objs))
                 (objs ++ [minimal_aircraft (Py.get a "adshex") a now]))
      as [Hobjs Horigin].
    cbv zeta in *. split; [by rewrite Hobjs, <- app_assoc|].
    intros kv Hkv. destruct (Horigin kv Hkv) as [Hset|Hnew].
    + apply dict_set_elem in Hset as [Hdb|Hv]; [by left|right; lia].
    + right. rewrite length_app in Hnew. cbn in Hnew. lia.
Qed.

(** The cache invents nothing: every entry of the snapshot taken after an
    update is an entry of the snapshot before it with its age brought up to
    date, or the minimal dict of a record of the batch that carries a truthy
    id, stamped with the clock reading. *)
Theorem snapshot_entries_origin (self : generator) (accepted : list aircraft)
        (now : Z) (e : entry) :
  reachable self →
  let self' := update_aircraft_data self accepted now in
  e ∈ view (store self') (get_current_aircraft self') →
  (∃ e0, e0 ∈ view (store self) (get_current_aircraft self)
         ∧ e = sweep_entry now e0)
  ∨ (∃ a, a ∈ accepted ∧ Py.truthy (Py.get a "adshex") = true
          ∧ e = minimal_aircraft (Py.get a "adshex") a now).
Proof.
  intros Hreach. cbv zeta. apply reachable_inv in Hreach as Hinv.
  pose proof Hinv as (_ & Hvalid & _).
  destruct (update_spec self accepted now Hinv)
    as (db1 & new & Hfold & _ & _ & _ & Hdb & _ & Hin & _ & _).
  destruct (upsert_fold_origin now accepted (aircraft_database self) (store self))
    as [Hobjs Horigin].
  cbv zeta in *. rewrite Hfold in Hobjs, Horigin. cbn [fst snd] in Hobjs, Horigin.
  apply app_inv_head in Hobjs. subst new.
  unfold view, get_current_aircraft. intros He.
  apply list_elem_of_omap in He as (l & Hl & He).
  rewrite Hdb in Hl. apply list_elem_of_fmap in Hl as ([k l'] & -> & Hkl).
  cbn [snd] in *.
  apply list_elem_of_In, filter_In in Hkl as [Hkl _]. apply list_elem_of_In in Hkl.
  rewrite Hin in He by (apply list_elem_of_fmap; by exists (k, l')).
  destruct (Horigin (k, l') Hkl) as [Hold|Hnew]; cbn [snd] in *.
  - left. unfold valid in Hvalid. rewrite Forall_forall in Hvalid.
    specialize (Hvalid _ Hold). cbn in Hvalid.
    rewrite lookup_app_l in He by done.
    destruct (store self !! l') as [e0|] eqn:He0; [|done].
    cbn in He. injection He as <-. exists e0. split; [|done].
    apply list_elem_of_omap. exists l'. split; [|done].
    apply list_elem_of_fmap. by exists (k, l').
  - right. rewrite lookup_app_r in He by done.
    destruct (map _ _ !! (l' - length (store self))) as [e1|] eqn:He1; [|done].
    cbn in He. injection He as <-.
    apply list_elem_of_lookup_2, list_elem_of_fmap in He1 as (a & -> & Ha).
    apply list_elem_of_In, filter_In in Ha as [Ha Hid]. apply list_elem_of_In in Ha.
    exists a. split; [done|]. split; [done|].
    unfold sweep_entry, set_age, minimal_aircraft. cbn. by rewrite Z.sub_diag.
Qed.

Lemma dict_set_elem_key {V : Type} (d : list (pyval * V)) (k : pyval) (v : V)
      (kv : pyval * V) :
  Py.dict_wf d → kv ∈ Py.dict_set d k v → Py.eqb kv.1 k = true → kv.2 = v.
Proof.
  induction d as [|[k1 v1] d IH]; cbn.
  - intros _ Hin _. by apply list_elem_of_singleton in Hin as ->.
  - intros [Hfresh Hwf]. destruct (Py.eqb k1 k) eqn:Hk1.
    + intros Hin Hkv. apply elem_of_cons in Hin as [->|Hin]; [done|].
      apply dict_get_None in Hfresh. rewrite Forall_forall in Hfresh.
      specialize (Hfresh kv Hin). rewrite eqb_sym in Hk1.
      by rewrite (eqb_trans _ _ _ Hkv Hk1) in Hfresh.
    + intros Hin Hkv. apply elem_of_cons in Hin as [->|Hin]; [|by apply IH].
      cbn in Hkv. congruence.
Qed.

Lemma dict_set_locs_NoDup (d : list (pyval * loc)) (k : pyval) (v : loc) :
  NoDup (map snd d) → v ∉ map snd d → NoDup (map snd (Py.dict_set d k v)).
Proof.
  induction d as [|[k1 v1] d IH]; cbn.
  - intros _ _. apply NoDup_singleton.
  - intros Hnd Hv. apply NoDup_cons in Hnd as [Hv1 Hnd].
    apply not_elem_of_cons in Hv as [Hne Hv].
    destruct (Py.eqb k1 k); cbn; apply NoDup_cons.
    + by split.
    + split; [|by apply IH]. intros Hin.
      apply list_elem_of_fmap in Hin as (kv & Heq & Hkv).
      apply dict_set_elem in Hkv as [Hkv|Hkv]; [|congruence].
      apply Hv1. apply list_elem_of_fmap. by exists kv.
Qed.

Lemma filter_locs_NoDup (f : pyval * loc → bool) (d : list (pyval * loc)) :
  NoDup (map snd d) → NoDup (map snd (List.filter f d)).
Proof.
  induction d as [|kv d IH]; cbn; [done|].
  intros Hnd. apply NoDup_cons in Hnd as [Hkv Hnd].
  destruct (f kv); cbn; [|by apply IH].
  apply NoDup_cons. split; [|by apply IH]. intros Hin. apply Hkv.
  apply list_elem_of_fmap in Hin as (kv' & Heq & Hkv').
  apply list_elem_of_In, filter_In in Hkv' as [Hkv' _].
  apply list_elem_of_fmap. exists kv'. split; [done|by apply list_elem_of_In].
Qed.

Lemma NoDup_snd_elem (d : list (pyval * loc)) (v : loc) (k k' : pyval) :
  NoDup (map snd d) → (k, v) ∈ d → (k', v) ∈ d → k = k'.
Proof.
  induction d as [|[k0 v0] d IH]; cbn; intros Hnd Hk Hk'; [by inversion Hk|].
  apply NoDup_cons in Hnd as [Hv0 Hnd].
  apply elem_of_cons in Hk as [Hk|Hk]; apply elem_of_cons in Hk' as [Hk'|Hk'].
  - congruence.
  - injection Hk as -> ->. destruct Hv0. apply list_elem_of_fmap. by exists (k', v0).
  - injection Hk' as -> ->. destruct Hv0. apply list_elem_of_fmap. by exists (k, v0).
  - by apply IH.
Qed.

Lemma upsert_fold_NoDup (now : Z) (accepted : list aircraft) :
  ∀ (db : list (pyval * loc)) (objs : list entry),
    valid db objs → NoDup (map snd db) →
    NoDup (map snd (fold_left (upsert now) accepted (db, objs)).1).
Proof.
  induction accepted as [|a accepted IH]; intros db objs Hvalid Hnd; [done|].
  cbn [fold_left upsert].
  destruct (Py.truthy (Py.get a "adshex")); cbn [negb]; [|by apply IH].
  unfold valid in Hvalid. rewrite Forall_forall in Hvalid.
  apply IH.
  - unfold valid. rewrite Forall_forall. intros kv Hkv.
    rewrite length_app. cbn.
    apply dict_set_elem in Hkv as [Hkv| ->]; [|lia].
    specialize (Hvalid kv Hkv). lia.
  - apply dict_set_locs_NoDup; [done|]. intros Hin.
    apply list_elem_of_fmap in Hin as (kv & Heq & Hkv).
    specialize (Hvalid kv Hkv). lia.
Qed.

(** No two keys of the cache share an entry object. *)
Lemma reachable_NoDup (self : generator) :
  reachable self → NoDup (map snd (aircraft_database self)).
Proof.
  induction 1 as [refresh persistence|self accepted now Hreach IH].
  - apply NoDup_nil_2.
  - apply reachable_inv in Hreach as Hinv. pose proof Hinv as (_ & Hvalid & _).
    destruct (update_spec self accepted now Hinv)
      as (db1 & new & Hfold & _ & _ & _ & Hdb & _).
    cbv zeta in *. rewrite Hdb. apply filter_locs_NoDup.
    pose proof (upsert_fold_NoDup now accepted _ _ Hvalid IH) as Hnd.
    by rewrite Hfold in Hnd.
Qed.

(** The first loop drops the reference to the object of an id that the
    batch refreshes. *)
Lemma upsert_fold_replaced (now : Z) (k : pyval) (l : loc)
      (accepted : list aircraft) :
  ∀ (db : list (pyval * loc)) (objs : list entry),
    Py.dict_wf db →
    (∀ k', (k', l) ∈ db → Py.eqb k' k = true) →
    l < length objs →
    (∃ a, a ∈ accepted ∧ Py.truthy (Py.get a "adshex") = true
          ∧ Py.eqb (Py.get a "adshex") k = true) →
    (l ∉ map snd (fold_left (upsert now) accepted (db, objs)).1).
Proof.
  induction accepted as [|a accepted IH]; intros db objs Hwf Hkey Hl Hex.
  { destruct Hex as (a & Ha & _). by inversion Ha. }
  cbn [fold_left upsert].
  destruct (Py.truthy (Py.get a "adshex")) eqn:Hid; cbn [negb].
  - destruct (Py.eqb (Py.get a "adshex") k) eqn:Hk.
    + destruct (upsert_fold_origin now accepted
                  (Py.dict_set db (Py.get a "adshex") (length objs))
                  (objs ++ [minimal_aircraft (Py.get a "adshex") a now]))
        as [_ Horigin].
      cbv zeta in Horigin. intros Hin.
      apply list_elem_of_fmap in Hin as ([k' l'] & Heq & Hkv). cbn in Heq. subst l'.
      destruct (Horigin _ Hkv) as [Hset|Hnew].
      * pose proof Hset as Hset'.
        apply dict_set_elem in Hset' as [Hdb|Hv]; [|cbn in Hv; lia].
        specialize (Hkey k' Hdb). rewrite eqb_sym in Hk.
        pose proof (dict_set_elem_key db _ _ _ Hwf Hset (eqb_trans _ _ _ Hkey Hk))
          as Hv.
        cbn in Hv. lia.
      * rewrite length_app in Hnew. cbn in Hnew. lia.
    + apply IH.
      * by apply dict_set_wf.
      * intros k' Hk'. apply dict_set_elem in Hk' as [Hdb|Hv]; [by apply Hkey|].
        cbn in Hv. lia.
      * rewrite length_app. lia.
      * destruct Hex as (a' & Ha' & Hid' & Hk').
        apply elem_of_cons in Ha' as [->|Ha']; [congruence|by exists a'].
  - apply IH; try done.
    destruct Hex as (a' & Ha' & Hid' & Hk').
    apply elem_of_cons in Ha' as [->|Ha']; [congruence|by exists a'].
Qed.

(** An object that the cache no longer refers to is never written again. *)
Lemma update_untracked (self : generator) (accepted : list aircraft) (now : Z)
      (l : loc) (e : entry) :
  inv self →
  l ∉ get_current_aircraft self → store self !! l = Some e →
  let self' := update_aircraft_data self accepted now in
  (l ∉ get_current_aircraft self') ∧ store self' !! l = Some e.
Proof.
  intros Hinv Hl He. cbv zeta.
  destruct (update_spec self accepted now Hinv)
    as (db1 & new & Hfold & _ & _ & _ & Hdb & _ & _ & Hout & _).
  destruct (upsert_fold_origin now accepted (aircraft_database self) (store self))
    as [_ Horigin].
  cbv zeta in *. rewrite Hfold in Horigin. cbn [fst] in Horigin.
  apply lookup_lt_Some in He as Hlt.
  assert (Hl1 : l ∉ map snd db1).
  { intros Hin. apply list_elem_of_fmap in Hin as ([k' l'] & Heq & Hkv).
    cbn in Heq. subst l'. destruct (Horigin _ Hkv) as [Hold|Hnew]; [|cbn in Hnew; lia].
    apply Hl. unfold get_current_aircraft. apply list_elem_of_fmap.
    by exists (k', l). }
  split.
  - unfold get_current_aircraft. rewrite Hdb. intros Hin. apply Hl1.
    apply list_elem_of_fmap in Hin as (kv & Heq & Hkv).
    apply list_elem_of_In, filter_In in Hkv as [Hkv _].
    apply list_elem_of_fmap. exists kv. split; [done|by apply list_elem_of_In].
  - rewrite Hout by done. by apply lookup_app_l_Some.
Qed.

(** A refresh replaces, it does not overwrite: when a batch holds a record
    for an id that is in the cache, the entry object the cache held for the
    id is left exactly as it was (also its age), the cache no longer refers
    to it, and no later update writes into it. Whoever received it from an
    earlier [get_current_aircraft] keeps reading the old values. *)
Theorem update_replaces_refreshed (self : generator) (accepted : list aircraft)
        (now : Z) (k : pyval) (l : loc) (e : entry) (a : aircraft)
        (later : list (list aircraft * Z)) :
  reachable self →
  (k, l) ∈ aircraft_database self → store self !! l = Some e →
  a ∈ accepted → Py.truthy (Py.get a "adshex") = true →
  Py.eqb (Py.get a "adshex") k = true →
  let self' := updates (update_aircraft_data self accepted now) later in
  store self' !! l = Some e ∧ (l ∉ get_current_aircraft self').
Proof.
  intros Hreach Hkl He Ha Hid Hk. cbv zeta.
  apply reachable_inv in Hreach as Hinv. pose proof Hinv as (Hwf & _ & _).
  pose proof (reachable_NoDup self Hreach) as Hnd.
  apply lookup_lt_Some in He as Hlt.
  assert (Hfirst : (l ∉ get_current_aircraft (update_aircraft_data self accepted now))
                   ∧ store (update_aircraft_data self accepted now) !! l = Some e).
  { destruct (update_spec self accepted now Hinv)
      as (db1 & new & Hfold & _ & _ & _ & Hdb & _ & _ & Hout & _).
    cbv zeta in *.
    assert (Hl1 : l ∉ map snd db1).
    { pose proof (upsert_fold_replaced now k l accepted (aircraft_database self)
                    (store self) Hwf) as Hrep.
      rewrite Hfold in Hrep. apply Hrep; [|done|by exists a].
      intros k' Hk'.
      rewrite (NoDup_snd_elem _ l k' k Hnd Hk' Hkl). apply eqb_refl. }
    split.
    - unfold get_current_aircraft. rewrite Hdb. intros Hin. apply Hl1.
      apply list_elem_of_fmap in Hin as (kv & Heq & Hkv).
      apply list_elem_of_In, filter_In in Hkv as [Hkv _].
      apply list_elem_of_fmap. exists kv. split; [done|by apply list_elem_of_In].
    - rewrite Hout by done. by apply lookup_app_l_Some. }
  pose proof (update_inv self accepted now Hinv) as Hinv'.
  revert Hfirst Hinv'. generalize (update_aircraft_data self accepted now).
  induction later as [|u later IH]; intros g [Hout Hg] Hinvg; [done|].
  cbn [updates fold_left]. apply IH.
  - by apply update_untracked.
  - by apply update_inv.
Qed.

End CacheMore.

Section SessionMore.
Import DataProcessor FirehoseClient DLEProtocol.
Context `{PyFloat} {W : Type}.
Context (gzip_decompress : list byte → option (list byte)).
Context (json_loads : list byte → option payload).

Local Abbreviation process_frames' := (process_frames gzip_decompress json_loads).
Local Abbreviation _process_buffer' := (_process_buffer gzip_decompress json_loads).
Local Abbreviation read_loop' := (read_loop gzip_decompress json_loads).
Local Abbreviation connected_session' :=
  (connected_session gzip_decompress json_loads).

Lemma process_frames_None (frames : list (list byte))
      (dp : option (@processor _ W)) (w : W) :
  ∃ dp' w' events, process_frames' dp w frames = (dp', w', events, None).
Proof.
  revert dp w. induction frames as [|frame frames IH]; intros dp w.
  - by exists dp, w, [].
  - cbn [FirehoseClient.process_frames].
    destruct (FirehoseClient.process_frame gzip_decompress json_loads dp w frame)
      as [[[dp1 w1] events1] exn1] eqn:Hframe.
    assert (Hexn : exn1 = None).
    { change exn1 with (dp1, w1, events1, exn1).2. by rewrite <- Hframe. }
    subst exn1.
    destruct (IH dp1 w1) as (dp2 & w2 & events2 & ->).
    by exists dp2, w2, (events1 ++ events2).
Qed.

Lemma process_frames_app (frames1 frames2 : list (list byte))
      (dp : option (@processor _ W)) (w : W) :
  process_frames' dp w (frames1 ++ frames2) =
    let '(dp1, w1, events1, _) := process_frames' dp w frames1 in
    let '(dp2, w2, events2, exn) := process_frames' dp1 w1 frames2 in
    (dp2, w2, events1 ++ events2, exn).
Proof.
  revert dp w. induction frames1 as [|frame frames1 IH]; intros dp w.
  - cbn [app FirehoseClient.process_frames].
    by destruct (process_frames' dp w frames2) as [[[dp2 w2] events2] exn].
  - cbn [app FirehoseClient.process_frames].
    destruct (FirehoseClient.process_frame gzip_decompress json_loads dp w frame)
      as [[[dp1 w1] events1] exn1] eqn:Hframe.
    assert (Hexn : exn1 = None).
    { change exn1 with (dp1, w1, events1, exn1).2. by rewrite <- Hframe. }
    subst exn1. rewrite IH.
    destruct (process_frames' dp1 w1 frames1) as [[[dp2 w2] events2] exn2].
    destruct (process_frames' dp2 w2 frames2) as [[[dp3 w3] events3] exn3].
    by rewrite app_assoc.
Qed.

Lemma off_marker_app (ps1 ps2 : list (list byte)) (x : nat) :
  off_marker (ps1 ++ ps2) (length (stream ps1) + x) → off_marker ps2 x.
Proof.
  intros Hoff m Hm Hx. apply (Hoff (length ps1 + m)).
  - rewrite length_app. lia.
  - rewrite take_app_add', stream_app, length_app by done. lia.
Qed.

Lemma stream_nil_inv (ps : list (list byte)) : stream ps = [] → ps = [].
Proof.
  intros Hnil. pose proof (length_stream ps) as Hlen. rewrite Hnil in Hlen.
  destruct ps; [done|cbn in Hlen; lia].
Qed.

(** The read loop over reads that cut a stream of frames anywhere but one
    byte behind a frame start, begun with the held-back part [held] of the
    first frame in the buffer. *)
Lemma read_loop_reassembles (chunks : list (list byte)) :
  ∀ (held : list byte) (ps : list (list byte))
    (dp : option (@processor _ W)) (w : W),
    held ++ concat chunks = stream ps →
    Forall (λ chunk, chunk ≠ []) chunks →
    (held = [] ∧ (chunks = [] → ps = [])
     ∨ ∃ p ps' rest, ps = p :: ps' ∧ held ++ rest = encode_frame p ∧ rest ≠ []) →
    (∀ n, 0 < n ≤ length chunks →
          off_marker ps (length held + length (concat (take n chunks)))) →
    read_loop' {| buffer := held; data_processor := dp |} w
               (map (λ chunk, Recv (Received chunk)) chunks) =
      let '(dp', w', events, _) := process_frames' dp w ps in
      ({| buffer := []; data_processor := dp' |}, w', events, true).
Proof.
  induction chunks as [|chunk chunks IH]; intros held ps dp w Hcat Hne Hheld Hoff.
  - cbn [concat] in Hcat. rewrite app_nil_r in Hcat.
    assert (Hps : ps = [] ∧ held = []).
    { destruct Hheld as [[-> Hps]|(p & ps' & rest & -> & Hp & Hrest)].
      - by split; [apply Hps|].
      - exfalso. rewrite stream_cons, <- Hp, <- app_assoc in Hcat.
        apply (f_equal length) in Hcat. rewrite !length_app in Hcat.
        destruct rest; [done|]. cbn in Hcat. lia. }
    destruct Hps as [-> ->]. done.
  - apply Forall_cons in Hne as [Hchunk Hne].
    destruct chunk as [|b data]; [done|].
    cbn [map FirehoseClient.read_loop buffer data_processor].
    cbn [concat] in Hcat. rewrite app_assoc in Hcat.
    set (got := held ++ b :: data) in *.
    unfold FirehoseClient._process_buffer. cbn [buffer data_processor].
    destruct (split_offset ps (length got))
      as [Hend|(ps1 & p & ps2 & part & rest & -> & Hp & Hrest & Hk)].
    + assert (Hrestnil : concat chunks = []).
      { apply (f_equal length) in Hcat. rewrite length_app in Hcat.
        apply length_zero_iff_nil. lia. }
      assert (chunks = []) as ->.
      { destruct chunks as [|c chunks]; [done|].
        apply Forall_cons in Hne as [Hc _]. cbn [concat] in Hrestnil.
        by apply app_eq_nil in Hrestnil as [-> _]. }
      cbn [concat] in Hcat. rewrite app_nil_r in Hcat. rewrite Hcat.
      rewrite extract_frames_stream.
      destruct (process_frames_None ps dp w) as (dp' & w' & events & ->).
      cbn [map FirehoseClient.read_loop]. by rewrite app_nil_r.
    + assert (Hgot : got = stream ps1 ++ part).
      { rewrite stream_app, stream_cons, <- Hp, <- !app_assoc in Hcat.
        rewrite (app_assoc (stream ps1)) in Hcat.
        apply app_inj_1 in Hcat as [Hgot _]; done. }
      assert (Hpart : length part ≠ 1).
      { intros Hone.
        apply (Hoff 1 ltac:(cbn; lia) (length ps1)).
        - rewrite length_app. cbn. lia.
        - rewrite take_app_length. cbn [take concat]. rewrite app_nil_r.
          rewrite <- length_app. fold got. rewrite Hgot, length_app. lia. }
      rewrite Hgot, (extract_frames_run ps1 p part rest Hp Hrest Hpart).
      rewrite process_frames_app.
      destruct (process_frames_None ps1 dp w) as (dp1 & w1 & events1 & ->).
      rewrite (IH part (p :: ps2) dp1 w1).
      * by destruct (process_frames' dp1 w1 (p :: ps2))
          as [[[dp2 w2] events2] exn2].
      * rewrite Hgot, stream_app, <- app_assoc in Hcat.
        by apply app_inv_head in Hcat.
      * done.
      * right. by exists p, ps2, rest.
      * intros n Hn. apply (off_marker_app ps1).
        specialize (Hoff (S n)). cbn [take concat length] in Hoff.
        rewrite (length_app (b :: data)) in Hoff.
        replace (length (stream ps1) + (length part + length (concat (take n chunks))))
          with (length held + (length (b :: data) + length (concat (take n chunks)))).
        { apply Hoff. lia. }
        apply (f_equal length) in Hgot. unfold got in Hgot.
        rewrite !length_app in Hgot. lia.
Qed.

(** A session whose reads cut a stream of well-formed frames into non-empty
    pieces, no cut falling one byte behind the start of a frame, hands the
    frames to the processor exactly as one pass over the whole stream would,
    and ends with an empty buffer: how the stream is cut into reads does not
    show. *)
Theorem session_reassembles_frames (self : client) (w : W)
        (chunks ps : list (list byte)) :
  concat chunks = stream ps →
  Forall (λ chunk, chunk ≠ []) chunks →
  (∀ n, 0 < n ≤ length chunks →
        off_marker ps (length (concat (take n chunks)))) →
  connected_session' self w (map (λ chunk, Recv (Received chunk)) chunks) =
    let '(dp', w', events, _) := process_frames' (data_processor self) w ps in
    ({| buffer := []; data_processor := dp' |}, w', events, true).
Proof.
  intros Hcat Hne Hoff. unfold FirehoseClient.connected_session.
  apply read_loop_reassembles; try done.
  left. split; [done|]. intros ->. cbn in Hcat. by apply stream_nil_inv.
Qed.

(** Timeouts of the socket do not show: a session gives the same client
    state, the same effects and the same consumer calls with and without
    the rounds in which the read timed out. *)
Theorem session_ignores_timeouts (self : client) (w : W) (rounds : list round) :
  connected_session' self w (List.filter (λ r, negb (is_timeout r)) rounds) =
  connected_session' self w rounds.
Proof.
  unfold FirehoseClient.connected_session.
  generalize ({| buffer := []; data_processor := data_processor self |}).
  clear self. intros self. revert self w.
  induction rounds as [|[|[[|b data]| |]] rounds IH]; intros self w;
    cbn [List.filter is_timeout negb FirehoseClient.read_loop]; try done.
  destruct (_process_buffer' _ w) as [[[self1 w1] events1] [e|]]; [done|].
  by rewrite IH.
Qed.

(** No received data ends a session: the read loop is still going after
    the rounds exactly when each of them brought bytes or timed out,
    whatever the bytes decode to and whatever the processor and its
    consumers raise. Only a stop, an empty read (the server has closed) or
    a failure of the read itself ends it. *)
Theorem session_survives_any_data (self : client) (w : W) (rounds : list round) :
  (connected_session' self w rounds).2
  = forallb (λ r, match r with
                  | Recv (Received (_ :: _)) | Recv TimedOut => true
                  | _ => false
                  end) rounds.
Proof.
  unfold FirehoseClient.connected_session.
  generalize ({| buffer := []; data_processor := data_processor self |}).
  clear self. intros self. revert self w.
  induction rounds as [|[|[[|b data]| |]] rounds IH]; intros self w;
    cbn [forallb FirehoseClient.read_loop andb]; try done.
  unfold FirehoseClient._process_buffer. cbn [buffer data_processor].
  destruct (extract_frames _) as [frames remaining].
  destruct (process_frames_None frames (data_processor self) w)
    as (dp' & w' & events & ->).
  specialize (IH {| buffer := remaining; data_processor := dp' |} w').
  by destruct (read_loop' _ w' rounds) as [[[self2 w2] events2] going].
Qed.

End SessionMore.

Section SystemMore.
Import DataProcessor KMZ System.
Context `{PyFloat}.

Lemma update_persistence_time (self : generator) (accepted : list aircraft)
      (now : Z) :
  persistence_time (update_aircraft_data self accepted now) = persistence_time self.
Proof.
  unfold update_aircraft_data.
  destruct (fold_left (upsert now) accepted _) as [db1 objs1].
  by destruct (fold_left (sweep_item now (persistence_time self)) db1 _).
Qed.

Lemma filter_loop_none (flt : filters) (l : list aircraft) (st : stats) :
  (∀ a st', a ∈ l → (_passes_filters flt st' a).2 ≠ Ok true) →
  ∀ accepted, (filter_loop flt st l []).2 ≠ Ok accepted ∨ accepted = [].
Proof.
  revert st. induction l as [|a l IH]; intros st Hnone accepted.
  - cbn. destruct accepted; [by right|by left].
  - cbn [filter_loop].
    pose proof (Hnone a st ltac:(left)) as Ha.
    destruct (_passes_filters flt st a) as [st' [[|]|e]]; cbn [snd] in *.
    + done.
    + apply IH. intros a' st'' Ha'. apply Hnone. by right.
    + by left.
Qed.

(** One batch, for a processor with the cache as its only consumer: the
    cache afterwards is the cache before, or the cache updated with the
    accepted records at the clock reading. *)
Lemma receive_cases (self : @processor _ world) (cache : generator) (t : Z)
      (b : payload) :
  callbacks self = [cache_consumer] →
  callbacks (receive (self, cache) t b).1 = [cache_consumer]
  ∧ proc_filters (receive (self, cache) t b).1 = proc_filters self
  ∧ ((receive (self, cache) t b).2 = cache
     ∨ ∃ accepted,
         (process_aircraft_data self b {| clock := t; kmz_generator := cache |}).2
         = Ok accepted
         ∧ (receive (self, cache) t b).2 = update_aircraft_data cache accepted t).
Proof.
  intros Hcb. unfold receive, process_aircraft_data. rewrite Hcb.
  destruct b as [items|truth]; [|by auto].
  destruct (filter_loop _ _ _ _) as [st3 [[|a accepted]|e]]; cbn; try by auto.
  repeat split; try done. right. by exists (a :: accepted).
Qed.

Lemma receive_all_invariant (amax amin refresh persistence : Z)
      (feed : list (Z * payload)) :
  let st := receive_all (new_system amax amin refresh persistence) feed in
  callbacks st.1 = [cache_consumer]
  ∧ proc_filters st.1 = {| max_altitude := Some amax; min_altitude := Some amin |}
  ∧ reachable st.2
  ∧ persistence_time st.2 = persistence.
Proof.
  cbv zeta. unfold receive_all.
  induction feed as [|[t b] feed IH] using rev_ind.
  - cbn. repeat split; try done. constructor.
  - rewrite fold_left_app. cbn [fold_left fst snd].
    destruct (fold_left _ feed _) as [self cache].
    cbn [fst snd] in IH. destruct IH as (Hcb & Hflt & Hreach & Hp).
    destruct (receive_cases self cache t b Hcb)
      as (Hcb' & Hflt' & [Hsame|(accepted & _ & Hupd)]).
    + rewrite Hcb', Hflt', Hsame. done.
    + rewrite Hcb', Hflt', Hupd, update_persistence_time.
      repeat split; try done. by constructor.
Qed.

(** Batches from which no record is accepted never reach the cache: after
    any run of them, at whatever clock readings, the cache holds the very
    entries it held, with the ages they had. Entries are aged and swept
    only when a batch with an accepted record comes in. *)
Theorem idle_batches_leave_cache (self : @processor _ world) (cache : generator)
        (feed : list (Z * payload)) :
  Forall (λ tb, accepts_nothing (proc_filters self) tb.2) feed →
  (receive_all (self, cache) feed).2 = cache
  ∧ callbacks (receive_all (self, cache) feed).1 = callbacks self.
Proof.
  revert self. unfold receive_all.
  induction feed as [|[t b] feed IH]; intros self Hfeed; [done|].
  apply Forall_cons in Hfeed as [Hb Hfeed]. cbn [fold_left fst snd] in *.
  assert (Hstep : ∃ st, receive (self, cache) t b = (with_stats self st, cache)).
  { unfold receive, process_aircraft_data. destruct b as [items|truth];
      [|by eexists].
    pose proof (filter_loop_none (proc_filters self) (map snd items)
                  (add_total (Z.of_nat (length (map snd items)))
                             (incr_payloads (proc_stats self))) Hb) as Hnone.
    destruct (filter_loop _ _ _ _) as [st3 [[|a accepted]|e]]; cbn [snd] in *.
    - by eexists.
    - by destruct (Hnone (a :: accepted)).
    - by eexists. }
  destruct Hstep as [st ->]. by apply (IH (with_stats self st)).
Qed.

(** A record of a batch that gets through the filters of the system and
    carries an id is served afterwards: the cache holds an entry under its
    id, of age 0 and last seen at the clock reading of the update, and the
    snapshot lists it. This holds in every state the system can be in,
    whatever batches came before, the persistence window not being
    negative and no altitude of the batch being a string. *)
Theorem accepted_record_is_served (amax amin refresh persistence : Z)
        (feed : list (Z * payload)) (t : Z) (items : list (string * aircraft))
        (a : aircraft) :
  (0 ≤ persistence)%Z →
  Forall altitude_numeric (map snd items) →
  a ∈ map snd items →
  (∀ st, (_passes_filters {| max_altitude := Some amax; min_altitude := Some amin |}
                          st a).2 = Ok true) →
  Py.truthy (Py.get a "adshex") = true →
  let before := receive_all (new_system amax amin refresh persistence) feed in
  let cache := (receive before t (Mapping items)).2 in
  ∃ l e, Py.dict_get (aircraft_database cache) (Py.get a "adshex") = Some l
         ∧ store cache !! l = Some e
         ∧ l ∈ get_current_aircraft cache
         ∧ age_seconds e = 0%Z
         ∧ last_seen_timestamp e = t.
Proof.
  intros Hp Hnum Ha Hpass Hid. cbv zeta.
  destruct (receive_all_invariant amax amin refresh persistence feed)
    as (Hcb & Hflt & Hreach & Hpers). cbv zeta in *.
  destruct (receive_all _ feed) as [self cache0]. cbn [fst snd] in *.
  set (accepted :=
         List.filter (λ r, returned_true
                             (_passes_filters (proc_filters self)
                                              (proc_stats self) r).2)
                     (map snd items)).
  assert (Hin : a ∈ accepted).
  { apply list_elem_of_In, filter_In. split; [by apply list_elem_of_In|].
    by rewrite Hflt, Hpass. }
  assert (Hcache : (receive (self, cache0) t (Mapping items)).2
                   = update_aircraft_data cache0 accepted t).
  { unfold receive.
    destruct (process_aircraft_data_returns self items
                {| clock := t; kmz_generator := cache0 |} Hnum)
      as (st3 & _ & Hret).
    cbv zeta in Hret. rewrite Hret. fold accepted. rewrite Hcb.
    destruct accepted as [|a0 accepted0] eqn:Hacc0; [by inversion Hin|].
    done. }
  rewrite Hcache.
  destruct (last_match
              (λ a', Py.eqb (Py.get a' "adshex") (Py.get a "adshex"))
              accepted a Hin (eqb_refl _))
    as (pre & a' & post & Hsplit & Heq & Hpost).
  assert (Hid' : Py.truthy (Py.get a' "adshex") = true)
    by (by rewrite (eqb_truthy _ _ Heq)).
  assert (Hpost' : ∀ x, x ∈ post →
                        Py.eqb (Py.get x "adshex") (Py.get a' "adshex") = false).
  { intros x Hx. specialize (Hpost x Hx). cbv beta in Hpost.
    destruct (Py.eqb (Py.get x "adshex") (Py.get a' "adshex")) eqn:Hxa; [|done].
    by rewrite (eqb_trans _ _ _ Hxa Heq) in Hpost. }
  destruct (update_last cache0 pre post a' t (reachable_inv _ Hreach) Hid' Hpost')
    as [_ Hserved].
  cbv zeta in Hserved. rewrite <- Hsplit in Hserved.
  destruct Hserved as (l & Hget & Hobj & _); [lia|].
  exists l, (minimal_aircraft (Py.get a' "adshex") a' t).
  split; [|split; [done|split; [|by split]]].
  - rewrite <- Hget. symmetry. by apply dict_get_eqb.
  - apply dict_get_Some_elem in Hget as (k' & Hk' & _).
    unfold get_current_aircraft. apply list_elem_of_fmap. by exists (k', l).
Qed.

End SystemMore.



Section FurtherWitnesses.
Import DLEProtocol DataProcessor KMZ FirehoseClient System Samples.

Lemma C6_filter_stats_invariant_witness :
  let ops : list (@operation unit) :=
    [ProcessBatch (Mapping [("a", ac1); ("b", grounded)]);
     UpdateFilters {| max_altitude := Some 4000%Z; min_altitude := None |};
     ProcessBatch (Mapping [("c", ac2)])] in
  let final :=
    proc_stats (run_operations ((DataProcessor.init (H := binary64) None), tt) ops).1 in
  Forall operation_altitudes_numeric ops
  ∧ total_aircraft final = 3%Z
  ∧ filtered_aircraft final = 2%Z
  ∧ filter_pass_rate final
    = Binary64.round1 (Binary64.float_mul (Binary64.int_truediv 2 3) 100)
  ∧ Qred (filter_pass_rate final) = (4693595236650189 # 70368744177664)%Q.
Proof.
  cbv zeta.
  assert (Hops : Forall (@operation_altitudes_numeric unit)
            [ProcessBatch (Mapping [("a", ac1); ("b", grounded)]);
             UpdateFilters {| max_altitude := Some 4000%Z; min_altitude := None |};
             ProcessBatch (Mapping [("c", ac2)])]).
  { repeat constructor; intros s; vm_compute; discriminate. }
  split; [exact Hops|]. split; [reflexivity|]. split; [reflexivity|].
  destruct (C6_filter_stats_invariant (W := unit) None tt
              [ProcessBatch (Mapping [("a", ac1); ("b", grounded)]);
               UpdateFilters {| max_altitude := Some 4000%Z; min_altitude := None |};
               ProcessBatch (Mapping [("c", ac2)])])
    as (_ & _ & _ & _ & _ & seen & _ & _ & Hrate & Hnum & _).
  assert (Hseen : seen = 3%Z) by exact (Hnum Hops).
  rewrite Hseen in Hrate.
  split; [exact Hrate|].
  rewrite Hrate. vm_compute. reflexivity.
Defined.

(** C6, as the specification states it, fails in two ways. Of a batch of
    80 records 23 pass: the exact percentage is 28.75, which to one decimal
    is 28.8, but the code computes in binary64, where 23 / 80 * 100 lies
    just below 28.75, and reports the float 28.7. And after a batch with one
    passing record and a batch holding a record with a string as altitude,
    whose call raises, one record of two seen has passed, yet the pass rate
    still is the 100.0 of the first call, not 50.0. *)
Lemma C6_rate_in_binary64_and_stale_after_raise :
  let self := DataProcessor.init (H := binary64) (W := unit) None in
  let after80 :=
    proc_stats (process_aircraft_data self (Mapping (batch_of 23 80)) tt).1.1.1 in
  let ok_then_raise :=
    proc_stats (run_operations (self, tt)
                  [ProcessBatch (Mapping [("a", ac1)]);
                   ProcessBatch (Mapping [("s", string_altitude)])]).1 in
  total_aircraft after80 = 80%Z
  ∧ filtered_aircraft after80 = 23%Z
  ∧ (100 * (23 # 80) == 2875 # 100)%Q
  ∧ round_half_even (1000 * 23) 80 = 288%Z
  ∧ filter_pass_rate after80 = Binary64.nearest (287 # 10)
  ∧ Qred (filter_pass_rate after80) = (8078331831595827 # 281474976710656)%Q
  ∧ (filter_pass_rate after80 < 2871 # 100)%Q
  ∧ total_aircraft ok_then_raise = 2%Z
  ∧ filtered_aircraft ok_then_raise = 1%Z
  ∧ Qred (filter_pass_rate ok_then_raise) = 100%Q
  ∧ Qred (Binary64.pass_rate 1 2) = 50%Q.
Proof. cbv zeta. repeat split; vm_compute; reflexivity. Qed.

Lemma extract_frames_discards_noise_witness :
  let items := [([x41; x10], [x01; x02]); ([], [x10])] in
  let tail := [x03; x10] in
  Forall (λ item : list byte * list byte, has_start_marker item.1 = false) items
  ∧ has_start_marker tail = false
  ∧ extract_frames (noisy_stream items ++ tail) = (map snd items, []).
Proof.
  cbv zeta.
  assert (Hitems : Forall (λ item : list byte * list byte,
                             has_start_marker item.1 = false)
                          [([x41; x10], [x01; x02]); ([], [x10])])
    by (repeat constructor).
  split; [exact Hitems|]. split; [reflexivity|].
  apply (extract_frames_discards_noise _ [x03; x10] Hitems). reflexivity.
Defined.

Lemma extract_two_reads_equivalence_witness :
  let ps := [[x01]; [x02]] in
  (∀ m, m < length ps → 3 ≠ length (stream (take m ps)) + 1)
  ∧ extract_two_reads (stream ps) 3 = extract_frames (stream ps).
Proof.
  cbv zeta.
  assert (Hoff : ∀ m, m < length [[x01]; [x02]] →
                      3 ≠ length (stream (take m [[x01]; [x02]])) + 1).
  { intros m Hm. destruct m as [|[|m]]; cbn in *; lia. }
  split; [exact Hoff|].
  apply (extract_two_reads_equivalence [[x01]; [x02]] 3 Hoff).
Defined.

Lemma string_altitude_loses_batch_witness :
  let self := @DataProcessor.init binary64 unit None in
  let bad : aircraft := <["altitude" := PStr "high"]> ac1 in
  Py.get bad "altitude" = PStr "high"
  ∧ is_Some (min_altitude (proc_filters self))
  ∧ (process_aircraft_data self (Mapping ([("a", ac1)] ++ ("b", bad) :: [("c", ac2)]))
                           tt).2
    = Raise TypeError.
Proof.
  cbv zeta.
  assert (Hmin : is_Some (min_altitude
                            (proc_filters (@DataProcessor.init binary64 unit None))))
    by (by eexists).
  split; [reflexivity|]. split; [exact Hmin|].
  destruct (string_altitude_loses_batch (H := binary64)
              (@DataProcessor.init binary64 unit None)
              [("a", ac1)] [("c", ac2)] "b"
              (<["altitude" := PStr "high"]> ac1) "high" tt)
    as (st' & Hcall & _).
  - vm_compute. discriminate.
  - vm_compute. discriminate.
  - reflexivity.
  - reflexivity.
  - left. exact Hmin.
  - rewrite Hcall. reflexivity.
Defined.

Lemma update_keeps_unexpired_witness :
  let self := update_aircraft_data (KMZ.init 1 15) [ac2] 90 in
  let e := minimal_aircraft (PStr "AC2") ac2 90 in
  let self' := update_aircraft_data self [ac1] 100 in
  reachable self
  ∧ (100 - last_seen_timestamp e ≤ persistence_time self)%Z
  ∧ Py.dict_get (aircraft_database self') (PStr "AC2") = Some 0
  ∧ store self' !! 0 = Some (sweep_entry 100 e)
  ∧ 0 ∈ get_current_aircraft self'.
Proof.
  cbv zeta.
  assert (Hreach : reachable (update_aircraft_data (KMZ.init 1 15) [ac2] 90))
    by apply reachable_update, reachable_init.
  split; [exact Hreach|]. split; [vm_compute; discriminate|].
  apply (update_keeps_unexpired _ [ac1] 100 (PStr "AC2") 0
           (minimal_aircraft (PStr "AC2") ac2 90) Hreach).
  - left.
  - reflexivity.
  - intros a Ha _. apply list_elem_of_singleton in Ha. subst a. reflexivity.
  - vm_compute. discriminate.
Defined.

Lemma snapshot_entries_origin_witness :
  let self := update_aircraft_data (KMZ.init 1 15) [ac2] 90 in
  let self' := update_aircraft_data self [ac1] 100 in
  let e := minimal_aircraft (PStr "AC1") ac1 100 in
  reachable self
  ∧ e ∈ view (store self') (get_current_aircraft self')
  ∧ ((∃ e0, e0 ∈ view (store self) (get_current_aircraft self)
            ∧ e = sweep_entry 100 e0)
     ∨ (∃ a, a ∈ [ac1] ∧ Py.truthy (Py.get a "adshex") = true
             ∧ e = minimal_aircraft (Py.get a "adshex") a 100)).
Proof.
  cbv zeta.
  assert (Hreach : reachable (update_aircraft_data (KMZ.init 1 15) [ac2] 90))
    by apply reachable_update, reachable_init.
  assert (He : minimal_aircraft (PStr "AC1") ac1 100
               ∈ view (store (update_aircraft_data
                                (update_aircraft_data (KMZ.init 1 15) [ac2] 90)
                                [ac1] 100))
                      (get_current_aircraft
                         (update_aircraft_data
                            (update_aircraft_data (KMZ.init 1 15) [ac2] 90)
                            [ac1] 100))).
  { right. left. }
  split; [exact Hreach|]. split; [exact He|].
  exact (snapshot_entries_origin _ [ac1] 100 _ Hreach He).
Defined.

Lemma update_replaces_refreshed_witness :
  let self := update_aircraft_data (KMZ.init 1 15) [ac1] 90 in
  let e := minimal_aircraft (PStr "AC1") ac1 90 in
  let self' := updates (update_aircraft_data self [ac1] 100) [([ac2], 200%Z)] in
  reachable self
  ∧ store self !! 0 = Some e
  ∧ store self' !! 0 = Some e
  ∧ (0 ∉ get_current_aircraft self').
Proof.
  cbv zeta.
  assert (Hreach : reachable (update_aircraft_data (KMZ.init 1 15) [ac1] 90))
    by apply reachable_update, reachable_init.
  split; [exact Hreach|]. split; [reflexivity|].
  apply (update_replaces_refreshed _ [ac1] 100 (PStr "AC1") 0
           (minimal_aircraft (PStr "AC1") ac1 90) ac1 [([ac2], 200%Z)] Hreach).
  - left.
  - reflexivity.
  - left.
  - reflexivity.
  - reflexivity.
Defined.

Lemma session_reassembles_frames_witness :
  let gzip_decompress : list byte → option (list byte) := λ _, None in
  let json_loads : list byte → option payload := λ _, None in
  let self := {| buffer := [x05];
                 data_processor := Some (@DataProcessor.init binary64 unit None) |} in
  let ps := [[x01]; [x02]] in
  let chunks := [[x10; x02; x01]; [x10; x03; x10; x02; x02; x10]; [x03]] in
  concat chunks = stream ps
  ∧ Forall (λ chunk : list byte, chunk ≠ []) chunks
  ∧ connected_session gzip_decompress json_loads self tt
      (map (λ chunk, Recv (Received chunk)) chunks)
    = let '(dp', w', events, _) :=
        process_frames gzip_decompress json_loads (data_processor self) tt ps in
      ({| buffer := []; data_processor := dp' |}, w', events, true).
Proof.
  cbv zeta.
  assert (Hne : Forall (λ chunk : list byte, chunk ≠ [])
                       [[x10; x02; x01]; [x10; x03; x10; x02; x02; x10]; [x03]])
    by (repeat constructor; discriminate).
  split; [reflexivity|]. split; [exact Hne|].
  apply (session_reassembles_frames (H := binary64) (W := unit)
           (λ _, None) (λ _, None)); [reflexivity|exact Hne|].
  intros n Hn m Hm.
  destruct n as [|[|[|[|n]]]], m as [|[|m]]; cbn in *; lia.
Defined.

Lemma idle_batches_leave_cache_witness :
  let self := (new_system (H := binary64) 10000 100 1 15).1 in
  let cache := update_aircraft_data (KMZ.init 1 15) [ac2] 90 in
  let feed := [(200%Z, Mapping [("a", grounded); ("b", no_lon)]);
               (300%Z, NotMapping true)] in
  Forall (λ tb : Z * payload,
            accepts_nothing (H := binary64) (proc_filters self) tb.2) feed
  ∧ (receive_all (self, cache) feed).2 = cache
  ∧ Py.dict_get (aircraft_database (receive_all (self, cache) feed).2) (PStr "AC2")
    = Some 0.
Proof.
  cbv zeta.
  assert (Hfeed : Forall (λ tb : Z * payload,
                            accepts_nothing (H := binary64)
                              (proc_filters (new_system (H := binary64)
                                                        10000 100 1 15).1) tb.2)
                         [(200%Z, Mapping [("a", grounded); ("b", no_lon)]);
                          (300%Z, NotMapping true)]).
  { repeat constructor. intros a st Ha.
    apply elem_of_cons in Ha as [->|Ha]; [vm_compute; discriminate|].
    apply list_elem_of_singleton in Ha. subst a. vm_compute. discriminate. }
  split; [exact Hfeed|].
  destruct (idle_batches_leave_cache (H := binary64) _
              (update_aircraft_data (KMZ.init 1 15) [ac2] 90) _ Hfeed)
    as [Hcache _].
  split; [exact Hcache|]. rewrite Hcache. reflexivity.
Defined.

Lemma accepted_record_is_served_witness :
  let before :=
    receive_all (new_system (H := binary64) 10000 100 1 15)
                [(90%Z, Mapping [("x", ac2)])] in
  let items := [("a", ac1); ("b", grounded)] in
  let cache := (receive before 100 (Mapping items)).2 in
  Forall altitude_numeric (map snd items)
  ∧ Py.truthy (Py.get ac1 "adshex") = true
  ∧ ∃ l e, Py.dict_get (aircraft_database cache) (Py.get ac1 "adshex") = Some l
           ∧ store cache !! l = Some e
           ∧ l ∈ get_current_aircraft cache
           ∧ age_seconds e = 0%Z
           ∧ last_seen_timestamp e = 100%Z.
Proof.
  cbv zeta.
  assert (Hnum : Forall altitude_numeric (map snd [("a", ac1); ("b", grounded)]))
    by (repeat constructor; intros s; vm_compute; discriminate).
  split; [exact Hnum|]. split; [reflexivity|].
  apply (accepted_record_is_served (H := binary64) 10000 100 1 15
           [(90%Z, Mapping [("x", ac2)])] 100 [("a", ac1); ("b", grounded)] ac1).
  - lia.
  - exact Hnum.
  - left.
  - intros st. reflexivity.
  - reflexivity.
Defined.

End FurtherWitnesses.
